(** * Boot stages of the Magisk daemon (native/jni/daemon/bootstages.cpp)

    A shallow embedding of the magic-mount node tree, of the mount emitter,
    of the simple mounter, of image preparation and of the boot-stage entry
    points, with the properties the specification states about them, and of
    [startup], [unlock_blocks] and [install_apk], with further properties of
    the code.  Left out are [set_path] and [set_mirror_path], which only
    change the environment of a script and are recorded with the script,
    [boot_complete], and the destructor of the node class.

    Conventions of the embedding.
    - C strings are [string]s.  The two path buffers [buf] and [buf2] are
      process globals of the source and are part of the state; paths are
      taken to fit PATH_MAX, so [snprintf] never truncates.
    - [uint8_t] and [unsigned char] values are [Z]s in [0, 256).
    - Everything the daemon asks of the operating system is answered by a
      [platform] of oracles; everything it does to the operating system is
      recorded, in program order, as a list of [syscall]s.  The code never
      asks about a path that it has written to itself, so the oracles are
      functions of the path alone.  [xstat] is not an oracle: it wraps
      stat(2), which follows symbolic links and so never reports one.
    - The retry loop of [install_apk] has no bound.  It is modelled with a
      bound on the attempts, and so is [late_start], which calls it: a run
      that never leaves the loop is one that has not returned however many
      attempts are allowed.
    - The constants of magisk.h are the fields of a [magisk_h] record. *)

From Stdlib Require Import ZArith Lia Ascii.
From stdpp Require Import base list strings.

Open Scope Z_scope.
Set Warnings "-register-all".

(** ** Constants *)

(** [d_type] values of <dirent.h>. *)
Definition DT_DIR : Z := 4.
Definition DT_REG : Z := 8.
Definition DT_LNK : Z := 10.

(** Precedence: MODULE > SKEL > INTER > DUMMY *)
Definition IS_DUMMY : Z := 0x01.   (* mount from mirror *)
Definition IS_INTER : Z := 0x02.   (* intermediate node *)
Definition IS_SKEL : Z := 0x04.    (* mount from skeleton *)
Definition IS_MODULE : Z := 0x08.  (* mount from module *)

(** The paths of magisk.h, which is not among the sources at hand. *)
Record magisk_h := {
  MOUNTPOINT : string;
  MIRRDIR : string;
  SIMPLEMOUNT : string;
  COREDIR : string;
  MAINIMG : string;
  SECURE_DIR : string;
  DISABLEFILE : string;
  HOSTSFILE : string;
  UNBLOCKFILE : string;
  MANAGERAPK : string;
  BOOTCOUNT : string;
  MAGISKHIDE_PROP : string;
}.

(** ** Directory streams

    A [DIR] is what [opendir] hands back: [NULL], or the entries [readdir]
    will deliver, in order.  An entry carries the stream that [opendir]
    returns for the entry's own path, which is how the recursive walks
    descend. *)
Inductive DIR :=
  | NULL
  | Stream (entries : list dirent)
with dirent :=
  | Dirent (d_name : string) (d_type : Z) (d_open : DIR).

Definition d_name (e : dirent) : string := let 'Dirent n _ _ := e in n.
Definition d_type (e : dirent) : Z := let 'Dirent _ t _ := e in t.
Definition d_open (e : dirent) : DIR := let 'Dirent _ _ d := e in d.

(** [strcmp(entry->d_name, ".") == 0 || strcmp(entry->d_name, "..") == 0] *)
Definition is_dot (e : dirent) : bool :=
  bool_decide (d_name e = ".") || bool_decide (d_name e = "..").

(** ** The node tree *)

(** [parent] is a non-owning back pointer, read by [is_root] and [get_path].
    A node held in a [children] array points back at the owner of the array
    ([insert] and [extract] are the only writers), so the model records
    whether the pointer is null and reads the node it designates off the
    position in the tree. *)
Inductive backref := nullptr | owner.

Global Instance backref_eq_dec : EqDecision backref.
Proof. solve_decision. Defined.

Inductive node_entry := Node {
  module : string;    (* Only used when status & IS_MODULE *)
  name : string;
  type : Z;
  status : Z;
  parent : backref;
  children : list node_entry;
}.

Definition set_status (s : Z) (n : node_entry) : node_entry :=
  Node (module n) (name n) (type n) s (parent n) (children n).
Definition set_parent (p : backref) (n : node_entry) : node_entry :=
  Node (module n) (name n) (type n) (status n) p (children n).
Definition set_children (cs : list node_entry) (n : node_entry) : node_entry :=
  Node (module n) (name n) (type n) (status n) (parent n) cs.

(** [node_entry(const char *name, uint8_t status = 0, uint8_t type = 0)];
    [module] is left uninitialised by the source. *)
Definition new_node (name : string) (status type : Z) : node_entry :=
  Node "" name type status nullptr [].

(** [node_entry(const char *module, const char *name, uint8_t type)] *)
Definition new_module_node (module name : string) (type : Z) : node_entry :=
  Node module name type 0 nullptr [].

Definition IS_DIR (n : node_entry) : bool := bool_decide (type n = DT_DIR).
Definition IS_LNK (n : node_entry) : bool := bool_decide (type n = DT_LNK).
Definition IS_REG (n : node_entry) : bool := bool_decide (type n = DT_REG).

(** [status & mask] as a C condition. *)
Definition has (mask : Z) (n : node_entry) : bool :=
  negb (Z.land (status n) mask =? 0).

Definition is_root (n : node_entry) : bool := bool_decide (parent n = nullptr).

(** [get_path]: the path of the parent, when there is one, then "/name".
    [up] is the path of the node that owns the array [n] sits in. *)
Definition get_path (up : string) (n : node_entry) : string :=
  match parent n with
  | nullptr => "/" +:+ name n
  | owner => up +:+ "/" +:+ name n
  end.

(** The loop of [insert] over [children].  The result is the array after the
    call and the index of the slot whose node the call returns. *)
Fixpoint insert_loop (children : list node_entry) (node : node_entry)
  : list node_entry * nat :=
  match children with
  | [] => ([node], 0%nat)                   (* children.push_back(node) *)
  | child :: rest =>
      if bool_decide (name child = name node) then
        if bool_decide (status node > status child) then
          (* The new node has higher precedence *)
          (node :: rest, 0%nat)
        else
          (child :: rest, 0%nat)
      else
        let '(rest', i) := insert_loop rest node in (child :: rest', S i)
  end.

Definition insert (this node : node_entry) : node_entry * nat :=
  let node := set_parent owner node in
  let '(cs, i) := insert_loop (children this) node in
  (set_children cs this, i).

(** The loop of [extract]: the array after the call and the node taken out. *)
Fixpoint extract_loop (children : list node_entry) (nm : string)
  : list node_entry * option node_entry :=
  match children with
  | [] => ([], None)
  | child :: rest =>
      if bool_decide (name child = nm) then
        (set_parent (parent child) (new_node nm 0 0) :: rest,
         Some (set_parent nullptr child))
      else
        let '(rest', r) := extract_loop rest nm in (child :: rest', r)
  end.

Definition extract (this : node_entry) (nm : string)
  : node_entry * option node_entry :=
  let '(cs, r) := extract_loop (children this) nm in (set_children cs this, r).

(** One more than the longest chain of [children] below a node. *)
Fixpoint height (n : node_entry) : nat :=
  S (max_list (height <$> children n)).

(** ** Process state and effects *)

(** The globals of the daemon: the two path buffers and [module_list] of
    bootstages.cpp, and the flags [setup_done] and [seperate_vendor]. *)
Record globals := Globals {
  buf : string;
  buf2 : string;
  module_list : list string;
  setup_done : bool;
  seperate_vendor : bool;
}.

(** The octal modes 0755, 0644 and 0700. *)
Definition mode_0755 : Z := 493.
Definition mode_0644 : Z := 420.
Definition mode_0700 : Z := 448.

Definition O_RDONLY : Z := 0.
Definition O_CREAT : Z := 64.
Definition MS_RDONLY : Z := 1.
Definition MS_REMOUNT : Z := 32.
Definition MS_BIND : Z := 4096.

(** [set_path] or [set_mirror_path], the callback given to [exec_command]. *)
Inductive setenvs := set_path | set_mirror_path.

(** What the daemon does to the system, one constructor per call. *)
Inductive syscall :=
  | xmount (source : option string) (target : string)
           (filesystemtype : option string) (mountflags : Z)
  | xmkdir (pathname : string) (mode : Z)
  | creat (pathname : string) (mode : Z)
  | cp_afc (source destination : string)
  | getattr (path : string)
  | setattr (path : string)
  | clone_attr (source target : string)
  | rm_rf (path : string)
  | unlink (path : string)
  | xsymlink (target linkpath : string)
  | chmod (path : string) (mode : Z)
  | rename (oldpath newpath : string)
  | exec_sh (cb : setenvs) (script : string)
  | exec_command_sync (argv : list string)
  | merge_img_call (source target : string)
  | create_img_call (img : string) (size : Z)
  | mount_image_call (img target : string)
  | trim_img_call (img mount loop : string)
  | load_prop_file (filename : string)
  | restorecon
  | start_log_daemon_call
  | launch_magiskhide_thread
  | xopen_close (pathname : string) (flags mode : Z)
  | write_int_close (val : Z)
  | pthread_exit.

Global Instance setenvs_eq_dec : EqDecision setenvs.
Proof. solve_decision. Defined.

Global Instance syscall_eq_dec : EqDecision syscall.
Proof. solve_decision. Defined.

(** The answers of the system. *)
Record platform := {
  access_F_OK : string -> bool;        (* access(path, F_OK) == 0 *)
  access_X_OK : string -> bool;        (* access(path, X_OK) == 0 *)
  (* the path itself names a symbolic link: what xlstat(path, &s);
     S_ISLNK(s.st_mode) would report.  The stages modelled here never ask. *)
  xlstat_S_ISLNK : string -> bool;
  xopendir : string -> DIR;
  merge_img : string -> string -> Z;
  create_img : string -> Z -> Z;
  mount_image : string -> string -> option string;
  trim_img : string -> string -> string -> Z;
  getprop : string -> string;          (* empty when the property is unset *)
  file_to_array : string -> list string;
  contains : string -> string -> bool; (* CharArray::contains *)
  start_log_daemon : bool;
  get_magiskdb : bool;                 (* a database handle was obtained *)
  validate_manager : Z;
}.

(** [xstat(path, &s); S_ISLNK(s.st_mode)].  [xstat] is the wrapper of
    stat(2) that utils.h declares beside [xlstat].  stat follows symbolic
    links: the mode it fills in is that of the file the path leads to, never
    the mode of a link, whatever the path itself names.  (The code makes the
    test on a path that [access] has just found to exist, so the call does
    not fail.) *)
Definition xstat_S_ISLNK (sys : platform) (path : string) : bool := false.
Global Arguments xstat_S_ISLNK : simpl never.

(** Computations over the globals that record their system calls. *)
Definition io (A : Type) : Type := globals -> A * globals * list syscall.

Global Instance io_ret : MRet io := fun A x g => (x, g, []).
Global Instance io_bind : MBind io := fun A B f m g =>
  let '(x, g1, t1) := m g in
  let '(y, g2, t2) := f x g1 in
  (y, g2, t1 ++ t2).

Definition result {A} (r : A * globals * list syscall) : A := r.1.1.
Definition final {A} (r : A * globals * list syscall) : globals := r.1.2.
Definition trace {A} (r : A * globals * list syscall) : list syscall := r.2.

Definition emit (c : syscall) : io unit := fun g => (tt, g, [c]).
Definition gets {A} (f : globals -> A) : io A := fun g => (f g, g, []).
Definition modify (f : globals -> globals) : io unit := fun g => (tt, f g, []).

(** [snprintf(buf, PATH_MAX, ...)] and [snprintf(buf2, PATH_MAX, ...)] *)
Definition set_buf (s : string) : io unit :=
  modify (fun g => Globals s (buf2 g) (module_list g) (setup_done g) (seperate_vendor g)).
Definition set_buf2 (s : string) : io unit :=
  modify (fun g => Globals (buf g) s (module_list g) (setup_done g) (seperate_vendor g)).
Definition set_module_list (l : list string) : io unit :=
  modify (fun g => Globals (buf g) (buf2 g) l (setup_done g) (seperate_vendor g)).
Definition set_setup_done (b : bool) : io unit :=
  modify (fun g => Globals (buf g) (buf2 g) (module_list g) b (seperate_vendor g)).

Definition when (b : bool) (m : io unit) : io unit := if b then m else mret tt.

Definition for_each {A} (f : A -> io unit) : list A -> io unit :=
  fix go l := match l with [] => mret tt | x :: l => f x ;; go l end.

(** A loop that carries a value from one iteration to the next. *)
Definition fold_each {A S} (f : A -> S -> io S) : list A -> S -> io S :=
  fix go l s := match l with [] => mret s | x :: l => s ← f x s; go l s end.

(** [bind_mount(from, to)] *)
Definition bind_mount (from to : string) : io Z :=
  emit (xmount (Some from) to None MS_BIND);; mret 0.

(** ** The daemon *)

Section Daemon.

Variable h : magisk_h.
Variable sys : platform.

(** *** Magic mount *)

(** The clone condition of [create_module_tree], for the candidate [node]
    of an entry whose target path is [target]. *)
Definition clone_condition (this node : node_entry) (target : string) : bool :=
  if IS_LNK node || negb (access_F_OK sys target) then true
  else if negb (is_root this) || negb (bool_decide (name node = "vendor")) then
    xstat_S_ISLNK sys target
  else false.

(** The statuses [create_module_tree] gives to the parent [this] and to the
    candidate [node] of an entry, before the candidate is inserted. *)
Definition mark_entry (module target : string) (this node : node_entry)
  : io (node_entry * node_entry) :=
  if clone_condition this node target then
    (* Mark self as a skeleton *)
    mret (set_status (Z.lor (status this) IS_SKEL) this,
          set_status IS_MODULE node)
  else if IS_DIR node then
    (* Check if marked as replace *)
    let marker := MOUNTPOINT h +:+ "/" +:+ module +:+ target +:+ "/.replace" in
    set_buf2 marker;;
    if access_F_OK sys marker
    then mret (this, set_status IS_MODULE node)
    else mret (this, set_status IS_INTER node)
  else if IS_REG node then
    (* This is a file, mark as leaf *)
    mret (this, set_status IS_MODULE node)
  else mret (this, node).

(** The body of the loop of [create_module_tree] for one entry.  [descend]
    stands for the recursive call on the effective node, given the stream
    of the entry. *)
Definition create_module_tree_entry
    (descend : DIR -> string -> node_entry -> io node_entry)
    (module full_path : string) (entry : dirent) (this : node_entry)
  : io node_entry :=
  if is_dot entry then mret this
  else
    (* Create new node *)
    let node := new_module_node module (d_name entry) (d_type entry) in
    let target := full_path +:+ "/" +:+ d_name entry in
    set_buf target;;
    '(this, node) ← mark_entry module target this node;
    let '(this, i) := insert this node in
    match children this !! i with
    | Some node =>
        if has (Z.lor IS_SKEL IS_INTER) node then
          (* Intermediate folder, travel deeper *)
          node ← descend (d_open entry) full_path node;
          mret (set_children (<[i := node]> (children this)) this)
        else mret this
    | None => mret this
    end.

(** [create_module_tree], given the stream [dir] that [xopendir(buf)]
    returns.  The node is changed in place in the source; the function
    returns it. *)
Fixpoint create_module_tree_in (dir : DIR) (module up : string)
    (this : node_entry) {struct dir} : io node_entry :=
  let full_path := get_path up this in
  set_buf full_path;;
  set_buf (MOUNTPOINT h +:+ "/" +:+ module +:+ full_path);;
  match dir with
  | NULL => mret this
  | Stream entries =>
      fold_each
        (create_module_tree_entry
           (fun dir up node => create_module_tree_in dir module up node)
           module full_path)
        entries this
  end.

Definition create_module_tree (module up : string) (this : node_entry)
  : io node_entry :=
  create_module_tree_in
    (xopendir sys (MOUNTPOINT h +:+ "/" +:+ module +:+ get_path up this))
    module up this.

(** The first loop of [clone_skeleton]: a dummy node for every entry of the
    mirror directory. *)
Definition insert_dummies (entries : list dirent) (this : node_entry)
  : node_entry :=
  foldl (fun this entry =>
           if is_dot entry then this
           else (insert this (new_node (d_name entry) IS_DUMMY (d_type entry))).1)
        this entries.

(** The body of the second loop of [clone_skeleton] for one child of
    [this], whose path is [full_path].  [descend] stands for the recursive
    call on the child. *)
Definition clone_skeleton_child (descend : string -> node_entry -> io unit)
    (this : node_entry) (full_path : string) (child : node_entry) : io unit :=
  set_buf (full_path +:+ "/" +:+ name child);;
  (* Create the dummy file/directory *)
  (if IS_DIR child then emit (xmkdir (full_path +:+ "/" +:+ name child) mode_0755)
   else if IS_REG child then emit (creat (full_path +:+ "/" +:+ name child) mode_0644)
   else mret tt);;
  (* Links will be handled later *)
  if is_root this && bool_decide (name child = "vendor") then
    s ← gets seperate_vendor;
    when s (emit (cp_afc (MIRRDIR h +:+ "/system/vendor") "/system/vendor"))
    (* Skip *)
  else
    mount ←
      (if has IS_MODULE child then
         (* Mount from module file to dummy file *)
         set_buf2 (MOUNTPOINT h +:+ "/" +:+ module child +:+ full_path
                     +:+ "/" +:+ name child);;
         mret true
       else if has (Z.lor IS_SKEL IS_INTER) child then
         (* It's an intermediate folder, recursive clone *)
         descend full_path child;;
         mret false
       else if has IS_DUMMY child then
         (* Mount from mirror to dummy file *)
         set_buf2 (MIRRDIR h +:+ full_path +:+ "/" +:+ name child);;
         mret true
       else mret true);
    when mount
      (if IS_LNK child then
         (* Copy symlinks directly *)
         from ← gets buf2; to ← gets buf;
         emit (cp_afc from to)
       else
         set_buf (full_path +:+ "/" +:+ name child);;
         from ← gets buf2; to ← gets buf;
         bind_mount from to;; mret tt).

(** The body of [clone_skeleton].  [descend] stands for the recursive call
    on a child. *)
Definition clone_skeleton_body (descend : string -> node_entry -> io unit)
    (up : string) (this : node_entry) : io unit :=
  (* Clone the structure *)
  let full_path := get_path up this in
  set_buf full_path;;
  set_buf (MIRRDIR h +:+ full_path);;
  match xopendir sys (MIRRDIR h +:+ full_path) with
  | NULL => mret tt
  | Stream entries =>
      let this := insert_dummies entries this in
      when (has IS_SKEL this)
        (emit (getattr full_path);;
         emit (xmount (Some "tmpfs") full_path (Some "tmpfs") 0);;
         emit (setattr full_path));;
      for_each (clone_skeleton_child descend this full_path) (children this)
  end.

(** [clone_skeleton].  The recursion follows the children that were in the
    tree before the dummies came in, so the height of the tree bounds its
    depth; [fuel] counts it down. *)
Fixpoint clone_skeleton_fuel (fuel : nat) (up : string) (this : node_entry)
  : io unit :=
  match fuel with
  | O => mret tt
  | S fuel => clone_skeleton_body (clone_skeleton_fuel fuel) up this
  end.

Definition clone_skeleton (up : string) (this : node_entry) : io unit :=
  clone_skeleton_fuel (height this) up this.

Fixpoint magic_mount (up : string) (this : node_entry) : io unit :=
  if has IS_MODULE this then
    (* Mount module item *)
    let real_path := get_path up this in
    set_buf real_path;;
    set_buf (MOUNTPOINT h +:+ "/" +:+ module this +:+ real_path);;
    from ← gets buf;
    bind_mount from real_path;; mret tt
  else if has IS_SKEL this then
    (* The node is labeled to be cloned with skeleton, lets do it *)
    clone_skeleton up this
  else if has IS_INTER this then
    (* It's an intermediate node, travel deeper *)
    for_each (magic_mount (get_path up this)) (children this)
  else mret tt.

(** *** Scripts *)

(** [strcmp(stage, "post-fs-data") ? set_path : set_mirror_path] *)
Definition stage_env (stage : string) : setenvs :=
  if bool_decide (stage = "post-fs-data") then set_mirror_path else set_path.

Definition exec_common_script (stage : string) : io unit :=
  set_buf2 (COREDIR h +:+ "/" +:+ stage +:+ ".d");;
  match xopendir sys (COREDIR h +:+ "/" +:+ stage +:+ ".d") with
  | NULL => mret tt
  | Stream entries =>
      for_each (fun entry =>
        when (bool_decide (d_type entry = DT_REG))
          (let script := COREDIR h +:+ "/" +:+ stage +:+ ".d/" +:+ d_name entry in
           set_buf2 script;;
           when (access_X_OK sys script) (emit (exec_sh (stage_env stage) script))))
        entries
  end.

Definition exec_module_script (stage : string) : io unit :=
  modules ← gets module_list;
  for_each (fun module =>
    let script := MOUNTPOINT h +:+ "/" +:+ module +:+ "/" +:+ stage +:+ ".sh" in
    let disable := MOUNTPOINT h +:+ "/" +:+ module +:+ "/disable" in
    set_buf2 script;;
    set_buf disable;;
    when (access_F_OK sys script && negb (access_F_OK sys disable))
      (emit (exec_sh (stage_env stage) script)))
    modules.

(** *** Simple mount *)

(** The body of the loop of [simple_mount] for one entry.  [descend] stands
    for the recursive call, given the stream of the entry. *)
Definition simple_mount_entry (descend : DIR -> string -> io unit)
    (path : string) (entry : dirent) : io unit :=
  if is_dot entry then mret tt
  else
    (* Target file path *)
    let target := path +:+ "/" +:+ d_name entry in
    set_buf2 target;;
    (* Only mount existing file *)
    if negb (access_F_OK sys target) then mret tt
    else if bool_decide (d_type entry = DT_DIR) then
      descend (d_open entry) target
    else if bool_decide (d_type entry = DT_REG) then
      (* Actual file path *)
      let actual := SIMPLEMOUNT h +:+ target in
      set_buf actual;;
      (* Clone all attributes *)
      emit (clone_attr target actual);;
      (* Finally, mount the file *)
      bind_mount actual target;; mret tt
    else mret tt.

(** [simple_mount], given the stream [dir] that [opendir(buf)] returns. *)
Fixpoint simple_mount_in (dir : DIR) (path : string) {struct dir} : io unit :=
  set_buf (SIMPLEMOUNT h +:+ path);;
  match dir with
  | NULL => mret tt
  | Stream entries =>
      for_each (simple_mount_entry (fun dir path => simple_mount_in dir path) path)
               entries
  end.

Definition simple_mount (path : string) : io unit :=
  simple_mount_in (xopendir sys (SIMPLEMOUNT h +:+ path)) path.

(** *** Miscellaneous *)

Definition alt_img : list string :=
  ["/cache/magisk.img"; "/data/magisk_merge.img"; "/data/adb/magisk_merge.img"].

(** The first loop of [prepare_img]; [true] when a merge failed. *)
Fixpoint merge_images (imgs : list string) : io bool :=
  match imgs with
  | [] => mret false
  | img :: imgs =>
      emit (merge_img_call img (MAINIMG h));;
      if bool_decide (merge_img sys img (MAINIMG h) = 0)
      then merge_images imgs
      else mret true
  end.

(** The body of the loop of [prepare_img] over the entries of MOUNTPOINT. *)
Definition prepare_img_entry (entry : dirent) : io unit :=
  when (bool_decide (d_type entry = DT_DIR))
    (if bool_decide (d_name entry = ".") || bool_decide (d_name entry = "..")
        || bool_decide (d_name entry = ".core")
        || bool_decide (d_name entry = "lost+found")
     then mret tt
     else
       let dir := MOUNTPOINT h +:+ "/" +:+ d_name entry in
       set_buf (dir +:+ "/remove");;
       if access_F_OK sys (dir +:+ "/remove") then
         set_buf dir;;
         emit (rm_rf dir)
       else
         set_buf (dir +:+ "/update");;
         emit (unlink (dir +:+ "/update"));;
         set_buf (dir +:+ "/disable");;
         if access_F_OK sys (dir +:+ "/disable") then mret tt
         else
           modules ← gets module_list;
           set_module_list (modules ++ [d_name entry])).

(** The stream of MOUNTPOINT is not checked by the source; a null stream is
    read as one without entries. *)
Definition entries_of (dir : DIR) : list dirent :=
  match dir with NULL => [] | Stream entries => entries end.

Definition prepare_img : io Z :=
  (* Merge images *)
  failed ← merge_images alt_img;
  if (failed : bool) then mret 1
  else
    created ←
      (if access_F_OK sys (MAINIMG h) then mret true
       else
         emit (create_img_call (MAINIMG h) 64);;
         mret (bool_decide (create_img sys (MAINIMG h) 64 = 0)));
    if negb created then mret 1
    else
      (* Mounting magisk image *)
      emit (mount_image_call (MAINIMG h) (MOUNTPOINT h));;
      match mount_image sys (MAINIMG h) (MOUNTPOINT h) with
      | None => mret 1
      | Some magiskloop =>
          emit (xmkdir (COREDIR h) mode_0755);;
          emit (xmkdir (COREDIR h +:+ "/post-fs-data.d") mode_0755);;
          emit (xmkdir (COREDIR h +:+ "/service.d") mode_0755);;
          emit (xmkdir (COREDIR h +:+ "/props") mode_0755);;
          for_each prepare_img_entry (entries_of (xopendir sys (MOUNTPOINT h)));;
          emit (trim_img_call (MAINIMG h) (MOUNTPOINT h) magiskloop);;
          if bool_decide (trim_img sys (MAINIMG h) (MOUNTPOINT h) magiskloop = 0)
          then mret 0
          else mret 1
      end.

Definition check_data : bool :=
  let mounts := file_to_array sys "/proc/mounts" in
  let mnt :=
    foldl (fun mnt line =>
             if contains sys line " /data " && negb (contains sys line "tmpfs")
             then true else mnt)
          false mounts in
  if mnt then
    let crypto := getprop sys "ro.crypto.state" in
    if negb (bool_decide (crypto = "")) then
      if bool_decide (crypto = "unencrypted") then
        (* Unencrypted, we can directly access data *)
        true
      else
        (* Encrypted, check whether vold is started *)
        negb (bool_decide (getprop sys "init.svc.vold" = ""))
    else
      (* ro.crypto.state is not set, assume it's unencrypted *)
      true
  else false.

Definition auto_start_magiskhide : io unit :=
  emit start_log_daemon_call;;
  when (start_log_daemon sys)
    (when (negb (bool_decide (getprop sys (MAGISKHIDE_PROP h) = "0")))
       (emit launch_magiskhide_thread)).

(** *** Entry points *)

Definition unblock_boot_process : io unit :=
  emit (xopen_close (UNBLOCKFILE h) (Z.lor O_RDONLY O_CREAT) 0);;
  emit pthread_exit.

(** [core_only] ends the thread: nothing of the caller runs after it. *)
Definition core_only : io unit :=
  (* Systemless hosts *)
  when (access_F_OK sys (HOSTSFILE h))
    (bind_mount (HOSTSFILE h) "/system/etc/hosts";; mret tt);;
  auto_start_magiskhide;;
  unblock_boot_process.

(** The loop of [post_fs_data] over [module_list]. *)
Fixpoint load_modules (modules : list string) (sys_root : node_entry)
    (has_modules : bool) : io (node_entry * bool) :=
  match modules with
  | [] => mret (sys_root, has_modules)
  | module :: modules =>
      let dir := MOUNTPOINT h +:+ "/" +:+ module in
      (* Read props *)
      set_buf (dir +:+ "/system.prop");;
      when (access_F_OK sys (dir +:+ "/system.prop"))
        (emit (load_prop_file (dir +:+ "/system.prop")));;
      (* Check whether enable auto_mount *)
      set_buf (dir +:+ "/auto_mount");;
      if negb (access_F_OK sys (dir +:+ "/auto_mount"))
      then load_modules modules sys_root has_modules
      else
        (* Double check whether the system folder exists *)
        set_buf (dir +:+ "/system");;
        if negb (access_F_OK sys (dir +:+ "/system"))
        then load_modules modules sys_root has_modules
        else
          (* If /system/vendor exists in module, create a link outside *)
          set_buf (dir +:+ "/system/vendor");;
          when (access_F_OK sys (dir +:+ "/system/vendor"))
            (set_buf2 (dir +:+ "/vendor");;
             emit (unlink (dir +:+ "/vendor"));;
             emit (xsymlink (dir +:+ "/system/vendor") (dir +:+ "/vendor")));;
          sys_root ← create_module_tree module "" sys_root;
          load_modules modules sys_root true
  end.

(** What [post_fs_data] does with the tree once the modules are loaded. *)
Definition mount_modules (sys_root : node_entry) : io unit :=
  (* Pull out /system/vendor node if exist *)
  let '(sys_root, ven_root) := extract sys_root "vendor" in
  (* Magic!! *)
  magic_mount "" sys_root;;
  match ven_root with
  | Some ven_root => magic_mount "" ven_root
  | None => mret tt
  end.

Definition post_fs_data : io unit :=
  (* ack *)
  emit (write_int_close 0);;
  (* If post-fs-data mode is started, it means startup succeeded *)
  set_setup_done true;;
  emit (xmount None "/" None (Z.lor MS_REMOUNT MS_RDONLY));;
  (* Start log_daemon *)
  emit start_log_daemon_call;;
  (* Merge, trim, mount magisk.img, which will also travel through the modules
     After this, it will create the module list *)
  failed ← prepare_img;
  if negb (bool_decide (failed = 0)) then
    (* Mounting fails, we can only do core only stuffs *)
    core_only
  else
    emit restorecon;;
    emit (chmod (SECURE_DIR h) mode_0700);;
    (* Run common scripts *)
    exec_common_script "post-fs-data";;
    (* Core only mode *)
    if access_F_OK sys (DISABLEFILE h) then core_only
    else
      (* Execute module scripts *)
      exec_module_script "post-fs-data";;
      (* Create the system root entry *)
      let sys_root := new_node "system" IS_INTER 0 in
      modules ← gets module_list;
      '(sys_root, has_modules) ← load_modules modules sys_root false;
      when has_modules (mount_modules sys_root);;
      core_only.

End Daemon.

(** ** Concrete systems *)

(** One assignment of the paths of magisk.h, after the layout of an
    installation: the image is mounted on /sbin/.core/img and the mirrors
    of the partitions live under /sbin/.core/mirror. *)
Definition magisk : magisk_h := {|
  MOUNTPOINT := "/sbin/.core/img";
  MIRRDIR := "/sbin/.core/mirror";
  SIMPLEMOUNT := "/cache/magisk_mount";
  COREDIR := "/sbin/.core/img/.core";
  MAINIMG := "/data/adb/magisk.img";
  SECURE_DIR := "/data/adb";
  DISABLEFILE := "/cache/.disable_magisk";
  HOSTSFILE := "/sbin/.core/img/.core/hosts";
  UNBLOCKFILE := "/dev/.magisk.unblock";
  MANAGERAPK := "/data/adb/magisk/magisk.apk";
  BOOTCOUNT := "/data/.magisk_boot_count";
  MAGISKHIDE_PROP := "persist.magisk.hide";
|}.

(** The globals of a daemon that has just started. *)
Definition boot : globals := Globals "" "" [] false false.

(** [strstr(haystack, needle) != nullptr] *)
Fixpoint is_prefix (p s : string) : bool :=
  match p, s with
  | EmptyString, _ => true
  | String a p, String b s => bool_decide (a = b) && is_prefix p s
  | String _ _, EmptyString => false
  end.
Fixpoint strstr (haystack needle : string) : bool :=
  is_prefix needle haystack ||
  match haystack with
  | EmptyString => false
  | String _ rest => strstr rest needle
  end.

(** A system where nothing exists and every call succeeds. *)
Definition bare : platform := {|
  access_F_OK _ := false;
  access_X_OK _ := false;
  xlstat_S_ISLNK _ := false;
  xopendir _ := NULL;
  merge_img _ _ := 0;
  create_img _ _ := 0;
  mount_image _ _ := Some "/dev/block/loop0";
  trim_img _ _ _ := 0;
  getprop _ := "";
  file_to_array _ := [];
  contains := strstr;
  start_log_daemon := true;
  get_magiskdb := false;
  validate_manager := 0;
|}.


(** [exec_command_sync("/system/bin/reboot", nullptr)] *)
Definition reboot : syscall := exec_command_sync ["/system/bin/reboot"].

(** The entries every directory starts with. *)
Definition dots : list dirent :=
  [Dirent "." DT_DIR NULL; Dirent ".." DT_DIR NULL].

(** The core directory of the image, as image preparation leaves it. *)
Definition core_dir : DIR :=
  Stream (dots ++ [Dirent "post-fs-data.d" DT_DIR (Stream dots);
                   Dirent "service.d" DT_DIR (Stream dots);
                   Dirent "props" DT_DIR (Stream dots)]).

(** A phone with one module, new_tool, that adds /system/bin/tool_x and
    /system/init.rc to a system that has /system/bin/sh, /system/build.prop
    and a /system/vendor symlink. *)
Definition new_tool_bin : DIR := Stream (dots ++ [Dirent "tool_x" DT_REG NULL]).
Definition new_tool_system : DIR :=
  Stream (dots ++ [Dirent "bin" DT_DIR new_tool_bin; Dirent "init.rc" DT_REG NULL]).
Definition new_tool_dir : DIR :=
  Stream (dots ++ [Dirent "auto_mount" DT_REG NULL;
                   Dirent "system" DT_DIR new_tool_system]).
Definition mirror_bin : DIR := Stream (dots ++ [Dirent "sh" DT_REG NULL]).
Definition mirror_system : DIR :=
  Stream (dots ++ [Dirent "bin" DT_DIR mirror_bin; Dirent "build.prop" DT_REG NULL;
                   Dirent "vendor" DT_LNK NULL]).

Definition phone : platform := {|
  access_F_OK p :=
    bool_decide (p ∈ ["/data/adb/magisk.img"; "/data/adb";
                      "/sbin/.core/img/new_tool/auto_mount";
                      "/sbin/.core/img/new_tool/system";
                      "/system/bin"; "/system/bin/sh"; "/system/build.prop";
                      "/system/vendor"]);
  access_X_OK := access_X_OK bare;
  xlstat_S_ISLNK := xlstat_S_ISLNK bare;
  xopendir p :=
    if bool_decide (p = "/sbin/.core/img") then
      Stream (dots ++ [Dirent ".core" DT_DIR core_dir;
                       Dirent "lost+found" DT_DIR (Stream dots);
                       Dirent "new_tool" DT_DIR new_tool_dir])
    else if bool_decide (p = "/sbin/.core/img/.core") then core_dir
    else if bool_decide (p = "/sbin/.core/img/.core/post-fs-data.d")
            || bool_decide (p = "/sbin/.core/img/.core/service.d")
            || bool_decide (p = "/sbin/.core/img/.core/props")
            || bool_decide (p = "/sbin/.core/img/lost+found") then Stream dots
    else if bool_decide (p = "/sbin/.core/img/new_tool") then new_tool_dir
    else if bool_decide (p = "/sbin/.core/img/new_tool/system") then new_tool_system
    else if bool_decide (p = "/sbin/.core/img/new_tool/system/bin") then new_tool_bin
    else if bool_decide (p = "/sbin/.core/mirror/system") then mirror_system
    else if bool_decide (p = "/sbin/.core/mirror/system/bin") then mirror_bin
    else NULL;
  merge_img := merge_img bare;
  create_img := create_img bare;
  mount_image := mount_image bare;
  trim_img := trim_img bare;
  getprop := getprop bare;
  file_to_array := file_to_array bare;
  contains := strstr;
  start_log_daemon := true;
  get_magiskdb := false;
  validate_manager := 0;
|}.

(** The globals of a daemon on a device with a separate /vendor. *)
Definition boot_vendor : globals := Globals "" "" [] false true.

(** Two modules, a and b, that both provide system/lib/libx.so, a file the
    system has. *)
Definition libx_lib : DIR := Stream (dots ++ [Dirent "libx.so" DT_REG NULL]).
Definition libx_system : DIR := Stream (dots ++ [Dirent "lib" DT_DIR libx_lib]).
Definition libx_dir : DIR :=
  Stream (dots ++ [Dirent "auto_mount" DT_REG NULL; Dirent "system" DT_DIR libx_system]).

Definition rivals : platform := {|
  access_F_OK p :=
    bool_decide (p ∈ ["/data/adb/magisk.img"; "/data/adb";
                      "/sbin/.core/img/a/auto_mount"; "/sbin/.core/img/a/system";
                      "/sbin/.core/img/b/auto_mount"; "/sbin/.core/img/b/system";
                      "/system/lib"; "/system/lib/libx.so"]);
  access_X_OK := access_X_OK bare;
  xlstat_S_ISLNK := xlstat_S_ISLNK bare;
  xopendir p :=
    if bool_decide (p = "/sbin/.core/img") then
      Stream (dots ++ [Dirent ".core" DT_DIR core_dir; Dirent "a" DT_DIR libx_dir;
                       Dirent "b" DT_DIR libx_dir])
    else if bool_decide (p = "/sbin/.core/img/.core") then core_dir
    else if bool_decide (p = "/sbin/.core/img/.core/post-fs-data.d")
            || bool_decide (p = "/sbin/.core/img/.core/service.d")
            || bool_decide (p = "/sbin/.core/img/.core/props") then Stream dots
    else if bool_decide (p = "/sbin/.core/img/a")
            || bool_decide (p = "/sbin/.core/img/b") then libx_dir
    else if bool_decide (p = "/sbin/.core/img/a/system")
            || bool_decide (p = "/sbin/.core/img/b/system") then libx_system
    else if bool_decide (p = "/sbin/.core/img/a/system/lib")
            || bool_decide (p = "/sbin/.core/img/b/system/lib") then libx_lib
    else NULL;
  merge_img := merge_img bare;
  create_img := create_img bare;
  mount_image := mount_image bare;
  trim_img := trim_img bare;
  getprop := getprop bare;
  file_to_array := file_to_array bare;
  contains := strstr;
  start_log_daemon := true;
  get_magiskdb := false;
  validate_manager := 0;
|}.

(** ** Startup

    [startup], [unlock_blocks] and [install_apk] make calls that the other
    stages do not make, and [late_start] calls [install_apk].  A [call] is
    one of those calls, or a call of the other stages; [sio] is [io] over
    them. *)

Definition DT_BLK : Z := 6.
Definition O_CLOEXEC : Z := 524288.
Definition MNT_DETACH : Z := 2.
Definition mode_0750 : Z := 488.

Inductive call :=
  | later (c : syscall)
  | android_logging
  | xopen (pathname : string) (flags : Z)
  | xfdopendir (fd : Z)
  | openat (dirfd : Z) (pathname : string) (flags : Z)
  | ioctl_BLKROSET (fd : Z) (value : Z)
  | close (fd : Z)
  | umount2 (target : string) (flags : Z)
  | mount (source target filesystemtype : string) (mountflags : Z) (data : string)
  | mkdir (pathname : string) (mode : Z)
  | full_read (filename : string)
  | link_dir (src dest : Z)
  | setfilecon (path con : string)
  | xwrite (fd : Z) (data : string)
  | xsymlinkat (target : string) (newdirfd : Z) (linkpath : string)
  | cp_afc_from (source : option string) (destination : string)
  | xmkdirs (pathname : string) (mode : Z)
  | execl (path : string) (args : list string)
  | sleep (seconds : Z)
  | exec_command (err : Z) (argv : list string)
  | waitpid (pid : Z).

(** The constants of magisk.h and of the applet tables that [startup]
    uses besides those of [magisk_h]. *)
Record startup_h := {
  MAGISKRC : string;
  DATABIN : string;
  BBPATH : string;
  BLOCKDIR : string;
  SEPOL_FILE_DOMAIN : string;
  applet_names : list string;
  init_applet : list string;
}.

(** What one attempt of [install_apk] to run pm meets: the pid that
    [exec_command] returns and the descriptor it stores in [apk_res], the
    lines [fdgets] reads from it, and what the last call of [fdgets], the
    one that returns no more, leaves in the buffer. *)
Record pm_attempt := {
  pm_pid : Z;
  pm_fd : Z;
  pm_lines : list string;
  pm_last : string;
}.

(** The answers of the system to [startup], [unlock_blocks] and
    [install_apk]. *)
Record startup_sys := {
  dev_block_fd : Z;                 (* xopen("/dev/block", O_RDONLY | O_CLOEXEC) *)
  dev_block : DIR;                  (* xfdopendir(dev) *)
  openat_block : string -> Z;       (* openat(dev, name, O_RDONLY) *)
  file_content : string -> string;  (* what full_read reads *)
  root_fd : Z;                      (* xopen("/root", O_RDONLY | O_CLOEXEC) *)
  sbin_fd : Z;                      (* the first xopen("/sbin", ...) *)
  overlay_fd : Z;                   (* the second, on the tmpfs *)
  creat_result : string -> Z;       (* the descriptor creat returns *)
  root_dir : DIR;                   (* xfdopendir(root) *)
  lstat : string -> option bool;    (* None: -1; Some l: l = S_ISLNK(st.st_mode) *)
  pm_install : nat -> pm_attempt;   (* the attempts of install_apk, in order *)
}.

Definition sio (A : Type) : Type := globals -> A * globals * list call.

Global Instance sio_ret : MRet sio := fun A x g => (x, g, []).
Global Instance sio_bind : MBind sio := fun A B f m g =>
  let '(x, g1, t1) := m g in
  let '(y, g2, t2) := f x g1 in
  (y, g2, t1 ++ t2).

Definition value {A} (r : A * globals * list call) : A := r.1.1.
Definition state {A} (r : A * globals * list call) : globals := r.1.2.
Definition calls {A} (r : A * globals * list call) : list call := r.2.

Definition call_ (c : call) : sio unit := fun g => (tt, g, [c]).

(** A computation of the later stages, run during startup. *)
Definition run {A} (m : io A) : sio A := fun g =>
  let '(x, g1, t) := m g in (x, g1, later <$> t).

Definition swhen (b : bool) (m : sio unit) : sio unit := if b then m else mret tt.

Definition sfor_each {A} (f : A -> sio unit) : list A -> sio unit :=
  fix go l := match l with [] => mret tt | x :: l => f x ;; go l end.

Definition set_seperate_vendor (b : bool) : io unit :=
  modify (fun g => Globals (buf g) (buf2 g) (module_list g) (setup_done g) b).

(** *** sscanf(line, "%s %*s %s", buf, buf2) *)

(** [isspace] in the C locale. *)
Definition isspace (a : ascii) : bool :=
  bool_decide (a ∈ [" "; "009"; "010"; "011"; "012"; "013"]%char).

Fixpoint skip_space (s : string) : string :=
  match s with
  | String a r => if isspace a then skip_space r else s
  | EmptyString => EmptyString
  end.

(** The longest prefix without white space, and what follows it. *)
Fixpoint scan_word (s : string) : string * string :=
  match s with
  | String a r =>
      if isspace a then (EmptyString, s)
      else let '(w, rest) := scan_word r in (String a w, rest)
  | EmptyString => (EmptyString, EmptyString)
  end.

(** The directive %s: white space is skipped and a word is read; there is
    no match when the input ends before a word begins. *)
Definition scan_s (s : string) : option (string * string) :=
  let '(w, rest) := scan_word (skip_space s) in
  if bool_decide (w = "") then None else Some (w, rest).

(** The words are stored as they are matched: when the line ends early,
    the buffers that were not reached keep what they held. *)
Definition sscanf_mount (line : string) : io unit :=
  match scan_s line with
  | None => mret tt
  | Some (dev, rest) =>
      set_buf dev;;
      match scan_s rest with
      | None => mret tt
      | Some (_, rest) =>
          match scan_s rest with
          | None => mret tt
          | Some (fs, _) => set_buf2 fs
          end
      end
  end.

Section Startup.

Variable h : magisk_h.
Variable k : startup_h.
Variable sys : platform.
Variable ssys : startup_sys.

(** *** unlock_blocks *)

(** The source does not check the stream that [xfdopendir] returns, here
    and in [startup]; a null stream is read as one without entries. *)
Definition unlock_blocks : sio unit :=
  call_ (xopen "/dev/block" (Z.lor O_RDONLY O_CLOEXEC));;
  if dev_block_fd ssys <? 0 then mret tt
  else
    call_ (xfdopendir (dev_block_fd ssys));;
    sfor_each (fun entry =>
      swhen (bool_decide (d_type entry = DT_BLK))
        (call_ (openat (dev_block_fd ssys) (d_name entry) O_RDONLY);;
         if openat_block ssys (d_name entry) <? 0 then mret tt
         else
           call_ (ioctl_BLKROSET (openat_block ssys (d_name entry)) 0);;
           call_ (close (openat_block ssys (d_name entry)))))
      (entries_of (dev_block ssys));;
    call_ (close (dev_block_fd ssys)).

(** *** install_apk *)

(** One pass of the loop that reads the output of pm: the line is left in
    [buf], and [err] is raised when it holds "Error:". *)
Definition read_output (lines : list string) (last : string) : io bool :=
  err ← fold_each (fun line err =>
                     set_buf line;;
                     mret (err || strstr line "Error:"))
          lines false;
  set_buf last;;
  mret err.

(** [install_apk], with the attempts counted from [n].  The loop of the
    source has no bound; [fuel] bounds the attempts made here, and [false]
    is returned when it runs out before an attempt was clean. *)
Fixpoint install_apk_from (fuel : nat) (n : nat) (apk : string) : sio bool :=
  match fuel with
  | O => mret false
  | S fuel =>
      call_ (sleep 5);;
      call_ (exec_command 1 ["/system/bin/pm"; "install"; "-r"; apk]);;
      let a := pm_install ssys n in
      if bool_decide (pm_pid a = -1) then install_apk_from fuel (S n) apk
      else
        err ← run (read_output (pm_lines a) (pm_last a));
        call_ (waitpid (pm_pid a));;
        call_ (close (pm_fd a));;
        (* Keep trying until pm is started *)
        if (err : bool) then install_apk_from fuel (S n) apk
        else
          call_ (later (unlink apk));;
          mret true
  end.

Definition install_apk_fuel (fuel : nat) (apk : string) : sio bool :=
  call_ (setfilecon apk ("u:object_r:" +:+ SEPOL_FILE_DOMAIN k +:+ ":s0"));;
  install_apk_from fuel 0 apk.

(** *** late_start *)

(** [late_start], with [install_apk] allowed [fuel] attempts: [true] when
    it returns, [false] when the attempts run out inside [install_apk],
    which the source leaves only after a clean attempt.  What follows the
    call of [install_apk] is then not reached. *)
Definition late_start (fuel : nat) : sio bool :=
  (* ack *)
  call_ (later (write_int_close 0));;
  swhen (negb (access_F_OK sys (SECURE_DIR h)))
    (* It's safe to create the folder at this point if the system didn't create it *)
    (call_ (later (xmkdir (SECURE_DIR h) mode_0700)));;
  s ← run (gets setup_done);
  if negb s then
    (* The setup failed for some reason, reboot and try again *)
    call_ (later (exec_command_sync ["/system/bin/reboot"]));;
    mret true
  else
    run (auto_start_magiskhide h sys);;
    (* Run scripts after full patch, most reliable way to run scripts *)
    run (exec_common_script h sys "service");;
    (* Core only mode *)
    swhen (negb (access_F_OK sys (DISABLEFILE h)))
      (run (exec_module_script h sys "service"));;
    returned ←
      (if access_F_OK sys (MANAGERAPK h) then
         (* Install Magisk Manager if exists *)
         call_ (later (rename (MANAGERAPK h) "/data/magisk.apk"));;
         install_apk_fuel fuel "/data/magisk.apk"
       else
         (* Check whether we have a valid manager installed *)
         if get_magiskdb sys then
           if negb (bool_decide (validate_manager sys = 0)) then
             (* There is no manager installed, install the stub *)
             call_ (later (exec_command_sync
                             ["/sbin/magiskinit"; "-x"; "manager"; "/data/magisk.apk"]));;
             install_apk_fuel fuel "/data/magisk.apk"
           else mret true
         else mret true);
    if (returned : bool) then
      (* All boot stage done, cleanup *)
      run (set_module_list []);;
      mret true
    else mret false.

(** *** startup *)

(** The wrapper script written to /sbin/magisk. *)
Definition wrapper : string :=
  "#!/system/bin/sh" +:+ String "010" (
  "unset LD_LIBRARY_PATH" +:+ String "010" (
  "unset LD_PRELOAD" +:+ String "010" (
  "exec /sbin/magisk.bin " +:+ String "034" ("${0##*/}" +:+ String "034" (
  " " +:+ String "034" ("$@" +:+ String "034" (String "010" ""))))))).

Definition alt_bin : list string :=
  ["/cache/data_bin"; "/data/magisk";
   "/data/data/com.topjohnwu.magisk/install";
   "/data/user_de/0/com.topjohnwu.magisk/install"].

(** The loop over [alt_bin]: the path found, if any.  [bin_path] is still
    null when the body copies from it. *)
Fixpoint find_bin (paths : list string) (bin_path : option string)
  : sio (option string) :=
  match paths with
  | [] => mret bin_path
  | path :: paths =>
      match lstat ssys path with
      | Some false =>
          call_ (later (rm_rf (DATABIN k)));;
          call_ (cp_afc_from bin_path (DATABIN k));;
          mret (Some path)
      | _ => find_bin paths bin_path
      end
  end.

Definition move_binaries : sio unit :=
  bin_path ← find_bin alt_bin None;
  match bin_path with
  | Some bin_path =>
      call_ (later (rm_rf (DATABIN k)));;
      call_ (cp_afc_from (Some bin_path) (DATABIN k));;
      call_ (later (rm_rf bin_path))
  | None => mret tt
  end.

(** The body of the loop over the lines of /proc/mounts. *)
Definition mount_mirror (line : string) (system_as_root : bool) : io bool :=
  if contains sys line " /system_root " then
    bind_mount "/system_root/system" (MIRRDIR h +:+ "/system");;
    mret true
  else if negb system_as_root && contains sys line " /system " then
    sscanf_mount line;;
    dev ← gets buf; fs ← gets buf2;
    emit (xmount (Some dev) (MIRRDIR h +:+ "/system") (Some fs) MS_RDONLY);;
    mret system_as_root
  else if contains sys line " /vendor " then
    set_seperate_vendor true;;
    sscanf_mount line;;
    emit (xmkdir (MIRRDIR h +:+ "/vendor") mode_0755);;
    dev ← gets buf; fs ← gets buf2;
    emit (xmount (Some dev) (MIRRDIR h +:+ "/vendor") (Some fs) MS_RDONLY);;
    mret system_as_root
  else mret system_as_root.

Definition mount_mirrors : io unit :=
  fold_each mount_mirror (file_to_array sys "/proc/mounts") false;;
  s ← gets seperate_vendor;
  when (negb s)
    (emit (xsymlink (MIRRDIR h +:+ "/system/vendor") (MIRRDIR h +:+ "/vendor"))).

(** [creat], [xwrite] and [close] of a file written in one piece. *)
Definition write_file (path : string) (data : string) : sio unit :=
  call_ (later (creat path mode_0755));;
  call_ (xwrite (creat_result ssys path) data);;
  call_ (close (creat_result ssys path)).

(** [unblock_boot_process] ends the thread: nothing of the caller runs
    after it. *)
Definition startup : sio unit :=
  call_ android_logging;;
  if negb (check_data sys) then run (unblock_boot_process h)
  else if negb (access_F_OK sys (SECURE_DIR h)) then
    (* If the folder is not automatically created by the system,
       do NOT proceed further. *)
    run (unblock_boot_process h)
  else
    (* No uninstaller or core-only mode *)
    swhen (negb (access_F_OK sys (DISABLEFILE h)))
      (run (simple_mount h sys "/system");;
       run (simple_mount h sys "/vendor"));;
    (* Unlock all blocks for rw *)
    unlock_blocks;;
    call_ (later (xmount None "/" None MS_REMOUNT));;
    (* Remove some traits of Magisk *)
    call_ (later (unlink (MAGISKRC k)));;
    (* GSIs will have to override /sbin/adbd with /system/bin/adbd *)
    swhen (access_F_OK sys "/sbin/adbd" && access_F_OK sys "/system/bin/adbd")
      (call_ (umount2 "/sbin/adbd" MNT_DETACH);;
       call_ (mount "/system/bin/adbd" "/sbin/adbd" "none" MS_BIND ""));;
    (* Create hardlink mirror of /sbin to /root *)
    call_ (mkdir "/root" mode_0750);;
    call_ (later (clone_attr "/sbin" "/root"));;
    call_ (full_read "/sbin/magisk");;
    call_ (later (unlink "/sbin/magisk"));;
    call_ (full_read "/sbin/magiskinit");;
    call_ (later (unlink "/sbin/magiskinit"));;
    call_ (xopen "/root" (Z.lor O_RDONLY O_CLOEXEC));;
    call_ (xopen "/sbin" (Z.lor O_RDONLY O_CLOEXEC));;
    call_ (link_dir (sbin_fd ssys) (root_fd ssys));;
    call_ (close (sbin_fd ssys));;
    (* Mount the /sbin tmpfs overlay *)
    call_ (later (xmount (Some "tmpfs") "/sbin" (Some "tmpfs") 0));;
    call_ (later (chmod "/sbin" mode_0755));;
    call_ (setfilecon "/sbin" "u:object_r:rootfs:s0");;
    call_ (xopen "/sbin" (Z.lor O_RDONLY O_CLOEXEC));;
    (* Create applet symlinks *)
    sfor_each (fun applet =>
      run (set_buf ("/sbin/" +:+ applet));;
      call_ (later (xsymlink "/sbin/magisk" ("/sbin/" +:+ applet))))
      (applet_names k);;
    (* Setup binary and wrapper *)
    write_file "/sbin/magisk.bin" (file_content ssys "/sbin/magisk");;
    call_ (later (unlink "/sbin/magisk"));;
    write_file "/sbin/magisk" wrapper;;
    call_ (setfilecon "/sbin/magisk.bin" ("u:object_r:" +:+ SEPOL_FILE_DOMAIN k +:+ ":s0"));;
    call_ (setfilecon "/sbin/magisk" ("u:object_r:" +:+ SEPOL_FILE_DOMAIN k +:+ ":s0"));;
    (* Setup magiskinit symlinks *)
    write_file "/sbin/magiskinit" (file_content ssys "/sbin/magiskinit");;
    call_ (setfilecon "/sbin/magiskinit" ("u:object_r:" +:+ SEPOL_FILE_DOMAIN k +:+ ":s0"));;
    sfor_each (fun applet =>
      run (set_buf ("/sbin/" +:+ applet));;
      call_ (later (xsymlink "/sbin/magiskinit" ("/sbin/" +:+ applet))))
      (init_applet k);;
    (* Create symlinks pointing back to /root *)
    call_ (xfdopendir (root_fd ssys));;
    sfor_each (fun entry =>
      swhen (negb (is_dot entry))
        (run (set_buf ("/root/" +:+ d_name entry));;
         call_ (xsymlinkat ("/root/" +:+ d_name entry) (overlay_fd ssys) (d_name entry))))
      (entries_of (root_dir ssys));;
    call_ (close (overlay_fd ssys));;
    call_ (close (root_fd ssys));;
    (* Alternative binaries paths *)
    move_binaries;;
    (* Remove legacy stuffs *)
    call_ (later (rm_rf "/data/magisk"));;
    call_ (later (unlink "/data/magisk.img"));;
    call_ (later (unlink "/data/magisk_debug.log"));;
    (* Create directories in tmpfs overlay *)
    call_ (xmkdirs (MIRRDIR h +:+ "/system") mode_0755);;
    call_ (later (xmkdir (MIRRDIR h +:+ "/bin") mode_0755));;
    call_ (later (xmkdir (BBPATH k) mode_0755));;
    call_ (later (xmkdir (MOUNTPOINT h) mode_0755));;
    call_ (later (xmkdir (BLOCKDIR k) mode_0755));;
    run mount_mirrors;;
    call_ (xmkdirs (DATABIN k) mode_0755);;
    run (bind_mount (DATABIN k) (MIRRDIR h +:+ "/bin"));;
    swhen (access_X_OK sys (MIRRDIR h +:+ "/bin/busybox"))
      (call_ (later (exec_command_sync
                       [MIRRDIR h +:+ "/bin/busybox"; "--install"; "-s"; BBPATH k]));;
       call_ (later (xsymlink (MIRRDIR h +:+ "/bin/busybox") (BBPATH k +:+ "/busybox"))));;
    (* Start post-fs-data mode *)
    call_ (execl "/sbin/magisk.bin" ["magisk"; "--post-fs-data"]).

End Startup.

(** ** Further concrete systems *)

(** A system tree with a vendor directory from module a. *)
Definition vendor_node : node_entry :=
  Node "a" "vendor" DT_DIR IS_INTER owner [Node "a" "lib.so" DT_REG IS_MODULE owner []].
Definition vendor_tree : node_entry :=
  Node "" "system" 0 IS_INTER nullptr [Node "a" "bin" DT_DIR IS_INTER owner []; vendor_node].

(** A device where the module debloat replaces /system/app as a whole. *)
Definition replacing : platform := {|
  access_F_OK p :=
    bool_decide (p ∈ ["/system/app"; "/sbin/.core/img/debloat/system/app/.replace"]);
  access_X_OK := access_X_OK bare;
  xlstat_S_ISLNK := xlstat_S_ISLNK bare;
  xopendir := xopendir bare;
  merge_img := merge_img bare;
  create_img := create_img bare;
  mount_image := mount_image bare;
  trim_img := trim_img bare;
  getprop := getprop bare;
  file_to_array := file_to_array bare;
  contains := strstr;
  start_log_daemon := true;
  get_magiskdb := false;
  validate_manager := 0;
|}.

(** The entry of the module for the directory it replaces. *)
Definition app_entry : dirent :=
  Dirent "app" DT_DIR (Stream (dots ++ [Dirent "Keep.apk" DT_REG NULL])).

(** A device whose /system/etc is a symbolic link, and a module that
    provides system/etc/hosts. *)
Definition hosts_etc : DIR := Stream (dots ++ [Dirent "hosts" DT_REG NULL]).
Definition hosts_system : DIR := Stream (dots ++ [Dirent "etc" DT_DIR hosts_etc]).

Definition linked : platform := {|
  access_F_OK p :=
    bool_decide (p ∈ ["/sbin/.core/img/hosts/auto_mount"; "/sbin/.core/img/hosts/system";
                      "/system/etc"; "/system/etc/hosts"]);
  access_X_OK := access_X_OK bare;
  xlstat_S_ISLNK p := bool_decide (p = "/system/etc");
  xopendir p :=
    if bool_decide (p = "/sbin/.core/img/hosts/system") then hosts_system
    else if bool_decide (p = "/sbin/.core/img/hosts/system/etc") then hosts_etc
    else NULL;
  merge_img := merge_img bare;
  create_img := create_img bare;
  mount_image := mount_image bare;
  trim_img := trim_img bare;
  getprop := getprop bare;
  file_to_array := file_to_array bare;
  contains := strstr;
  start_log_daemon := true;
  get_magiskdb := false;
  validate_manager := 0;
|}.

(** A device on which the manager APK was shipped. *)
Definition shipped : platform := {|
  access_F_OK p := bool_decide (p ∈ ["/data/adb"; "/data/adb/magisk/magisk.apk"]);
  access_X_OK := access_X_OK bare;
  xlstat_S_ISLNK := xlstat_S_ISLNK bare;
  xopendir := xopendir bare;
  merge_img := merge_img bare;
  create_img := create_img bare;
  mount_image := mount_image bare;
  trim_img := trim_img bare;
  getprop := getprop bare;
  file_to_array := file_to_array bare;
  contains := strstr;
  start_log_daemon := true;
  get_magiskdb := false;
  validate_manager := 0;
|}.

(** Constants for [startup_h], after the layout of an installation; the
    applet tables are cut short. *)
Definition magisk_startup : startup_h := {|
  MAGISKRC := "/init.magisk.rc";
  DATABIN := "/data/adb/magisk";
  BBPATH := "/sbin/.core/busybox";
  BLOCKDIR := "/sbin/.core/block";
  SEPOL_FILE_DOMAIN := "magisk_file";
  applet_names := ["magisk"; "su"; "resetprop"; "magiskhide"; "imgtool"];
  init_applet := ["magiskpolicy"; "supolicy"];
|}.

(** A package manager that is not up at the first attempt, reports an
    error at the second and installs at the third. *)
Definition slow_pm (n : nat) : pm_attempt :=
  match n with
  | 0%nat => Build_pm_attempt (-1) (-1) [] ""
  | 1%nat => Build_pm_attempt 312 7 ["Error: Could not access the Package Manager."] ""
  | _ => Build_pm_attempt 340 7 ["Success"] ""
  end.

(** A device with two block devices, one of which does not open, and a
    stale /data/magisk directory. *)
Definition early : startup_sys := {|
  dev_block_fd := 5;
  dev_block := Stream (dots ++ [Dirent "sda1" DT_BLK NULL; Dirent "by-name" DT_DIR NULL;
                                Dirent "loop0" DT_BLK NULL]);
  openat_block name := if bool_decide (name = "sda1") then 6 else -1;
  file_content name := if bool_decide (name = "/sbin/magisk") then "ELF magisk"
                       else "ELF magiskinit";
  root_fd := 5;
  sbin_fd := 6;
  overlay_fd := 6;
  creat_result _ := 7;
  root_dir := Stream (dots ++ [Dirent "adbd" DT_REG NULL]);
  lstat path := if bool_decide (path = "/data/magisk") then Some false else None;
  pm_install := slow_pm;
|}.

(** A device whose /proc/mounts lists /system, /vendor and /data. *)
Definition partitioned : platform := {|
  access_F_OK := access_F_OK bare;
  access_X_OK := access_X_OK bare;
  xlstat_S_ISLNK := xlstat_S_ISLNK bare;
  xopendir := xopendir bare;
  merge_img := merge_img bare;
  create_img := create_img bare;
  mount_image := mount_image bare;
  trim_img := trim_img bare;
  getprop := getprop bare;
  file_to_array name :=
    if bool_decide (name = "/proc/mounts") then
      ["rootfs / rootfs ro 0 0";
       "/dev/block/sda1 /system ext4 ro 0 0";
       "/dev/block/sda2 /vendor ext4 ro 0 0";
       "/dev/block/sda3 /data ext4 rw 0 0"]
    else [];
  contains := strstr;
  start_log_daemon := true;
  get_magiskdb := false;
  validate_manager := 0;
|}.


(** ** Vocabulary of the specification *)

(** The strongest flag of a status set, as a rank: MODULE, SKEL, INTER,
    DUMMY, from highest to lowest, and nothing below them. *)
Definition precedence (s : Z) : nat :=
  if Z.testbit s 3 then 4
  else if Z.testbit s 2 then 3
  else if Z.testbit s 1 then 2
  else if Z.testbit s 0 then 1
  else 0.

(** The placeholder [extract] leaves behind: no status, no type, no
    children. *)
Definition placeholder (nm : string) (p : backref) : node_entry :=
  Node "" nm 0 0 p [].

(** The node a call of [insert] hands back: the one in the slot it names. *)
Definition returned (r : node_entry * nat) : option node_entry :=
  children r.1 !! r.2.

(** [keeps f m]: running [m] does not change the part [f] of the globals. *)
Definition keeps {A B} (f : globals -> B) (m : io A) : Prop :=
  forall g, f (final (m g)) = f g.

(** [emits P m]: every call recorded by [m] satisfies [P]. *)
Definition emits {A} (P : syscall -> Prop) (m : io A) : Prop :=
  forall g, Forall P (trace (m g)).

(** [yields Q m]: whatever the globals, the value [m] returns satisfies
    [Q]. *)
Definition yields {A} (Q : A -> Prop) (m : io A) : Prop :=
  forall g, Q (result (m g)).

(** [f] reads nothing of the globals but the two flags. *)
Definition reads_flags_only {B} (f : globals -> B) : Prop :=
  forall b b2 l d v b' b2' l',
    f (Globals b b2 l d v) = f (Globals b' b2' l' d v).

(** The directories of the image that are never modules. *)
Definition special_dir (nm : string) : bool :=
  bool_decide (nm ∈ ["."; ".."; ".core"; "lost+found"]).

(** A candidate module directory: a directory entry of MOUNTPOINT that is
    not one of the special ones. *)
Definition candidate (e : dirent) : bool :=
  bool_decide (d_type e = DT_DIR) && negb (special_dir (d_name e)).

(** The marker file [marker] exists in the directory of the entry. *)
Definition marked (h : magisk_h) (sys : platform) (e : dirent) (marker : string) : bool :=
  access_F_OK sys ((MOUNTPOINT h +:+ "/" +:+ d_name e) +:+ marker).

(** What enumeration does to the files of an entry: a candidate marked
    for removal is deleted recursively, any other candidate loses its
    update marker, and nothing else is touched. *)
Definition cleanup (h : magisk_h) (sys : platform) (e : dirent) : list syscall :=
  if candidate e then
    if marked h sys e "/remove" then [rm_rf (MOUNTPOINT h +:+ "/" +:+ d_name e)]
    else [unlink ((MOUNTPOINT h +:+ "/" +:+ d_name e) +:+ "/update")]
  else [].

(** The candidates that make it to the module list. *)
Definition active (h : magisk_h) (sys : platform) (e : dirent) : bool :=
  candidate e && negb (marked h sys e "/remove") && negb (marked h sys e "/disable").

(** The entries the simple mounter comes to from the stream [dir] of the
    overlay directory for [path], each with its target path: the entries of
    [dir] other than "." and "..", and what it comes to in the same way from
    a directory among them whose target exists. *)
Inductive reaches (sys : platform) : DIR -> string -> dirent -> string -> Prop :=
  | reaches_entry entries path e :
      e ∈ entries -> is_dot e = false ->
      reaches sys (Stream entries) path e (path +:+ "/" +:+ d_name e)
  | reaches_below entries path d e target :
      d ∈ entries -> is_dot d = false -> d_type d = DT_DIR ->
      access_F_OK sys (path +:+ "/" +:+ d_name d) = true ->
      reaches sys (d_open d) (path +:+ "/" +:+ d_name d) e target ->
      reaches sys (Stream entries) path e target.

(** The two calls of the simple mounter for the file at [target]: the
    attributes of the target are cloned onto the overlay file, which is
    then bind-mounted over the target. *)
Definition mount_over (h : magisk_h) (target : string) : list syscall :=
  [clone_attr target (SIMPLEMOUNT h +:+ target);
   xmount (Some (SIMPLEMOUNT h +:+ target)) target None MS_BIND].

(** A trace made of nothing but the calls for regular files that the
    simple mounter comes to and whose targets exist. *)
Definition mounts_files_of (h : magisk_h) (sys : platform) (dir : DIR)
    (path : string) (t : list syscall) : Prop :=
  exists targets,
    t = flat_map (mount_over h) targets
    /\ Forall (fun target =>
                 access_F_OK sys target = true
                 /\ exists e, reaches sys dir path e target /\ d_type e = DT_REG)
              targets.

(** The clone condition as [create_module_tree] tests it, for the entry
    [e] of a module directory whose target directory is [full_path]: the
    entry is a symlink, or its target does not exist in the live system, or
    the mode that [xstat] reports for its target is that of a symlink, the
    entry named vendor at the tree root excepted. *)
Definition meets_clone_condition (sys : platform) (at_root : bool)
    (full_path : string) (e : dirent) : bool :=
  bool_decide (d_type e = DT_LNK)
  || negb (access_F_OK sys (full_path +:+ "/" +:+ d_name e))
  || (xstat_S_ISLNK sys (full_path +:+ "/" +:+ d_name e)
      && negb (at_root && bool_decide (d_name e = "vendor"))).

(** The clone condition in the words of the specification: the third
    case is that the target is itself a symlink. *)
Definition spec_clone_condition (sys : platform) (at_root : bool)
    (full_path : string) (e : dirent) : bool :=
  bool_decide (d_type e = DT_LNK)
  || negb (access_F_OK sys (full_path +:+ "/" +:+ d_name e))
  || (xlstat_S_ISLNK sys (full_path +:+ "/" +:+ d_name e)
      && negb (at_root && bool_decide (d_name e = "vendor"))).

(** A directory entry name has no '/' in it. *)
Fixpoint slash_free (s : string) : bool :=
  match s with
  | EmptyString => true
  | String a s => negb (bool_decide (a = "/"%char)) && slash_free s
  end.

(** The path [q] is [p] or lies below it. *)
Definition at_or_below (p q : string) : Prop :=
  q = p \/ exists rest, q = p +:+ "/" +:+ rest.

(** What may follow a path in a path at or below it. *)
Definition path_tail (r : string) : Prop := r = "" \/ exists rest, r = "/" +:+ rest.

(** The target of a mount, bind or tmpfs. *)
Definition mount_target (c : syscall) : option string :=
  match c with
  | xmount _ target _ _ => Some target
  | _ => None
  end.

Definition mount_targets (t : list syscall) : list string := omap mount_target t.

(** A finished tree: names are directory entry names, no two siblings
    share one, and every child points back at its owner. *)
Fixpoint finished (n : node_entry) : bool :=
  slash_free (name n)
  && bool_decide (NoDup (name <$> children n))
  && forallb (fun c => bool_decide (parent c = owner) && finished c) (children n).

(** The names a directory stream delivers, and those of the streams of its
    entries, are directory entry names. *)
Fixpoint dir_names_ok (dir : DIR) : bool :=
  match dir with
  | NULL => true
  | Stream entries =>
      forallb (fun e => slash_free (d_name e) && dir_names_ok (d_open e)) entries
  end.

(** Every directory of the system is like that. *)
Definition entry_names_ok (sys : platform) : Prop :=
  forall path, dir_names_ok (xopendir sys path) = true.

(** [n'] is a finished tree that stands where [n] stood: same name, same
    parent link. *)
Definition same_node (n n' : node_entry) : Prop :=
  finished n' = true /\ name n' = name n /\ parent n' = parent n.

(** The tree [post_fs_data] builds from the modules of the list. *)
Definition composed (h : magisk_h) (sys : platform) (modules : list string)
    (g : globals) : node_entry :=
  (result (load_modules h sys modules (new_node "system" IS_INTER 0) false g)).1.






(** Induction over a directory stream and the streams of its entries. *)
Fixpoint DIR_nested_ind (P : DIR -> Prop) (HNULL : P NULL)
    (HStream : forall entries, Forall (fun e => P (d_open e)) entries -> P (Stream entries))
    (dir : DIR) {struct dir} : P dir :=
  match dir with
  | NULL => HNULL
  | Stream entries =>
      HStream entries
        ((fix go (es : list dirent) : Forall (fun e => P (d_open e)) es :=
            match es with
            | [] => List.Forall_nil _
            | Dirent n t d :: es' =>
                List.Forall_cons _ (Dirent n t d) es' (DIR_nested_ind P HNULL HStream d) (go es')
            end) entries)
  end.

(** Induction over a node and its subtrees. *)
Fixpoint node_entry_nested_ind (P : node_entry -> Prop)
    (HNode : forall m n t s p cs, Forall P cs -> P (Node m n t s p cs))
    (node : node_entry) {struct node} : P node :=
  match node with
  | Node m n t s p cs =>
      HNode m n t s p cs
        ((fix go (l : list node_entry) : Forall P l :=
            match l with
            | [] => List.Forall_nil _
            | c :: l' => List.Forall_cons _ c l' (node_entry_nested_ind P HNode c) (go l')
            end) cs)
  end.

(** The streams of the entries of a directory are those of the paths of
    the entries: the descent of the walks along [d_open] is then the
    descent of the source, which opens every directory by its path. *)
Definition coherent (sys : platform) : Prop :=
  forall path entries e,
    xopendir sys path = Stream entries -> e ∈ entries -> is_dot e = false ->
    xopendir sys (path +:+ "/" +:+ d_name e) = d_open e.

(** ** Vocabulary of the further properties *)

(** A node and everything below it. *)
Fixpoint nodes (n : node_entry) : list node_entry :=
  n :: flat_map nodes (children n).

(** The statuses composition hands out: a directory that is walked is
    INTER, with SKEL once an entry below it met the clone condition; a node
    that is not walked is MODULE or unmarked, and has nothing below it. *)
Definition walked (n : node_entry) : bool :=
  bool_decide (status n = IS_INTER) || bool_decide (status n = Z.lor IS_INTER IS_SKEL).

Definition leaf (n : node_entry) : bool :=
  (bool_decide (status n = IS_MODULE) || bool_decide (status n = 0))
  && match children n with [] => true | _ :: _ => false end.

Fixpoint well_marked (n : node_entry) : bool :=
  (walked n || leaf n) && forallb well_marked (children n).

(** The names of the children after one more entry of a module directory
    has been walked: a name that is new goes to the end. *)
Definition add_name (names : list string) (e : dirent) : list string :=
  if is_dot e || bool_decide (d_name e ∈ names) then names else names ++ [d_name e].

(** A module that takes part in magic mount: it has the auto_mount marker
    and a system directory. *)
Definition mountable (h : magisk_h) (sys : platform) (m : string) : bool :=
  access_F_OK sys ((MOUNTPOINT h +:+ "/" +:+ m) +:+ "/auto_mount")
  && access_F_OK sys ((MOUNTPOINT h +:+ "/" +:+ m) +:+ "/system").

(** What loading does to the system for one module: its system.prop is
    loaded, and the vendor directory inside its system directory is linked
    beside it. *)
Definition module_setup (h : magisk_h) (sys : platform) (m : string) : list syscall :=
  let dir := MOUNTPOINT h +:+ "/" +:+ m in
  (if access_F_OK sys (dir +:+ "/system.prop")
   then [load_prop_file (dir +:+ "/system.prop")] else [])
  ++ (if mountable h sys m && access_F_OK sys (dir +:+ "/system/vendor")
      then [unlink (dir +:+ "/vendor");
            xsymlink (dir +:+ "/system/vendor") (dir +:+ "/vendor")]
      else []).

(** The dummy node the skeleton gets for an entry of the mirror. *)
Definition dummy_of (e : dirent) : node_entry :=
  Node "" (d_name e) (d_type e) IS_DUMMY owner [].

(** How a skeleton exposes one child of type [t] at [target] from the file
    [from]: a directory or a regular file is created empty and the file is
    bind-mounted over it; a symlink is copied; anything else is mounted over
    a target that was not created. *)
Definition expose (from target : string) (t : Z) : list syscall :=
  (if bool_decide (t = DT_DIR) then [xmkdir target mode_0755]
   else if bool_decide (t = DT_REG) then [creat target mode_0644]
   else [])
  ++ [if bool_decide (t = DT_LNK) then cp_afc from target
      else xmount (Some from) target None MS_BIND].

(** The directory of the common scripts of a stage, and the scripts in it
    that are run: the regular files that may be executed, in the order of
    the directory. *)
Definition stage_dir (h : magisk_h) (stage : string) : string :=
  COREDIR h +:+ "/" +:+ stage +:+ ".d".

Definition common_script (h : magisk_h) (stage : string) (e : dirent) : string :=
  COREDIR h +:+ "/" +:+ stage +:+ ".d/" +:+ d_name e.

Definition common_scripts (h : magisk_h) (sys : platform) (stage : string)
  : list string :=
  common_script h stage
    <$> filter (fun e => d_type e = DT_REG
                         /\ access_X_OK sys (common_script h stage e) = true)
          (entries_of (xopendir sys (stage_dir h stage))).

(** The scripts of a stage that are run for the modules of a list: those
    that exist in a module without a disable marker. *)
Definition module_scripts (h : magisk_h) (sys : platform) (stage : string)
    (modules : list string) : list string :=
  (fun m => MOUNTPOINT h +:+ "/" +:+ m +:+ "/" +:+ stage +:+ ".sh")
    <$> filter (fun m =>
                  access_F_OK sys (MOUNTPOINT h +:+ "/" +:+ m +:+ "/" +:+ stage +:+ ".sh")
                  = true
                  /\ access_F_OK sys (MOUNTPOINT h +:+ "/" +:+ m +:+ "/disable") = false)
          modules.

(** A merge of the image at [img] into the main image succeeds. *)
Definition merges (h : magisk_h) (sys : platform) (img : string) : bool :=
  bool_decide (merge_img sys img (MAINIMG h) = 0).

(** Image preparation gets as far as the mounted image: the merges
    succeed, the main image exists or is created, and it mounts. *)
Definition image_mounted (h : magisk_h) (sys : platform) : bool :=
  forallb (merges h sys) alt_img
  && (access_F_OK sys (MAINIMG h) || bool_decide (create_img sys (MAINIMG h) 64 = 0))
  && bool_decide (is_Some (mount_image sys (MAINIMG h) (MOUNTPOINT h))).

(** The calls that handle the image itself. *)
Definition image_call (c : syscall) : bool :=
  match c with
  | merge_img_call _ _ | create_img_call _ _ | mount_image_call _ _ => true
  | _ => false
  end.

(** The modules image preparation enumerates. *)
Definition enumerated (h : magisk_h) (sys : platform) : list string :=
  d_name <$> filter (fun e => active h sys e = true)
               (entries_of (xopendir sys (MOUNTPOINT h))).

(** The calls of [auto_start_magiskhide]: the log daemon is started and
    with it, unless the property says 0, MagiskHide. *)
Definition hide_calls (h : magisk_h) (sys : platform) : list syscall :=
  start_log_daemon_call
  :: (if start_log_daemon sys
         && negb (bool_decide (getprop sys (MAGISKHIDE_PROP h) = "0"))
      then [launch_magiskhide_thread] else []).

(** The calls of [unblock_boot_process]. *)
Definition unblock_calls (h : magisk_h) : list syscall :=
  [xopen_close (UNBLOCKFILE h) (Z.lor O_RDONLY O_CREAT) 0; pthread_exit].

(** The calls of [core_only]: the hosts file is mounted when there is
    one, MagiskHide is started and the boot process is unblocked. *)
Definition core_only_calls (h : magisk_h) (sys : platform) : list syscall :=
  (if access_F_OK sys (HOSTSFILE h)
   then [xmount (Some (HOSTSFILE h)) "/system/etc/hosts" None MS_BIND] else [])
  ++ hide_calls h sys ++ unblock_calls h.

(** The globals once post-fs-data has begun. *)
Definition started (g : globals) : globals :=
  Globals (buf g) (buf2 g) (module_list g) true (seperate_vendor g).

(** The calls that magic mount is made of. *)
Definition mount_call (c : syscall) : bool :=
  match c with
  | xmount _ _ _ _ | xmkdir _ _ | creat _ _ | cp_afc _ _ | getattr _ | setattr _ => true
  | _ => false
  end.

(** [m] ends with the calls [tail], and every call before them satisfies
    [P]. *)
Definition ends_in {A} (P : syscall -> Prop) (tail : list syscall) (m : io A) : Prop :=
  forall g, exists before, trace (m g) = before ++ tail /\ Forall P before.

(** What post-fs-data does once image preparation has returned. *)
Definition after_image (h : magisk_h) (sys : platform) (failed : Z) : io unit :=
  if negb (bool_decide (failed = 0)) then core_only h sys
  else
    emit restorecon;;
    emit (chmod (SECURE_DIR h) mode_0700);;
    exec_common_script h sys "post-fs-data";;
    if access_F_OK sys (DISABLEFILE h) then core_only h sys
    else
      exec_module_script h sys "post-fs-data";;
      modules ← gets module_list;
      '(sys_root, has_modules) ←
        load_modules h sys modules (new_node "system" IS_INTER 0) false;
      when has_modules (mount_modules h sys sys_root);;
      core_only h sys.

(** A call mounts, if it mounts at all, on a target that satisfies [Q]. *)
Definition mounts_on (Q : string -> Prop) (c : syscall) : Prop :=
  match mount_target c with Some t => Q t | None => True end.

(** The places post-fs-data mounts on: the root, and what is at or below
    /system and /vendor. *)
Definition system_place (t : string) : Prop :=
  t = "/" \/ at_or_below "/system" t \/ at_or_below "/vendor" t.

(** A node carries one of the marks the skeleton looks for. *)
Definition has_mark (n : node_entry) : bool :=
  has IS_MODULE n || has (Z.lor IS_SKEL IS_INTER) n || has IS_DUMMY n.

Fixpoint all_marked (n : node_entry) : bool :=
  has_mark n && forallb all_marked (children n).

(** Below the node every child carries a mark, the child named vendor of
    a root excepted: that is where [extract] leaves its placeholder. *)
Fixpoint no_stale (n : node_entry) : bool :=
  forallb (fun c => (has_mark c || is_root n && bool_decide (name c = "vendor"))
                    && no_stale c)
    (children n).

(** The entries of a directory, and of the directories below it, are
    directories, regular files and symlinks. *)
Definition plain_type (t : Z) : bool :=
  bool_decide (t = DT_DIR) || bool_decide (t = DT_REG) || bool_decide (t = DT_LNK).

Fixpoint plain_dir (dir : DIR) : bool :=
  match dir with
  | NULL => true
  | Stream entries =>
      forallb (fun e => (is_dot e || plain_type (d_type e)) && plain_dir (d_open e)) entries
  end.

Definition plain (sys : platform) : Prop :=
  forall path, plain_dir (xopendir sys path) = true.

(** A mount or a copy shows, at its target, the file a module has for
    that very path or the file the mirror has for it; a mount may also be
    the tmpfs of a skeleton. *)
Definition same_path (h : magisk_h) (source target : string) : Prop :=
  source = MIRRDIR h +:+ target
  \/ exists m, source = MOUNTPOINT h +:+ "/" +:+ m +:+ target.

Definition overlays (h : magisk_h) (c : syscall) : Prop :=
  match c with
  | xmount source target fs flags =>
      (source = Some "tmpfs" /\ fs = Some "tmpfs" /\ flags = 0)
      \/ (fs = None /\ flags = MS_BIND
          /\ exists from, source = Some from /\ same_path h from target)
  | cp_afc source target => same_path h source target
  | _ => True
  end.


(** A line of /proc/mounts names at most one of the three mount points
    that [startup] looks for. *)
Definition one_mount_point (sys : platform) (line : string) : bool :=
  negb (contains sys line " /system_root " && contains sys line " /system ")
  && negb (contains sys line " /system_root " && contains sys line " /vendor ")
  && negb (contains sys line " /system " && contains sys line " /vendor ").

(** A word of a line of /proc/mounts: not empty, no white space in it. *)
Fixpoint spaceless (s : string) : bool :=
  match s with
  | String a r => negb (isspace a) && spaceless r
  | EmptyString => true
  end.

Definition word (s : string) : bool := negb (bool_decide (s = "")) && spaceless s.

(** The calls of one attempt of [install_apk]. *)
Definition attempt_calls (apk : string) (a : pm_attempt) : list call :=
  [sleep 5; exec_command 1 ["/system/bin/pm"; "install"; "-r"; apk]]
  ++ (if bool_decide (pm_pid a = -1) then []
      else [waitpid (pm_pid a); close (pm_fd a)]).

(** An attempt after which [install_apk] stops: pm was started and no
    line of its output holds "Error:". *)
Definition clean (a : pm_attempt) : bool :=
  negb (bool_decide (pm_pid a = -1))
  && negb (existsb (fun line => strstr line "Error:") (pm_lines a)).

(** The attempt [n] of pm is the first clean one. *)
Definition first_clean (ssys : startup_sys) (n : nat) : Prop :=
  (forall i, (i < n)%nat -> clean (pm_install ssys i) = false)
  /\ clean (pm_install ssys n) = true.

(** The calls of an [install_apk] that returns after the attempts 0 to
    [n]. *)
Definition install_calls (k : startup_h) (ssys : startup_sys) (n : nat) (apk : string)
  : list call :=
  setfilecon apk ("u:object_r:" +:+ SEPOL_FILE_DOMAIN k +:+ ":s0")
  :: flat_map (attempt_calls apk) (pm_install ssys <$> seq 0 (S n))
  ++ [later (unlink apk)].

(** late_start calls [install_apk]: the manager APK was shipped, or the
    database opens and no valid manager is found. *)
Definition installs (h : magisk_h) (sys : platform) : bool :=
  access_F_OK sys (MANAGERAPK h)
  || get_magiskdb sys && negb (bool_decide (validate_manager sys = 0)).

(** The part of late_start about the manager. *)
Definition install_manager (h : magisk_h) (k : startup_h) (sys : platform)
    (ssys : startup_sys) (fuel : nat) : sio bool :=
  if access_F_OK sys (MANAGERAPK h) then
    call_ (later (rename (MANAGERAPK h) "/data/magisk.apk"));;
    install_apk_fuel k ssys fuel "/data/magisk.apk"
  else
    if get_magiskdb sys then
      if negb (bool_decide (validate_manager sys = 0)) then
        call_ (later (exec_command_sync
                        ["/sbin/magiskinit"; "-x"; "manager"; "/data/magisk.apk"]));;
        install_apk_fuel k ssys fuel "/data/magisk.apk"
      else mret true
    else mret true.

(** The calls of late_start about the manager when [install_apk] returns
    after the attempts 0 to [n]: the APK that was shipped is moved and
    installed; without one, the stub is unpacked and installed when the
    database opens and no valid manager is found. *)
Definition manager_calls (h : magisk_h) (k : startup_h) (sys : platform)
    (ssys : startup_sys) (n : nat) : list call :=
  if access_F_OK sys (MANAGERAPK h) then
    later (rename (MANAGERAPK h) "/data/magisk.apk")
    :: install_calls k ssys n "/data/magisk.apk"
  else if get_magiskdb sys && negb (bool_decide (validate_manager sys = 0)) then
    later (exec_command_sync ["/sbin/magiskinit"; "-x"; "manager"; "/data/magisk.apk"])
    :: install_calls k ssys n "/data/magisk.apk"
  else [].

(** The calls of [unlock_blocks] for one entry of /dev/block. *)
Definition unlock_calls (ssys : startup_sys) (e : dirent) : list call :=
  if bool_decide (d_type e = DT_BLK) then
    openat (dev_block_fd ssys) (d_name e) O_RDONLY
    :: (if openat_block ssys (d_name e) <? 0 then []
        else [ioctl_BLKROSET (openat_block ssys (d_name e)) 0;
              close (openat_block ssys (d_name e))])
  else [].

(** [m] makes only calls that satisfy [P]. *)
Definition makes {A} (P : call -> Prop) (m : sio A) : Prop :=
  forall g, Forall P (calls (m g)).

(** [leaves f m]: running [m] does not change the part [f] of the
    globals. *)
Definition leaves {A B} (f : globals -> B) (m : sio A) : Prop :=
  forall g, f (state (m g)) = f g.

(** [m] ends with the calls [tail], and every call before them satisfies
    [P]. *)
Definition stops_with {A} (P : call -> Prop) (tail : list call) (m : sio A) : Prop :=
  forall g, exists before, calls (m g) = before ++ tail /\ Forall P before.

(** A call that ends the thread or replaces the program. *)
Definition final_call (c : call) : bool :=
  match c with
  | later pthread_exit | execl _ _ => true
  | _ => false
  end.

(** ** Properties *)

(** *** The node tree *)

Lemma set_children_id (n : node_entry) : set_children (children n) n = n.
Proof. by destruct n. Qed.

Lemma insert_loop_names (cs : list node_entry) (node : node_entry) :
  name <$> (insert_loop cs node).1 =
  if bool_decide (name node ∈ name <$> cs) then name <$> cs
  else (name <$> cs) ++ [name node].
Proof.
  induction cs as [|c cs IH]; [done|].
  cbn [insert_loop]. rewrite fmap_cons.
  destruct (decide (name c = name node)) as [Hc|Hc].
  - rewrite (bool_decide_eq_true_2 (name c = name node)); [|done].
    rewrite (bool_decide_eq_true_2 (name node ∈ _)); [|rewrite <- Hc; left].
    destruct (bool_decide (status node > status c)); cbn [fst]; by rewrite fmap_cons, ?Hc.
  - rewrite (bool_decide_eq_false_2 (name c = name node)); [|done].
    destruct (insert_loop cs node) as [rest i] eqn:E. cbn [fst] in *.
    rewrite fmap_cons, IH.
    destruct (decide (name node ∈ name <$> cs)) as [Hin|Hin].
    + rewrite !bool_decide_eq_true_2; [done|by right|done].
    + rewrite !bool_decide_eq_false_2; [done| |done].
      intros [?|?]%elem_of_cons; congruence.
Qed.

Lemma insert_names (this node : node_entry) :
  name <$> children (insert this node).1 =
  if bool_decide (name node ∈ name <$> children this) then name <$> children this
  else (name <$> children this) ++ [name node].
Proof.
  unfold insert. pose proof (insert_loop_names (children this) (set_parent owner node)) as H.
  destruct (insert_loop _ _) as [cs i]. by destruct node.
Qed.

Lemma insert_NoDup (this node : node_entry) :
  NoDup (name <$> children this) -> NoDup (name <$> children (insert this node).1).
Proof.
  intros Hnd. rewrite insert_names. case_bool_decide as Hin; [done|].
  apply NoDup_app. split_and!; [done| |apply NoDup_singleton].
  intros x Hx ->%list_elem_of_singleton. done.
Qed.

Lemma insert_loop_collision (l1 l2 : list node_entry) (child node : node_entry) :
  name child = name node ->
  Forall (fun c => name c ≠ name node) l1 ->
  insert_loop (l1 ++ child :: l2) node =
  if bool_decide (status node > status child)
  then (l1 ++ node :: l2, length l1)
  else (l1 ++ child :: l2, length l1).
Proof.
  intros Hname Hl1. induction Hl1 as [|c l1 Hc _ IH]; simpl.
  - rewrite bool_decide_eq_true_2; [|done]. by case_bool_decide.
  - rewrite bool_decide_eq_false_2; [|done]. rewrite IH. by case_bool_decide.
Qed.

Lemma precedence_order (s t : Z) :
  s ∈ [IS_DUMMY; IS_INTER; IS_SKEL; IS_MODULE] -> 0 <= t < 16 ->
  s > t <-> (precedence s > precedence t)%nat.
Proof.
  intros Hs Ht.
  assert (t = 0 \/ t = 1 \/ t = 2 \/ t = 3 \/ t = 4 \/ t = 5 \/ t = 6 \/ t = 7 \/
          t = 8 \/ t = 9 \/ t = 10 \/ t = 11 \/ t = 12 \/ t = 13 \/ t = 14 \/
          t = 15) as Ht' by lia.
  clear Ht.
  repeat (apply elem_of_cons in Hs as [->|Hs]);
    [..|by apply elem_of_nil in Hs];
    repeat (destruct Ht' as [->|Ht']); try subst t;
    unfold precedence, IS_DUMMY, IS_INTER, IS_SKEL, IS_MODULE; cbn; lia.
Qed.

(** C4: when the name of the inserted node collides with that of a sibling,
    the sibling's subtree is replaced by the new node if the status of the
    new node is strictly greater, which for the statuses MODULE, SKEL, INTER
    and DUMMY is the precedence order; otherwise the array is left as it was
    and the sibling is handed back.  Sibling names that were unique stay
    unique after any insert. *)
Theorem insert_collision_precedence (this node : node_entry) :
  (forall l1 child l2,
      children this = l1 ++ child :: l2 ->
      name child = name node ->
      Forall (fun c => name c ≠ name node) l1 ->
      (insert this node =
         if bool_decide (status node > status child)
         then (set_children (l1 ++ set_parent owner node :: l2) this, length l1)
         else (this, length l1))
      /\ (returned (insert this node) =
           Some (if bool_decide (status node > status child)
                 then set_parent owner node else child))
      /\ (status node ∈ [IS_DUMMY; IS_INTER; IS_SKEL; IS_MODULE] ->
          0 <= status child < 16 ->
          status node > status child <->
          (precedence (status node) > precedence (status child))%nat))
  /\ (NoDup (name <$> children this) ->
      NoDup (name <$> children (insert this node).1)).
Proof.
  split; [|apply insert_NoDup].
  intros l1 child l2 Hcs Hname Hl1.
  assert (insert this node =
            if bool_decide (status node > status child)
            then (set_children (l1 ++ set_parent owner node :: l2) this, length l1)
            else (this, length l1)) as Heq.
  { unfold insert. rewrite Hcs, insert_loop_collision; [|by destruct node..].
    replace (status (set_parent owner node)) with (status node) by by destruct node.
    case_bool_decide; [done|]. by rewrite <- Hcs, set_children_id. }
  split_and!; [done| |by apply precedence_order].
  rewrite Heq. unfold returned. case_bool_decide; simpl.
  - by rewrite list_lookup_middle.
  - by rewrite Hcs, list_lookup_middle.
Qed.


Lemma extract_loop_some (cs cs' : list node_entry) (nm : string) (node : node_entry) :
  extract_loop cs nm = (cs', Some node) ->
  exists l1 child l2,
    cs = l1 ++ child :: l2 /\ Forall (fun c => name c ≠ nm) l1 /\ name child = nm
    /\ node = set_parent nullptr child
    /\ cs' = l1 ++ placeholder nm (parent child) :: l2.
Proof.
  revert cs'. induction cs as [|c cs IH]; intros cs'; simpl; [done|].
  case_bool_decide as Hc.
  - intros [= <- <-]. exists [], c, cs. by split_and!.
  - destruct (extract_loop cs nm) as [rest r] eqn:E. intros [= <- ->].
    destruct (IH _ eq_refl) as (l1 & child & l2 & -> & Hl1 & Hn & -> & ->).
    exists (c :: l1), child, l2. split_and!; try done. by constructor.
Qed.


(** *** The decryption gate *)

Lemma foldl_flag {A} (P : A -> bool) (l : list A) (b : bool) :
  foldl (fun mnt x => if P x then true else mnt) b l = b || existsb P l.
Proof.
  revert b. induction l as [|x l IH]; intros b; simpl.
  - by rewrite orb_false_r.
  - rewrite IH. destruct (P x), b; simpl; try done.
Qed.

(** C8: [check_data] answers true exactly when a line of /proc/mounts
    contains " /data " and not "tmpfs", and ro.crypto.state is
    "unencrypted", or is unset, or init.svc.vold is set. *)
Theorem check_data_decryption_gate (sys : platform) :
  check_data sys = true <->
  (exists line, line ∈ file_to_array sys "/proc/mounts"
                /\ contains sys line " /data " = true
                /\ contains sys line "tmpfs" = false)
  /\ (getprop sys "ro.crypto.state" = "unencrypted"
      \/ getprop sys "ro.crypto.state" = ""
      \/ getprop sys "init.svc.vold" ≠ "").
Proof.
  unfold check_data. rewrite foldl_flag. simpl.
  destruct (existsb _ _) eqn:Hex.
  - apply existsb_exists in Hex as (line & Hin & Hline).
    apply andb_true_iff in Hline as [H1 H2%negb_true_iff].
    apply list_elem_of_In in Hin.
    repeat case_bool_decide; simpl; split; try done; try (intros _; split; eauto 6).
    + intros [_ [?|[?|?]]]; done.
  - split; [done|]. intros [(line & Hin & H1 & H2) _].
    assert (existsb (fun line => contains sys line " /data " && negb (contains sys line "tmpfs"))
              (file_to_array sys "/proc/mounts") = true) as Hc; [|congruence].
    apply existsb_exists. exists line. rewrite H1, H2.
    split; [by apply list_elem_of_In|done].
Qed.

(** *** Reasoning about [io] computations *)

Lemma bind_unfold {A B} (m : io A) (f : A -> io B) (g : globals) :
  (m ≫= f) g =
  (result (f (result (m g)) (final (m g))),
   final (f (result (m g)) (final (m g))),
   trace (m g) ++ trace (f (result (m g)) (final (m g)))).
Proof.
  unfold mbind, io_bind, result, final, trace.
  destruct (m g) as [[x g1] t1]. simpl. by destruct (f x g1) as [[y g2] t2].
Qed.

Lemma trace_bind {A B} (m : io A) (f : A -> io B) (g : globals) :
  trace ((m ≫= f) g) = trace (m g) ++ trace (f (result (m g)) (final (m g))).
Proof. by rewrite bind_unfold. Qed.

Lemma final_bind {A B} (m : io A) (f : A -> io B) (g : globals) :
  final ((m ≫= f) g) = final (f (result (m g)) (final (m g))).
Proof. by rewrite bind_unfold. Qed.

Lemma result_bind {A B} (m : io A) (f : A -> io B) (g : globals) :
  result ((m ≫= f) g) = result (f (result (m g)) (final (m g))).
Proof. by rewrite bind_unfold. Qed.

Lemma for_each_cons {A} (f : A -> io unit) (x : A) (l : list A) :
  for_each f (x :: l) = (f x ;; for_each f l).
Proof. done. Qed.

Section IoRules.
Context {B : Type} (f : globals -> B) (P : syscall -> Prop).

Lemma keeps_ret {A} (x : A) : keeps f (mret x).
Proof. by intros g. Qed.

Lemma keeps_bind {A C} (m : io A) (k : A -> io C) :
  keeps f m -> (forall x, keeps f (k x)) -> keeps f (m ≫= k).
Proof. intros Hm Hk g. rewrite final_bind, Hk. apply Hm. Qed.

Lemma keeps_emit (c : syscall) : keeps f (emit c).
Proof. by intros g. Qed.

Lemma keeps_gets {A} (p : globals -> A) : keeps f (gets p).
Proof. by intros g. Qed.

Lemma keeps_modify (u : globals -> globals) :
  (forall g, f (u g) = f g) -> keeps f (modify u).
Proof. intros Hu g. apply Hu. Qed.

Lemma keeps_when (b : bool) (m : io unit) : keeps f m -> keeps f (when b m).
Proof. destruct b; [done|]. intros _. apply keeps_ret. Qed.

Lemma keeps_for_each {A} (k : A -> io unit) (l : list A) :
  (forall x, x ∈ l -> keeps f (k x)) -> keeps f (for_each k l).
Proof.
  induction l as [|x l IH]; intros Hk; [apply keeps_ret|].
  rewrite for_each_cons. apply keeps_bind; [apply Hk; left|].
  intros _. apply IH. intros y Hy. apply Hk. by right.
Qed.

Lemma emits_ret {A} (x : A) : emits P (mret x).
Proof. intros g. constructor. Qed.

Lemma emits_bind {A C} (m : io A) (k : A -> io C) :
  emits P m -> (forall x, emits P (k x)) -> emits P (m ≫= k).
Proof. intros Hm Hk g. rewrite trace_bind. apply Forall_app. split; [apply Hm|apply Hk]. Qed.

Lemma emits_emit (c : syscall) : P c -> emits P (emit c).
Proof. intros Hc g. by repeat constructor. Qed.

Lemma emits_gets {A} (p : globals -> A) : emits P (gets p).
Proof. intros g. constructor. Qed.

Lemma emits_modify (u : globals -> globals) : emits P (modify u).
Proof. intros g. constructor. Qed.

Lemma emits_when (b : bool) (m : io unit) : (b = true -> emits P m) -> emits P (when b m).
Proof. destruct b; [auto|]. intros _. apply emits_ret. Qed.

Lemma emits_for_each {A} (k : A -> io unit) (l : list A) :
  (forall x, x ∈ l -> emits P (k x)) -> emits P (for_each k l).
Proof.
  induction l as [|x l IH]; intros Hk; [apply emits_ret|].
  rewrite for_each_cons. apply emits_bind; [apply Hk; left|].
  intros _. apply IH. intros y Hy. apply Hk. by right.
Qed.
End IoRules.

Lemma yields_ret {A} (Q : A -> Prop) (x : A) : Q x -> yields Q (mret x).
Proof. by intros Hx g. Qed.

Lemma yields_bind {A C} (Q1 : A -> Prop) (Q : C -> Prop) (m : io A) (k : A -> io C) :
  yields Q1 m -> (forall x, Q1 x -> yields Q (k x)) -> yields Q (m ≫= k).
Proof. intros Hm Hk g. rewrite result_bind. by apply Hk. Qed.

Lemma yields_any {A} (m : io A) : yields (fun _ => True) m.
Proof. by intros g. Qed.

Lemma yields_seq {A C} (Q : C -> Prop) (m : io A) (k : io C) :
  yields Q k -> yields Q (m ;; k).
Proof. intros Hk. eapply yields_bind; [apply yields_any|]. by intros _ _. Qed.

(** The buffers are the only globals the path computations write. *)
Lemma keeps_set_buf {B} (f : globals -> B) (s : string) :
  (forall b b2 l d v, f (Globals b b2 l d v) = f (Globals s b2 l d v)) ->
  keeps f (set_buf s).
Proof. intros Hf [b b2 l d v]. unfold set_buf, modify, final. simpl. symmetry. apply Hf. Qed.

Lemma keeps_set_buf2 {B} (f : globals -> B) (s : string) :
  (forall b b2 l d v, f (Globals b b2 l d v) = f (Globals b s l d v)) ->
  keeps f (set_buf2 s).
Proof. intros Hf [b b2 l d v]. unfold set_buf2, modify, final. simpl. symmetry. apply Hf. Qed.

Lemma keeps_set_module_list {B} (f : globals -> B) (ms : list string) :
  (forall b b2 l d v, f (Globals b b2 l d v) = f (Globals b b2 ms d v)) ->
  keeps f (set_module_list ms).
Proof. intros Hf [b b2 l d v]. unfold set_module_list, modify, final. simpl. symmetry. apply Hf. Qed.

Ltac io_simpl :=
  cbv [result final trace gets emit modify set_buf set_buf2 set_module_list
       set_setup_done when bind_mount mbind mret io_bind io_ret fst snd];
  simpl.

Ltac flags_side :=
  first [ done | match goal with H : reads_flags_only _ |- _ => apply H end ].

Ltac keeps_step :=
  lazymatch goal with
  | |- keeps _ (mret _) => apply keeps_ret
  | |- keeps _ (emit _) => apply keeps_emit
  | |- keeps _ (gets _) => apply keeps_gets
  | |- keeps _ (set_buf _) => apply keeps_set_buf; intros; flags_side
  | |- keeps _ (set_buf2 _) => apply keeps_set_buf2; intros; flags_side
  | |- keeps _ (set_module_list _) => apply keeps_set_module_list; intros; flags_side
  | |- keeps _ (when _ _) => apply keeps_when
  | |- keeps _ (bind_mount _ _) => unfold bind_mount
  | |- keeps _ (for_each _ _) => apply keeps_for_each; intros ? ?
  | |- keeps _ (_ ≫= _) => apply keeps_bind; [|intros ?]
  | |- keeps _ (if ?b then _ else _) => destruct b
  | |- keeps _ (match ?x with _ => _ end) => destruct x
  | |- keeps _ (let _ := _ in _) => cbv zeta
  end.

Ltac emits_step :=
  lazymatch goal with
  | |- emits _ (mret _) => apply emits_ret
  | |- emits _ (gets _) => apply emits_gets
  | |- emits _ (modify _) => apply emits_modify
  | |- emits _ (set_buf _) => apply emits_modify
  | |- emits _ (set_buf2 _) => apply emits_modify
  | |- emits _ (set_module_list _) => apply emits_modify
  | |- emits _ (set_setup_done _) => apply emits_modify
  | |- emits _ (emit _) => apply emits_emit
  | |- emits _ (when _ _) => apply emits_when; intros ?
  | |- emits _ (bind_mount _ _) => unfold bind_mount
  | |- emits _ (for_each _ _) => apply emits_for_each; intros ? ?
  | |- emits _ (_ ≫= _) => apply emits_bind; [|intros ?]
  | |- emits _ (if ?b then _ else _) => destruct b eqn:?
  | |- emits _ (match ?x with _ => _ end) => destruct x eqn:?
  | |- emits _ (let _ := _ in _) => cbv zeta
  end.

Lemma keeps_fold_each {A S B} (f : globals -> B) (k : A -> S -> io S) (l : list A) (s : S) :
  (forall x s, x ∈ l -> keeps f (k x s)) -> keeps f (fold_each k l s).
Proof.
  revert s. induction l as [|x l IH]; intros s Hk; [apply keeps_ret|].
  change (fold_each k (x :: l) s) with (k x s ≫= fold_each k l).
  apply keeps_bind; [apply Hk; left|].
  intros s'. apply IH. intros y s'' Hy. apply Hk. by right.
Qed.

Lemma emits_fold_each {A S} (P : syscall -> Prop) (k : A -> S -> io S) (l : list A) (s : S) :
  (forall x s, x ∈ l -> emits P (k x s)) -> emits P (fold_each k l s).
Proof.
  revert s. induction l as [|x l IH]; intros s Hk; [apply emits_ret|].
  change (fold_each k (x :: l) s) with (k x s ≫= fold_each k l).
  apply emits_bind; [apply Hk; left|].
  intros s'. apply IH. intros y s'' Hy. apply Hk. by right.
Qed.

Lemma emits_impl {A} (P Q : syscall -> Prop) (m : io A) :
  (forall c, P c -> Q c) -> emits P m -> emits Q m.
Proof. intros HPQ Hm g. eapply Forall_impl; [apply Hm|done]. Qed.

(** *** Reasoning about [sio] computations *)

Lemma sbind_unfold {A B} (m : sio A) (f : A -> sio B) (g : globals) :
  (m ≫= f) g =
  (value (f (value (m g)) (state (m g))),
   state (f (value (m g)) (state (m g))),
   calls (m g) ++ calls (f (value (m g)) (state (m g)))).
Proof.
  unfold mbind, sio_bind, value, state, calls.
  destruct (m g) as [[x g1] t1]. simpl. by destruct (f x g1) as [[y g2] t2].
Qed.

Lemma calls_bind {A B} (m : sio A) (f : A -> sio B) (g : globals) :
  calls ((m ≫= f) g) = calls (m g) ++ calls (f (value (m g)) (state (m g))).
Proof. by rewrite sbind_unfold. Qed.

Lemma state_bind {A B} (m : sio A) (f : A -> sio B) (g : globals) :
  state ((m ≫= f) g) = state (f (value (m g)) (state (m g))).
Proof. by rewrite sbind_unfold. Qed.

Lemma value_bind {A B} (m : sio A) (f : A -> sio B) (g : globals) :
  value ((m ≫= f) g) = value (f (value (m g)) (state (m g))).
Proof. by rewrite sbind_unfold. Qed.

Lemma calls_run {A} (m : io A) (g : globals) : calls (run m g) = later <$> trace (m g).
Proof. unfold run, calls, trace. by destruct (m g) as [[x g1] t]. Qed.

Lemma state_run {A} (m : io A) (g : globals) : state (run m g) = final (m g).
Proof. unfold run, state, final. by destruct (m g) as [[x g1] t]. Qed.

Lemma value_run {A} (m : io A) (g : globals) : value (run m g) = result (m g).
Proof. unfold run, value, result. by destruct (m g) as [[x g1] t]. Qed.

Lemma sfor_each_cons {A} (f : A -> sio unit) (x : A) (l : list A) :
  sfor_each f (x :: l) = (f x ;; sfor_each f l).
Proof. done. Qed.

Lemma sfor_each_calls {A} (f : A -> sio unit) (c : A -> list call) (l : list A) :
  (forall x g, x ∈ l -> calls (f x g) = c x /\ state (f x g) = g) ->
  forall g, calls (sfor_each f l g) = flat_map c l /\ state (sfor_each f l g) = g.
Proof.
  induction l as [|x l IH]; intros Hf g; [done|].
  rewrite sfor_each_cons, calls_bind, state_bind. cbn [flat_map].
  destruct (Hf x g) as [-> ->]; [left|].
  destruct (IH (fun y g' Hy => Hf y g' (list_elem_of_further _ _ _ Hy)) g) as [-> ->].
  done.
Qed.

Section MakesRules.
Context (P : call -> Prop).

Lemma makes_ret {A} (x : A) : makes P (mret x).
Proof. intros g. constructor. Qed.

Lemma makes_bind {A C} (m : sio A) (f : A -> sio C) :
  makes P m -> (forall x, makes P (f x)) -> makes P (m ≫= f).
Proof.
  intros Hm Hf g. rewrite calls_bind. apply Forall_app. split; [apply Hm|apply Hf].
Qed.

Lemma makes_call (c : call) : P c -> makes P (call_ c).
Proof. intros Hc g. by repeat constructor. Qed.

Lemma makes_run {A} (m : io A) : emits (fun c => P (later c)) m -> makes P (run m).
Proof. intros Hm g. rewrite calls_run. apply Forall_fmap. apply Hm. Qed.

Lemma makes_swhen (b : bool) (m : sio unit) : (b = true -> makes P m) -> makes P (swhen b m).
Proof. destruct b; intros Hm; [by apply Hm|apply makes_ret]. Qed.

Lemma makes_sfor_each {A} (f : A -> sio unit) (l : list A) :
  (forall x, x ∈ l -> makes P (f x)) -> makes P (sfor_each f l).
Proof.
  induction l as [|x l IH]; intros Hf; [apply makes_ret|].
  rewrite sfor_each_cons. apply makes_bind; [apply Hf; left|].
  intros _. apply IH. intros y Hy. apply Hf. by right.
Qed.

Lemma stops_with_bind {A C} (tail : list call) (m : sio A) (f : A -> sio C) :
  makes P m -> (forall x, stops_with P tail (f x)) -> stops_with P tail (m ≫= f).
Proof.
  intros Hm Hf g. rewrite calls_bind.
  destruct (Hf (value (m g)) (state (m g))) as (before & -> & Hb).
  exists (calls (m g) ++ before). rewrite <- app_assoc. split; [done|].
  apply Forall_app. split; [apply Hm|done].
Qed.

Lemma stops_with_call (c : call) : stops_with P [c] (call_ c).
Proof. intros g. exists []. split; [done|constructor]. Qed.
End MakesRules.

Ltac makes_step :=
  lazymatch goal with
  | |- makes _ (mret _) => apply makes_ret
  | |- makes _ (call_ _) => apply makes_call
  | |- makes _ (run _) => apply makes_run
  | |- makes _ (swhen _ _) => apply makes_swhen; intros ?
  | |- makes _ (sfor_each _ _) => apply makes_sfor_each; intros ? ?
  | |- makes _ (_ ≫= _) => apply makes_bind; [|intros ?]
  | |- makes _ (if ?b then _ else _) => destruct b eqn:?
  | |- makes _ (match ?x with _ => _ end) => destruct x eqn:?
  | |- makes _ (let _ := _ in _) => cbv zeta
  end.

Section LeavesRules.
Context {B : Type} (f : globals -> B).

Lemma leaves_ret {A} (x : A) : leaves f (mret x).
Proof. done. Qed.

Lemma leaves_bind {A C} (m : sio A) (k : A -> sio C) :
  leaves f m -> (forall x, leaves f (k x)) -> leaves f (m ≫= k).
Proof. intros Hm Hk g. rewrite state_bind, Hk. apply Hm. Qed.

Lemma leaves_call (c : call) : leaves f (call_ c).
Proof. done. Qed.

Lemma leaves_run {A} (m : io A) : keeps f m -> leaves f (run m).
Proof. intros Hm g. rewrite state_run. apply Hm. Qed.
End LeavesRules.

(** *** The flags are written by the entry points alone *)

Section Flags.
Context (h : magisk_h) (sys : platform).
Context {B : Type} (f : globals -> B) (Hf : reads_flags_only f).

Lemma keeps_create_module_tree_entry descend module full_path entry this :
  (forall up node, keeps f (descend (d_open entry) up node)) ->
  keeps f (create_module_tree_entry h sys descend module full_path entry this).
Proof.
  intros Hd. unfold create_module_tree_entry, mark_entry. repeat keeps_step; apply Hd.
Qed.

Lemma keeps_create_module_tree_in dir :
  forall module up this, keeps f (create_module_tree_in h sys dir module up this).
Proof.
  induction dir as [|entries IH] using DIR_nested_ind; intros module up this;
    cbn [create_module_tree_in]; repeat keeps_step.
  apply keeps_fold_each. intros e n He.
  apply keeps_create_module_tree_entry. intros up' node.
  rewrite Forall_forall in IH. apply IH, He.
Qed.

Lemma keeps_clone_skeleton_child descend this full_path child :
  keeps f (descend full_path child) ->
  keeps f (clone_skeleton_child h descend this full_path child).
Proof. intros Hd. unfold clone_skeleton_child. repeat keeps_step; apply Hd. Qed.

Lemma keeps_clone_skeleton_fuel fuel :
  forall up this, keeps f (clone_skeleton_fuel h sys fuel up this).
Proof.
  induction fuel as [|fuel IH]; intros up this;
    cbn [clone_skeleton_fuel]; unfold clone_skeleton_body; repeat keeps_step.
  apply keeps_clone_skeleton_child, IH.
Qed.

Lemma keeps_magic_mount this :
  forall up, keeps f (magic_mount h sys up this).
Proof.
  induction this as [m n t s p cs IH] using node_entry_nested_ind; intros up.
  cbn [magic_mount]. repeat keeps_step; [apply keeps_clone_skeleton_fuel|].
  rewrite Forall_forall in IH. by apply IH.
Qed.

Lemma keeps_exec_common_script stage : keeps f (exec_common_script h sys stage).
Proof. unfold exec_common_script. repeat keeps_step. Qed.

Lemma keeps_exec_module_script stage : keeps f (exec_module_script h sys stage).
Proof. unfold exec_module_script. repeat keeps_step. Qed.

Lemma keeps_merge_images imgs : keeps f (merge_images h sys imgs).
Proof. induction imgs; cbn [merge_images]; repeat keeps_step; done. Qed.

Lemma keeps_prepare_img : keeps f (prepare_img h sys).
Proof.
  unfold prepare_img. repeat keeps_step; try apply keeps_merge_images.
  all: unfold prepare_img_entry; repeat keeps_step.
Qed.

Lemma keeps_core_only : keeps f (core_only h sys).
Proof.
  unfold core_only, auto_start_magiskhide, unblock_boot_process.
  repeat keeps_step.
Qed.

Lemma keeps_load_modules modules :
  forall sys_root has_modules,
    keeps f (load_modules h sys modules sys_root has_modules).
Proof.
  induction modules as [|m ms IH]; intros sys_root has_modules;
    cbn [load_modules]; repeat keeps_step; try apply IH.
  apply keeps_create_module_tree_in.
Qed.
End Flags.

(** *** The boot stages *)

Lemma setup_done_flag : reads_flags_only setup_done.
Proof. done. Qed.

Lemma seperate_vendor_flag : reads_flags_only seperate_vendor.
Proof. done. Qed.

Section Stages.
Context (h : magisk_h) (sys : platform).

Lemma post_fs_data_sets_setup_done (g : globals) :
  setup_done (final (post_fs_data h sys g)) = true.
Proof.
  assert (forall (M : io unit) c,
             keeps setup_done M ->
             setup_done (final ((emit c;; set_setup_done true;; M) g)) = true) as H.
  { intros M c HM. rewrite !final_bind. by rewrite HM. }
  apply H. unfold mount_modules. repeat keeps_step;
    auto using keeps_prepare_img, keeps_core_only, keeps_exec_common_script,
      keeps_exec_module_script, keeps_load_modules, keeps_magic_mount,
      setup_done_flag.
Qed.




End Stages.

Section Attempts.
Context (ssys : startup_sys).

Lemma makes_install_apk_from (P : call -> Prop) (apk : string) :
  P (sleep 5) -> (forall a, P (exec_command 1 a)) -> (forall p, P (waitpid p)) ->
  (forall fd, P (close fd)) -> P (later (unlink apk)) ->
  forall fuel n, makes P (install_apk_from ssys fuel n apk).
Proof.
  intros H1 H2 H3 H4 H5. induction fuel as [|fuel IH]; intros n; cbn [install_apk_from].
  { apply makes_ret. }
  repeat makes_step; try done; try apply IH.
  unfold read_output. repeat emits_step.
  apply emits_fold_each. intros line err _. repeat emits_step.
Qed.

Lemma leaves_install_apk_from {B} (f : globals -> B) (apk : string) :
  (forall b b2 l d v s, f (Globals b b2 l d v) = f (Globals s b2 l d v)) ->
  forall fuel n, leaves f (install_apk_from ssys fuel n apk).
Proof.
  intros Hf. induction fuel as [|fuel IH]; intros n; cbn [install_apk_from].
  { apply leaves_ret. }
  repeat first [ apply leaves_bind; [|intros ?] | apply leaves_call | apply leaves_ret
               | apply leaves_run | apply IH
               | match goal with |- leaves _ (if ?b then _ else _) => destruct b end
               | progress cbv zeta ].
  unfold read_output. repeat keeps_step; try done.
  apply keeps_fold_each. intros line err _. repeat keeps_step; done.
Qed.
End Attempts.

Section Reboot.
Context (h : magisk_h) (k : startup_h) (sys : platform) (ssys : startup_sys).

Lemma late_start_head {A} (m : bool -> sio A) (g : globals) :
  (call_ (later (write_int_close 0));;
   swhen (negb (access_F_OK sys (SECURE_DIR h)))
     (call_ (later (xmkdir (SECURE_DIR h) mode_0700)));;
   s ← run (gets setup_done); m s) g
  = (value (m (setup_done g) g), state (m (setup_done g) g),
     later (write_int_close 0)
     :: (later <$> (if access_F_OK sys (SECURE_DIR h) then []
                    else [xmkdir (SECURE_DIR h) mode_0700]))
     ++ calls (m (setup_done g) g)).
Proof.
  rewrite !sbind_unfold.
  change (state (call_ (later (write_int_close 0)) g)) with g.
  change (calls (call_ (later (write_int_close 0)) g)) with [later (write_int_close 0)].
  assert (forall G : globals,
             swhen (negb (access_F_OK sys (SECURE_DIR h)))
               (call_ (later (xmkdir (SECURE_DIR h) mode_0700))) G
             = (tt, G, later <$> (if access_F_OK sys (SECURE_DIR h) then []
                                  else [xmkdir (SECURE_DIR h) mode_0700]))) as E.
  { intros G. by destruct (access_F_OK sys (SECURE_DIR h)). }
  rewrite !E.
  change (state (tt, g, ?t)) with g. change (calls (tt, g, ?t)) with t.
  rewrite value_run, state_run, calls_run.
  change (result (gets setup_done g)) with (setup_done g).
  change (final (gets setup_done g)) with g.
  change (trace (gets setup_done g)) with (@nil syscall).
  by rewrite fmap_nil, app_nil_l.
Qed.

Lemma makes_install_manager (P : call -> Prop) (fuel : nat) :
  (forall c, P (later c)) -> (forall a b, P (setfilecon a b)) -> P (sleep 5) ->
  (forall a, P (exec_command 1 a)) -> (forall p, P (waitpid p)) ->
  (forall fd, P (close fd)) ->
  makes P (install_manager h k sys ssys fuel).
Proof.
  intros. unfold install_manager, install_apk_fuel.
  repeat makes_step; try done; by apply makes_install_apk_from.
Qed.

End Reboot.



(** *** Image preparation *)

Section Enumeration.
Context (h : magisk_h) (sys : platform).

Lemma prepare_img_entry_spec (e : dirent) (g : globals) :
  trace (prepare_img_entry h sys e g) = cleanup h sys e
  /\ module_list (final (prepare_img_entry h sys e g)) =
     module_list g ++ (if active h sys e then [d_name e] else []).
Proof.
  unfold prepare_img_entry, cleanup, active, candidate, special_dir, marked.
  destruct g as [b b2 l d v].
  destruct (bool_decide (d_type e = DT_DIR)); simpl; [|by rewrite app_nil_r].
  assert (bool_decide (d_name e ∈ ["."; ".."; ".core"; "lost+found"]) =
          bool_decide (d_name e = ".") || bool_decide (d_name e = "..")
          || bool_decide (d_name e = ".core") || bool_decide (d_name e = "lost+found")) as ->.
  { destruct (decide (d_name e ∈ ["."; ".."; ".core"; "lost+found"])) as [Hin|Hin].
    - rewrite (bool_decide_eq_true_2 _ Hin).
      rewrite !elem_of_cons, elem_of_nil in Hin.
      by destruct Hin as [->|[->|[->|[->|[]]]]].
    - rewrite (bool_decide_eq_false_2 _ Hin).
      rewrite !elem_of_cons, elem_of_nil in Hin.
      repeat case_bool_decide; simpl; try done; exfalso; apply Hin; auto 6. }
  destruct (_ || _); simpl; [by rewrite app_nil_r|].
  destruct (access_F_OK sys (_ +:+ "/remove")); simpl; [by rewrite app_nil_r|].
  destruct (access_F_OK sys (_ +:+ "/disable")); simpl; [by rewrite app_nil_r|done].
Qed.

Lemma enumeration_spec (entries : list dirent) (g : globals) :
  trace (for_each (prepare_img_entry h sys) entries g) = flat_map (cleanup h sys) entries
  /\ module_list (final (for_each (prepare_img_entry h sys) entries g)) =
     module_list g ++ (d_name <$> filter (fun e => active h sys e = true) entries).
Proof.
  revert g. induction entries as [|e es IH]; intros g.
  - simpl. by rewrite app_nil_r.
  - rewrite for_each_cons, trace_bind, final_bind.
    destruct (prepare_img_entry_spec e g) as [Ht Hm].
    destruct (IH (final (prepare_img_entry h sys e g))) as [IHt IHm].
    rewrite IHt, IHm, Ht, Hm. split; [done|].
    destruct (active h sys e) eqn:Ha.
    + rewrite filter_cons_True by done. by rewrite fmap_cons, <- app_assoc.
    + rewrite filter_cons_False by (by rewrite Ha). by rewrite app_nil_r.
Qed.
End Enumeration.



(** *** Simple mount *)

Lemma for_each_trace_ind {A} (f : A -> io unit) (Q : list syscall -> Prop) (l : list A) :
  Q [] -> (forall t1 t2, Q t1 -> Q t2 -> Q (t1 ++ t2)) ->
  (forall x g, x ∈ l -> Q (trace (f x g))) ->
  forall g, Q (trace (for_each f l g)).
Proof.
  intros Hnil Happ. induction l as [|x l IH]; intros Hf g; [done|].
  rewrite for_each_cons, trace_bind. apply Happ; [apply Hf; left|].
  apply IH. intros y g' Hy. apply Hf. by right.
Qed.

Lemma for_each_trace_elem {A} (f : A -> io unit) (l : list A) (x : A) (g : globals) :
  x ∈ l ->
  exists before after g', trace (for_each f l g) = before ++ trace (f x g') ++ after.
Proof.
  intros Hx. revert g. induction Hx as [x l|x y l Hx IH]; intros g.
  - exists [], (trace (for_each f l (final (f x g)))), g.
    by rewrite for_each_cons, trace_bind.
  - destruct (IH (final (f y g))) as (before & after & g' & Heq).
    exists (trace (f y g) ++ before), after, g'.
    by rewrite for_each_cons, trace_bind, Heq, <- app_assoc.
Qed.

Section SimpleMount.
Context (h : magisk_h) (sys : platform).

Lemma simple_mount_in_stream (entries : list dirent) (path : string) (g : globals) :
  exists g',
    trace (simple_mount_in h sys (Stream entries) path g) =
    trace (for_each (simple_mount_entry h sys (simple_mount_in h sys) path) entries g').
Proof. cbn [simple_mount_in]. rewrite trace_bind. by eexists. Qed.

Lemma simple_mount_entry_file descend path e g :
  is_dot e = false -> d_type e = DT_REG ->
  access_F_OK sys (path +:+ "/" +:+ d_name e) = true ->
  trace (simple_mount_entry h sys descend path e g) =
  mount_over h (path +:+ "/" +:+ d_name e).
Proof.
  intros Hdot Hreg Hacc. unfold simple_mount_entry.
  rewrite Hdot, Hacc, Hreg. done.
Qed.

Lemma simple_mount_entry_dir descend path e g :
  is_dot e = false -> d_type e = DT_DIR ->
  access_F_OK sys (path +:+ "/" +:+ d_name e) = true ->
  exists g',
    trace (simple_mount_entry h sys descend path e g) =
    trace (descend (d_open e) (path +:+ "/" +:+ d_name e) g').
Proof.
  intros Hdot Hdir Hacc. unfold simple_mount_entry.
  rewrite Hdot, Hacc, Hdir. simpl. rewrite trace_bind. by eexists.
Qed.

Lemma simple_mount_complete dir path e target :
  reaches sys dir path e target ->
  d_type e = DT_REG -> access_F_OK sys target = true ->
  forall g, exists before after,
    trace (simple_mount_in h sys dir path g) = before ++ mount_over h target ++ after.
Proof.
  induction 1 as [entries path e He Hdot|entries path d e target Hd Hdot Hdir Hacc _ IH];
    intros Hreg Htarget g.
  - destruct (simple_mount_in_stream entries path g) as [g1 ->].
    destruct (for_each_trace_elem
                (simple_mount_entry h sys (simple_mount_in h sys) path) entries e g1 He)
      as (before & after & g2 & ->).
    rewrite simple_mount_entry_file by done. by exists before, after.
  - destruct (simple_mount_in_stream entries path g) as [g1 ->].
    destruct (for_each_trace_elem
                (simple_mount_entry h sys (simple_mount_in h sys) path) entries d g1 Hd)
      as (before & after & g2 & ->).
    destruct (simple_mount_entry_dir (simple_mount_in h sys) path d g2 Hdot Hdir Hacc)
      as [g3 ->].
    destruct (IH Hreg Htarget g3) as (before' & after' & ->).
    exists (before ++ before'), (after' ++ after). by rewrite <- !app_assoc.
Qed.

Lemma simple_mount_sound dir :
  forall path g, mounts_files_of h sys dir path (trace (simple_mount_in h sys dir path g)).
Proof.
  induction dir as [|entries IH] using DIR_nested_ind; intros path g.
  - by exists [].
  - destruct (simple_mount_in_stream entries path g) as [g1 ->].
    apply for_each_trace_ind.
    + by exists [].
    + intros t1 t2 (l1 & -> & H1) (l2 & -> & H2). exists (l1 ++ l2).
      split; [by rewrite flat_map_app|by apply Forall_app].
    + intros e g2 He. rewrite Forall_forall in IH. specialize (IH e He).
      unfold simple_mount_entry.
      destruct (is_dot e) eqn:Hdot; [by exists []|].
      rewrite trace_bind.
      destruct (access_F_OK sys (path +:+ "/" +:+ d_name e)) eqn:Hacc; simpl;
        [|by exists []].
      case_bool_decide as Hdir.
      { destruct (IH (path +:+ "/" +:+ d_name e) (final (set_buf2 (path +:+ "/" +:+ d_name e) g2)))
          as (l & -> & Hl).
        exists l. split; [done|]. eapply Forall_impl; [exact Hl|].
        intros target (Ht & e' & Hr & Hreg). split; [done|].
        exists e'. split; [|done]. by eapply reaches_below. }
      case_bool_decide as Hreg; [|by exists []].
      exists [path +:+ "/" +:+ d_name e]. split; [done|].
      constructor; [|done]. split; [done|]. exists e. split; [|done].
      by apply reaches_entry.
Qed.

Lemma simple_mount_descends dir path d target :
  reaches sys dir path d target ->
  d_type d = DT_DIR -> access_F_OK sys target = true ->
  forall g, exists before after g',
    trace (simple_mount_in h sys dir path g) =
    before ++ trace (simple_mount_in h sys (d_open d) target g') ++ after.
Proof.
  induction 1 as [entries path e He Hdot|entries path d e target Hd Hdot Hdir Hacc _ IH];
    intros Hdir' Htarget g.
  - destruct (simple_mount_in_stream entries path g) as [g1 ->].
    destruct (for_each_trace_elem
                (simple_mount_entry h sys (simple_mount_in h sys) path) entries e g1 He)
      as (before & after & g2 & ->).
    destruct (simple_mount_entry_dir (simple_mount_in h sys) path e g2 Hdot Hdir' Htarget)
      as [g3 ->].
    by exists before, after, g3.
  - destruct (simple_mount_in_stream entries path g) as [g1 ->].
    destruct (for_each_trace_elem
                (simple_mount_entry h sys (simple_mount_in h sys) path) entries d g1 Hd)
      as (before & after & g2 & ->).
    destruct (simple_mount_entry_dir (simple_mount_in h sys) path d g2 Hdot Hdir Hacc)
      as [g3 ->].
    destruct (IH Hdir' Htarget g3) as (before' & after' & g4 & ->).
    exists (before ++ before'), (after' ++ after), g4. by rewrite <- !app_assoc.
Qed.

Lemma mounts_files_of_calls dir path t :
  mounts_files_of h sys dir path t ->
  Forall (fun c => exists target,
              access_F_OK sys target = true
              /\ (c = clone_attr target (SIMPLEMOUNT h +:+ target)
                  \/ c = xmount (Some (SIMPLEMOUNT h +:+ target)) target None MS_BIND)) t.
Proof.
  intros (targets & -> & Ht). induction Ht as [|target targets [Hacc _] _ IH]; simpl.
  - constructor.
  - repeat constructor; eauto.
Qed.
End SimpleMount.

(** C9: the simple mounter, for every regular file it comes to whose
    target exists, clones the attributes of the target onto the overlay
    file and then bind-mounts the overlay file over the target; it goes
    into every directory whose target exists; and it does nothing else:
    every call it makes is one of those two, on a target that exists, so a
    missing target is passed over and never created. *)
Theorem simple_mount_existing_targets (h : magisk_h) (sys : platform)
    (path : string) (g : globals) :
  (forall e target,
      reaches sys (xopendir sys (SIMPLEMOUNT h +:+ path)) path e target ->
      d_type e = DT_REG -> access_F_OK sys target = true ->
      exists before after,
        trace (simple_mount h sys path g) = before ++ mount_over h target ++ after)
  /\ (forall d target,
        reaches sys (xopendir sys (SIMPLEMOUNT h +:+ path)) path d target ->
        d_type d = DT_DIR -> access_F_OK sys target = true ->
        exists before after g',
          trace (simple_mount h sys path g) =
          before ++ trace (simple_mount_in h sys (d_open d) target g') ++ after)
  /\ mounts_files_of h sys (xopendir sys (SIMPLEMOUNT h +:+ path)) path
       (trace (simple_mount h sys path g))
  /\ Forall (fun c => exists target,
                access_F_OK sys target = true
                /\ (c = clone_attr target (SIMPLEMOUNT h +:+ target)
                    \/ c = xmount (Some (SIMPLEMOUNT h +:+ target)) target None MS_BIND))
            (trace (simple_mount h sys path g)).
Proof.
  unfold simple_mount. split_and!.
  - intros e target Hr Hreg Hacc. by eapply simple_mount_complete.
  - intros d target Hr Hdir Hacc. by eapply simple_mount_descends.
  - apply simple_mount_sound.
  - eapply mounts_files_of_calls, simple_mount_sound.
Qed.

(** *** Composition *)

Lemma has_skel_lor (s : Z) : negb (Z.land (Z.lor s IS_SKEL) IS_SKEL =? 0) = true.
Proof.
  rewrite Z.land_lor_distr_l. change (Z.land IS_SKEL IS_SKEL) with IS_SKEL.
  apply negb_true_iff, Z.eqb_neq. intros [_ ?]%Z.lor_eq_0_iff. done.
Qed.

Lemma has_module_lor (s : Z) : Z.land (Z.lor s IS_SKEL) IS_MODULE = Z.land s IS_MODULE.
Proof.
  rewrite Z.land_lor_distr_l. change (Z.land IS_SKEL IS_MODULE) with 0.
  apply Z.lor_0_r.
Qed.

Lemma lor_skel_idemp (s : Z) : Z.lor (Z.lor s IS_SKEL) IS_SKEL = Z.lor s IS_SKEL.
Proof. by rewrite <- Z.lor_assoc, Z.lor_diag. Qed.

Lemma fold_each_cons {A S} (f : A -> S -> io S) (x : A) (l : list A) (s : S) :
  fold_each f (x :: l) s = (f x s ≫= fold_each f l).
Proof. done. Qed.

Lemma insert_fields (this node : node_entry) :
  status (insert this node).1 = status this
  /\ parent (insert this node).1 = parent this
  /\ name (insert this node).1 = name this
  /\ type (insert this node).1 = type this
  /\ module (insert this node).1 = module this.
Proof. unfold insert. by destruct (insert_loop _ _). Qed.

Section Composition.
Context (h : magisk_h) (sys : platform).

Lemma clone_condition_spec this module full_path e :
  clone_condition sys this (new_module_node module (d_name e) (d_type e))
    (full_path +:+ "/" +:+ d_name e)
  = meets_clone_condition sys (is_root this) full_path e.
Proof.
  unfold clone_condition, meets_clone_condition, IS_LNK. simpl.
  destruct (bool_decide (d_type e = DT_LNK)); simpl; [done|].
  destruct (access_F_OK sys _); simpl; [|done].
  destruct (is_root this), (bool_decide (d_name e = "vendor")); simpl;
    by rewrite ?andb_true_r, ?andb_false_r.
Qed.

Lemma mark_entry_yields module full_path e this :
  yields (fun '(this', node') =>
            this' = set_status
                      (if meets_clone_condition sys (is_root this) full_path e
                       then Z.lor (status this) IS_SKEL else status this) this
            /\ exists s, node' = set_status s (new_module_node module (d_name e) (d_type e)))
         (mark_entry h sys module (full_path +:+ "/" +:+ d_name e) this
            (new_module_node module (d_name e) (d_type e))).
Proof.
  assert (set_status (status this) this = this) as Hid by by destruct this.
  unfold mark_entry. rewrite clone_condition_spec.
  destruct (meets_clone_condition _ _ _ _).
  { apply yields_ret. eauto. }
  rewrite Hid. destruct (IS_DIR _).
  { apply yields_seq. destruct (access_F_OK _ _); apply yields_ret; eauto. }
  destruct (IS_REG _); apply yields_ret; eauto.
Qed.

Lemma create_module_tree_entry_status descend module full_path e this :
  yields (fun this' =>
            parent this' = parent this
            /\ status this' =
               if negb (is_dot e) && meets_clone_condition sys (is_root this) full_path e
               then Z.lor (status this) IS_SKEL else status this)
         (create_module_tree_entry h sys descend module full_path e this).
Proof.
  unfold create_module_tree_entry.
  destruct (is_dot e); simpl; [by apply yields_ret|].
  apply yields_seq. eapply yields_bind; [apply mark_entry_yields|].
  intros [this1 node1] (-> & _).
  match goal with |- context [insert ?a ?b] =>
    pose proof (insert_fields a b) as (Hs' & Hp' & _);
    destruct (insert a b) as [this2 i] end.
  cbn [fst status parent set_status] in Hs', Hp'. rewrite <- Hs', <- Hp'.
  destruct (children this2 !! i) as [node2|]; [|by apply yields_ret].
  destruct (has _ node2); [|by apply yields_ret].
  eapply yields_bind; [apply yields_any|].
  intros node3 _. apply yields_ret. by destruct this2.
Qed.

Lemma fold_entries_status descend module full_path entries :
  forall this,
    yields (fun this' =>
              parent this' = parent this
              /\ status this' =
                 if existsb (fun e => negb (is_dot e)
                                      && meets_clone_condition sys (is_root this) full_path e)
                      entries
                 then Z.lor (status this) IS_SKEL else status this)
           (fold_each (create_module_tree_entry h sys descend module full_path)
              entries this).
Proof.
  induction entries as [|e es IH]; intros this.
  - by apply yields_ret.
  - rewrite fold_each_cons. eapply yields_bind; [apply create_module_tree_entry_status|].
    intros this1 [Hp Hs]. intros g. destruct (IH this1 g) as [Hp' Hs'].
    split; [congruence|]. rewrite Hs', Hs.
    assert (is_root this1 = is_root this) as -> by (unfold is_root; by rewrite Hp).
    cbn [existsb].
    clear Hs Hs'.
    destruct (negb (is_dot e) && meets_clone_condition sys (is_root this) full_path e);
      simpl; repeat match goal with |- context [if ?b then _ else _] => destruct b end;
      by rewrite ?lor_skel_idemp.
Qed.

Lemma create_module_tree_in_status dir module up this :
  yields (fun this' =>
            parent this' = parent this
            /\ status this' =
               if existsb (fun e => negb (is_dot e)
                                    && meets_clone_condition sys (is_root this)
                                         (get_path up this) e)
                    (entries_of dir)
               then Z.lor (status this) IS_SKEL else status this)
         (create_module_tree_in h sys dir module up this).
Proof.
  destruct dir as [|entries]; cbn [create_module_tree_in]; do 2 apply yields_seq.
  - by apply yields_ret.
  - apply fold_entries_status.
Qed.
End Composition.

(** What the walk does: [create_module_tree] marks the parent SKEL, by a
    bitwise or that leaves its MODULE flag as it was, and marks the
    candidate MODULE, for an entry that meets the clone condition as the
    code tests it, and leaves the parent as it is for any other entry; after
    the walk the parent carries the SKEL flag if and only if it carried it
    before or some entry other than "." and ".." met that condition. *)
Theorem skeleton_iff_clone_condition (h : magisk_h) (sys : platform)
    (dir : DIR) (modname up : string) (this : node_entry) (g : globals) :
  (forall e g',
      meets_clone_condition sys (is_root this) (get_path up this) e = true ->
      result (mark_entry h sys modname (get_path up this +:+ "/" +:+ d_name e) this
                (new_module_node modname (d_name e) (d_type e)) g')
      = (set_status (Z.lor (status this) IS_SKEL) this,
         set_status IS_MODULE (new_module_node modname (d_name e) (d_type e))))
  /\ (forall e g',
        meets_clone_condition sys (is_root this) (get_path up this) e = false ->
        (result (mark_entry h sys modname (get_path up this +:+ "/" +:+ d_name e) this
                   (new_module_node modname (d_name e) (d_type e)) g')).1 = this)
  /\ status (result (create_module_tree_in h sys dir modname up this g)) =
     (if existsb (fun e => negb (is_dot e)
                           && meets_clone_condition sys (is_root this) (get_path up this) e)
           (entries_of dir)
      then Z.lor (status this) IS_SKEL else status this)
  /\ has IS_SKEL (result (create_module_tree_in h sys dir modname up this g)) =
     has IS_SKEL this
     || existsb (fun e => negb (is_dot e)
                          && meets_clone_condition sys (is_root this) (get_path up this) e)
          (entries_of dir)
  /\ has IS_MODULE (result (create_module_tree_in h sys dir modname up this g)) =
     has IS_MODULE this.
Proof.
  split_and!.
  - intros e g' Hc. unfold mark_entry. by rewrite clone_condition_spec, Hc.
  - intros e g' Hc. unfold mark_entry. rewrite clone_condition_spec, Hc.
    destruct (IS_DIR _); [|by destruct (IS_REG _)].
    rewrite result_bind. by destruct (access_F_OK _ _).
  - apply (create_module_tree_in_status h sys dir modname up this g).
  - destruct (create_module_tree_in_status h sys dir modname up this g) as [_ Hs].
    unfold has. rewrite Hs. destruct (existsb _ _).
    + by rewrite has_skel_lor, orb_true_r.
    + by rewrite orb_false_r.
  - destruct (create_module_tree_in_status h sys dir modname up this g) as [_ Hs].
    unfold has. rewrite Hs. destruct (existsb _ _); [|done].
    by rewrite has_module_lor.
Qed.

(** C3 fails on the code.  On a device whose /system/etc is a symbolic
    link, the entry etc of a module meets the clone condition of the
    specification (its target is itself a symlink, and it is not vendor at
    the root), yet [create_module_tree] leaves the root INTER, without
    SKEL, and walks on below the entry, and magic mount binds the module's
    file through the link: [xstat] follows the link, so the test for a
    symlinked target holds for no entry, and the condition the code tests
    is that the entry is a symlink or has no target. *)
Lemma symlinked_target_not_skeletonized :
  xlstat_S_ISLNK linked "/system/etc" = true
  /\ spec_clone_condition linked true "/system" (Dirent "etc" DT_DIR hosts_etc) = true
  /\ meets_clone_condition linked true "/system" (Dirent "etc" DT_DIR hosts_etc) = false
  /\ result (create_module_tree magisk linked "hosts" "" (new_node "system" IS_INTER 0) boot)
     = Node "" "system" 0 IS_INTER nullptr
         [Node "hosts" "etc" DT_DIR IS_INTER owner
            [Node "hosts" "hosts" DT_REG IS_MODULE owner []]]
  /\ has IS_SKEL
       (result (create_module_tree magisk linked "hosts" "" (new_node "system" IS_INTER 0)
                  boot)) = false
  /\ trace (mount_modules magisk linked (composed magisk linked ["hosts"] boot) boot)
     = [xmount (Some "/sbin/.core/img/hosts/system/etc/hosts") "/system/etc/hosts"
          None MS_BIND]
  /\ (forall sys at_root full_path e,
        meets_clone_condition sys at_root full_path e
        = bool_decide (d_type e = DT_LNK)
          || negb (access_F_OK sys (full_path +:+ "/" +:+ d_name e))).
Proof.
  split_and!; try by vm_compute.
  intros sys at_root full_path e. unfold meets_clone_condition, xstat_S_ISLNK.
  by rewrite andb_false_l, orb_false_r.
Qed.

(** *** Paths *)

Lemma app_cons (a : ascii) (s t : string) : String a s +:+ t = String a (s +:+ t).
Proof. done. Qed.

Lemma app_empty_l (t : string) : "" +:+ t = t.
Proof. done. Qed.

Lemma app_empty_r (s : string) : s +:+ "" = s.
Proof. induction s as [|a s IH]; [done|]. by rewrite app_cons, IH. Qed.

Lemma string_app_assoc (s t u : string) : (s +:+ t) +:+ u = s +:+ t +:+ u.
Proof. induction s as [|a s IH]; [done|]. by rewrite !app_cons, IH. Qed.

Lemma string_app_length (s t : string) :
  String.length (s +:+ t) = (String.length s + String.length t)%nat.
Proof. induction s as [|a s IH]; [done|]. rewrite app_cons. simpl. by rewrite IH. Qed.

Lemma at_or_below_tail (p q : string) :
  at_or_below p q <-> exists r, q = p +:+ r /\ path_tail r.
Proof.
  split.
  - intros [->|[rest ->]].
    + exists "". split; [by rewrite app_empty_r|by left].
    + exists ("/" +:+ rest). split; [done|right; by exists rest].
  - intros (r & -> & [->|[rest ->]]).
    + left. by rewrite app_empty_r.
    + right. by exists rest.
Qed.

Lemma at_or_below_refl (p : string) : at_or_below p p.
Proof. by left. Qed.

Lemma at_or_below_child (p c q : string) :
  at_or_below (p +:+ "/" +:+ c) q -> at_or_below p q.
Proof.
  intros [->|[rest ->]]; right.
  - by exists c.
  - exists (c +:+ "/" +:+ rest). by rewrite !string_app_assoc.
Qed.

Lemma below_not_self (p c : string) : p +:+ "/" +:+ c ≠ p.
Proof.
  intros H. apply (f_equal String.length) in H.
  rewrite !string_app_length in H. simpl in H. lia.
Qed.

Lemma child_not_at_or_below (p c : string) : ~ at_or_below (p +:+ "/" +:+ c) p.
Proof.
  intros [H|[rest H]].
  - symmetry in H. by apply below_not_self in H.
  - apply (f_equal String.length) in H.
    rewrite !string_app_length in H. simpl in H. lia.
Qed.

Lemma slash_free_split (a b r1 r2 : string) :
  slash_free a = true -> slash_free b = true -> path_tail r1 -> path_tail r2 ->
  a +:+ r1 = b +:+ r2 -> a = b.
Proof.
  revert b. induction a as [|x a IH]; intros [|y b] Ha Hb H1 H2 Heq.
  - done.
  - rewrite app_empty_l, app_cons in Heq. simpl in Hb.
    apply andb_true_iff in Hb as [Hy%negb_true_iff%bool_decide_eq_false _].
    destruct H1 as [->|[rest ->]]; [done|]. by injection Heq as <- _.
  - rewrite app_empty_l, app_cons in Heq. simpl in Ha.
    apply andb_true_iff in Ha as [Hx%negb_true_iff%bool_decide_eq_false _].
    destruct H2 as [->|[rest ->]]; [done|]. by injection Heq as -> _.
  - rewrite !app_cons in Heq. injection Heq as -> Heq. f_equal.
    simpl in Ha, Hb. apply andb_true_iff in Ha as [_ Ha].
    apply andb_true_iff in Hb as [_ Hb]. by apply (IH b Ha Hb H1 H2).
Qed.

(** Two siblings with different names have nothing in common below them. *)
Lemma siblings_disjoint (p a b q : string) :
  slash_free a = true -> slash_free b = true ->
  at_or_below (p +:+ "/" +:+ a) q -> at_or_below (p +:+ "/" +:+ b) q -> a = b.
Proof.
  intros Ha Hb (r1 & -> & H1)%at_or_below_tail (r2 & Heq & H2)%at_or_below_tail.
  rewrite !string_app_assoc in Heq.
  apply (inj (String.app p)) in Heq. rewrite !app_cons, !app_empty_l in Heq.
  injection Heq as Heq. by apply (slash_free_split a b r1 r2).
Qed.

(** *** Finished trees *)

Lemma finished_unfold (n : node_entry) :
  finished n = true <->
  slash_free (name n) = true
  /\ NoDup (name <$> children n)
  /\ Forall (fun c => parent c = owner /\ finished c = true) (children n).
Proof.
  destruct n as [m nm t s p cs]. cbn [finished name children].
  rewrite !andb_true_iff, bool_decide_eq_true, forallb_forall, Forall_forall.
  split.
  - intros [[Hs Hnd] Hall]. split_and!; [done..|]. intros c Hc%list_elem_of_In.
    apply Hall in Hc. by apply andb_true_iff in Hc as [Hp%bool_decide_eq_true Hf].
  - intros (Hs & Hnd & Hall). split_and!; [done..|]. intros c Hc%list_elem_of_In.
    apply Hall in Hc as [Hp Hf]. apply andb_true_iff. by rewrite bool_decide_eq_true.
Qed.

Lemma finished_set_parent (p : backref) (n : node_entry) :
  finished (set_parent p n) = finished n.
Proof. by destruct n. Qed.

Lemma insert_loop_Forall (P : node_entry -> Prop) (cs : list node_entry) (node : node_entry) :
  Forall P cs -> P node -> Forall P (insert_loop cs node).1.
Proof.
  intros Hcs Hn. induction Hcs as [|c cs Hc Hcs IH]; simpl.
  - by repeat constructor.
  - repeat case_bool_decide; simpl; try by constructor.
    destruct (insert_loop cs node). by constructor.
Qed.

Lemma insert_finished (this node : node_entry) :
  finished this = true -> finished node = true -> finished (insert this node).1 = true.
Proof.
  rewrite !finished_unfold. intros (Hn & Hnd & Hcs) Hnode.
  pose proof (insert_fields this node) as (_ & _ & Hname & _).
  split_and!.
  - by rewrite Hname.
  - by apply insert_NoDup.
  - unfold insert.
    pose proof (insert_loop_Forall _ (children this) (set_parent owner node) Hcs) as H.
    destruct (insert_loop _ _) as [cs i]. cbn [fst children set_children] in *.
    apply H. split; [by destruct node|].
    rewrite finished_set_parent. by apply finished_unfold.
Qed.

Lemma insert_dummies_finished (entries : list dirent) (this : node_entry) :
  Forall (fun e => slash_free (d_name e) = true) entries ->
  finished this = true -> finished (insert_dummies entries this) = true.
Proof.
  intros He. revert this. unfold insert_dummies.
  induction He as [|e es He _ IH]; intros this Hthis; simpl; [done|].
  apply IH. destruct (is_dot e); [done|].
  apply insert_finished; [done|]. apply finished_unfold. simpl.
  split_and!; [done|constructor|constructor].
Qed.

Lemma insert_dummies_fields (entries : list dirent) (this : node_entry) :
  status (insert_dummies entries this) = status this
  /\ parent (insert_dummies entries this) = parent this
  /\ name (insert_dummies entries this) = name this.
Proof.
  revert this. unfold insert_dummies.
  induction entries as [|e es IH]; intros this; simpl; [done|].
  destruct (IH (if is_dot e then this
                else (insert this (new_node (d_name e) IS_DUMMY (d_type e))).1))
    as (-> & -> & ->).
  destruct (is_dot e); [done|].
  pose proof (insert_fields this (new_node (d_name e) IS_DUMMY (d_type e))) as (? & ? & ? & _).
  done.
Qed.

(** *** The targets of skeleton synthesis *)

Lemma mount_targets_app (t1 t2 : list syscall) :
  mount_targets (t1 ++ t2) = mount_targets t1 ++ mount_targets t2.
Proof. apply omap_app. Qed.

Section Skeleton.
Context (h : magisk_h) (sys : platform).

Lemma clone_skeleton_child_targets descend this full_path child g :
  (is_root this && bool_decide (name child = "vendor") = true ->
   mount_targets (trace (clone_skeleton_child h descend this full_path child g)) = [])
  /\ (mount_targets (trace (clone_skeleton_child h descend this full_path child g)) = []
      \/ mount_targets (trace (clone_skeleton_child h descend this full_path child g))
         = [full_path +:+ "/" +:+ name child]
      \/ exists g',
          mount_targets (trace (clone_skeleton_child h descend this full_path child g))
          = mount_targets (trace (descend full_path child g'))).
Proof.
  unfold clone_skeleton_child. rewrite !trace_bind, !mount_targets_app.
  set (g1 := final (set_buf _ g)).
  assert (mount_targets (trace (set_buf (full_path +:+ "/" +:+ name child) g)) = []) as -> by done.
  match goal with |- context [mount_targets (trace (?m g1))] =>
    assert (mount_targets (trace (m g1)) = []) as Hm
  end.
  { by destruct (IS_DIR child), (IS_REG child). }
  rewrite Hm. clear Hm. cbn [app].
  set (g2 := final (_ g1)). clearbody g2. clear g1.
  destruct (is_root this && bool_decide (name child = "vendor")).
  { split; [intros _|left]; io_simpl; by destruct (seperate_vendor g2). }
  split; [done|].
  destruct (has IS_MODULE child).
  { destruct (IS_LNK child); [left|right; left]; by io_simpl. }
  destruct (has (Z.lor IS_SKEL IS_INTER) child).
  { right; right. exists g2. io_simpl.
    destruct (descend full_path child g2) as [[[] g3] t3]. simpl.
    by rewrite !app_nil_r. }
  destruct (has IS_DUMMY child);
    (destruct (IS_LNK child); [left|right; left]; by io_simpl).
Qed.

Lemma clone_skeleton_fuel_targets fuel up this g :
  exists g',
    mount_targets (trace (clone_skeleton_fuel h sys (S fuel) up this g)) =
    match xopendir sys (MIRRDIR h +:+ get_path up this) with
    | NULL => []
    | Stream entries =>
        (if has IS_SKEL (insert_dummies entries this) then [get_path up this] else [])
        ++ mount_targets
             (trace (for_each
                       (clone_skeleton_child h (clone_skeleton_fuel h sys fuel)
                          (insert_dummies entries this) (get_path up this))
                       (children (insert_dummies entries this)) g'))
    end.
Proof.
  cbn [clone_skeleton_fuel]. unfold clone_skeleton_body.
  rewrite !trace_bind, !mount_targets_app.
  destruct (xopendir sys _) as [|entries]; [by exists g|].
  rewrite !trace_bind, !mount_targets_app. eexists.
  assert (forall s g0, mount_targets (trace (set_buf s g0)) = []) as Hb by done.
  rewrite !Hb. cbn [app]. f_equal. by destruct (has IS_SKEL _).
Qed.
End Skeleton.

Lemma for_each_targets {A} (f : A -> io unit) (R : A -> string -> Prop) (l : list A) :
  (forall x g, x ∈ l -> Forall (R x) (mount_targets (trace (f x g)))) ->
  forall g, Forall (fun t => exists x, x ∈ l /\ R x t)
              (mount_targets (trace (for_each f l g))).
Proof.
  induction l as [|x l IH]; intros Hf g; [constructor|].
  rewrite for_each_cons, trace_bind, mount_targets_app. apply Forall_app. split.
  - eapply Forall_impl; [apply Hf; left|]. intros t Ht. exists x. split; [left|done].
  - eapply Forall_impl; [apply IH|].
    + intros y g' Hy. apply Hf. by right.
    + intros t (y & Hy & Ht). exists y. split; [by right|done].
Qed.

Lemma for_each_targets_NoDup {A} (f : A -> io unit) (R : A -> string -> Prop) (l : list A) :
  (forall x g, x ∈ l -> Forall (R x) (mount_targets (trace (f x g)))
                        /\ NoDup (mount_targets (trace (f x g)))) ->
  (forall i j x y t, l !! i = Some x -> l !! j = Some y -> i ≠ j -> R x t -> R y t -> False) ->
  forall g, NoDup (mount_targets (trace (for_each f l g))).
Proof.
  induction l as [|x l IH]; intros Hf Hdis g; [constructor|].
  rewrite for_each_cons, trace_bind, mount_targets_app. apply NoDup_app. split_and!.
  - apply Hf. left.
  - intros t Ht Ht'.
    destruct (Hf x g) as [HR _]; [left|]. rewrite Forall_forall in HR.
    apply HR in Ht.
    pose proof (for_each_targets f R l (fun y g' Hy => proj1 (Hf y g' (list_elem_of_further _ _ _ Hy)))
                  (final (f x g))) as Hrest.
    rewrite Forall_forall in Hrest. apply Hrest in Ht' as (y & Hy & HRy).
    apply list_elem_of_lookup in Hy as [j Hj].
    by apply (Hdis 0%nat (S j) x y t).
  - apply IH.
    + intros y g' Hy. apply Hf. by right.
    + intros i j y z t Hi Hj Hij. apply (Hdis (S i) (S j)); [done..|lia].
Qed.

Lemma dir_names_ok_entries (dir : DIR) :
  dir_names_ok dir = true ->
  Forall (fun e => slash_free (d_name e) = true /\ dir_names_ok (d_open e) = true)
    (entries_of dir).
Proof.
  destruct dir as [|entries]; simpl; [constructor|].
  rewrite forallb_forall, Forall_forall. intros H e He%list_elem_of_In.
  by apply H, andb_true_iff in He.
Qed.

Lemma NoDup_names_lookup (l : list node_entry) (i j : nat) (x y : node_entry) :
  NoDup (name <$> l) -> l !! i = Some x -> l !! j = Some y -> name x = name y -> i = j.
Proof.
  intros Hnd Hi Hj Hxy. eapply NoDup_lookup; [exact Hnd| |].
  - by rewrite list_lookup_fmap, Hi.
  - by rewrite list_lookup_fmap, Hj, Hxy.
Qed.

Section Targets.
Context (h : magisk_h) (sys : platform) (Hsys : entry_names_ok sys).

(** The targets of a loop over the children of a finished node, each
    child mounting at or below its own path only. *)
Lemma children_targets (f : node_entry -> io unit) (full_path : string)
    (cs : list node_entry) :
  NoDup (name <$> cs) ->
  Forall (fun c => slash_free (name c) = true) cs ->
  (forall c g, c ∈ cs ->
      Forall (at_or_below (full_path +:+ "/" +:+ name c)) (mount_targets (trace (f c g)))
      /\ NoDup (mount_targets (trace (f c g)))) ->
  forall g,
    Forall (fun t => exists c, c ∈ cs /\ at_or_below (full_path +:+ "/" +:+ name c) t)
      (mount_targets (trace (for_each f cs g)))
    /\ NoDup (mount_targets (trace (for_each f cs g))).
Proof.
  intros Hnd Hsf Hf g. split.
  - apply (for_each_targets f (fun c => at_or_below (full_path +:+ "/" +:+ name c))).
    intros c g' Hc. by apply Hf.
  - apply (for_each_targets_NoDup f (fun c => at_or_below (full_path +:+ "/" +:+ name c)));
      [done|].
    intros i j x y t Hi Hj Hij Hx Hy. apply Hij.
    eapply NoDup_names_lookup; [done..|].
    rewrite Forall_forall in Hsf.
    eapply siblings_disjoint; [| |exact Hx|exact Hy].
    + apply Hsf. by eapply list_elem_of_lookup_2.
    + apply Hsf. by eapply list_elem_of_lookup_2.
Qed.

Lemma finished_children (n : node_entry) :
  finished n = true ->
  NoDup (name <$> children n)
  /\ Forall (fun c => slash_free (name c) = true) (children n)
  /\ Forall (fun c => parent c = owner /\ finished c = true) (children n).
Proof.
  intros (_ & Hnd & Hall)%finished_unfold. split_and!; [done| |done].
  eapply Forall_impl; [exact Hall|]. intros c [_ Hc%finished_unfold]. apply Hc.
Qed.

Lemma clone_skeleton_fuel_unique fuel :
  forall up this g,
    finished this = true ->
    Forall (at_or_below (get_path up this))
      (mount_targets (trace (clone_skeleton_fuel h sys fuel up this g)))
    /\ NoDup (mount_targets (trace (clone_skeleton_fuel h sys fuel up this g))).
Proof.
  induction fuel as [|fuel IH]; intros up this g Hfin.
  { split; constructor. }
  destruct (clone_skeleton_fuel_targets h sys fuel up this g) as [g' ->].
  pose proof (dir_names_ok_entries _ (Hsys (MIRRDIR h +:+ get_path up this))) as Hent.
  destruct (xopendir sys _) as [|entries]; [split; constructor|].
  simpl in Hent.
  assert (finished (insert_dummies entries this) = true) as Hfin'.
  { apply insert_dummies_finished; [|done].
    eapply Forall_impl; [exact Hent|]. by intros e [? _]. }
  destruct (finished_children _ Hfin') as (Hnd & Hsf & Hall).
  set (this' := insert_dummies entries this) in *.
  set (full_path := get_path up this) in *.
  destruct (children_targets
              (clone_skeleton_child h (clone_skeleton_fuel h sys fuel) this' full_path)
              full_path (children this') Hnd Hsf) with (g := g') as [Hbelow Hnodup].
  { intros c g0 Hc. rewrite Forall_forall in Hall. destruct (Hall c Hc) as [Hp Hc'].
    destruct (clone_skeleton_child_targets h (clone_skeleton_fuel h sys fuel)
                this' full_path c g0) as [_ [->|[->|[g1 ->]]]].
    - split; constructor.
    - split; [|apply NoDup_singleton].
      constructor; [apply at_or_below_refl|constructor].
    - replace (full_path +:+ "/" +:+ name c) with (get_path full_path c)
        by (unfold get_path; by rewrite Hp).
      by apply IH. }
  split.
  - apply Forall_app. split.
    + destruct (has IS_SKEL this'); [|constructor].
      constructor; [apply at_or_below_refl|constructor].
    + eapply Forall_impl; [exact Hbelow|].
      intros t (c & _ & Ht). by eapply at_or_below_child.
  - apply NoDup_app. split_and!; [|
      |done].
    + destruct (has IS_SKEL this'); [apply NoDup_singleton|constructor].
    + intros t Ht Ht'. rewrite Forall_forall in Hbelow.
      apply Hbelow in Ht' as (c & _ & Hc).
      destruct (has IS_SKEL this'); [|by apply elem_of_nil in Ht].
      apply list_elem_of_singleton in Ht as ->.
      by apply child_not_at_or_below in Hc.
Qed.

Lemma magic_mount_unique this :
  forall up g,
    finished this = true ->
    Forall (at_or_below (get_path up this))
      (mount_targets (trace (magic_mount h sys up this g)))
    /\ NoDup (mount_targets (trace (magic_mount h sys up this g))).
Proof.
  induction this as [m n t s p cs IH] using node_entry_nested_ind; intros up g Hfin.
  cbn [magic_mount]. set (this := Node m n t s p cs) in *.
  destruct (has IS_MODULE this).
  { replace (mount_targets _) with [get_path up this] by by io_simpl.
    split; [|apply NoDup_singleton].
    constructor; [apply at_or_below_refl|constructor]. }
  destruct (has IS_SKEL this).
  { by apply clone_skeleton_fuel_unique. }
  destruct (has IS_INTER this); [|split; constructor].
  destruct (finished_children _ Hfin) as (Hnd & Hsf & Hall).
  destruct (children_targets (magic_mount h sys (get_path up this)) (get_path up this)
              (children this) Hnd Hsf) with (g := g) as [Hbelow Hnodup].
  { intros c g0 Hc. rewrite Forall_forall in Hall, IH. destruct (Hall c Hc) as [Hp Hc'].
    replace (get_path up this +:+ "/" +:+ name c) with (get_path (get_path up this) c)
      by (unfold get_path at 1; by rewrite Hp).
    by apply IH. }
  split; [|done]. eapply Forall_impl; [exact Hbelow|].
  intros t' (c & _ & Ht). by eapply at_or_below_child.
Qed.
End Targets.

(** *** Composition yields finished trees *)

Lemma finished_set_status (s : Z) (n : node_entry) :
  finished (set_status s n) = finished n.
Proof. by destruct n. Qed.

Lemma yields_fold_each {A S} (I : S -> Prop) (f : A -> S -> io S) (l : list A) :
  (forall x s, x ∈ l -> I s -> yields I (f x s)) ->
  forall s, I s -> yields I (fold_each f l s).
Proof.
  induction l as [|x l IH]; intros Hf s Hs; [by apply yields_ret|].
  rewrite fold_each_cons. eapply yields_bind; [apply Hf; [left|done]|].
  intros s' Hs'. apply IH; [|done]. intros y s'' Hy. apply Hf. by right.
Qed.

Section Finished.
Context (h : magisk_h) (sys : platform).

Lemma create_module_tree_entry_finished descend module full_path e this0 this :
  slash_free (d_name e) = true ->
  same_node this0 this ->
  (forall up node, finished node = true -> yields (same_node node) (descend (d_open e) up node)) ->
  yields (same_node this0)
    (create_module_tree_entry h sys descend module full_path e this).
Proof.
  intros Hname (Hfin & Hn & Hp) Hd. unfold create_module_tree_entry.
  destruct (is_dot e); [by apply yields_ret|].
  apply yields_seq. eapply yields_bind; [apply mark_entry_yields|].
  intros [this1 node1] (-> & s & ->).
  match goal with |- context [insert ?a ?b] =>
    pose proof (insert_fields a b) as (_ & Hp' & Hn' & _);
    pose proof (insert_finished a b) as Hfin';
    destruct (insert a b) as [this2 i] end.
  cbn [fst] in *. rewrite !finished_set_status in Hfin'.
  assert (finished this2 = true) as Hfin2.
  { apply Hfin'; [done|]. apply finished_unfold. simpl. split_and!; [done|constructor..]. }
  assert (same_node this0 this2) as Hsame.
  { split_and!; [done|by rewrite Hn', <- Hn|by rewrite Hp', <- Hp]. }
  destruct (children this2 !! i) as [node2|] eqn:Hi; [|by apply yields_ret].
  destruct (has _ node2); [|by apply yields_ret].
  apply finished_unfold in Hfin2 as (Hsf & Hnd & Hall).
  pose proof (Forall_lookup_1 _ _ _ _ Hall Hi) as [Hp2 Hfin2].
  eapply yields_bind; [by apply Hd|].
  intros node3 (Hfin3 & Hn3 & Hp3). apply yields_ret.
  destruct Hsame as (_ & Hsn & Hsp).
  split_and!; [|by destruct this2..].
  apply finished_unfold. destruct this2 as [m2 n2 t2 s2 p2 cs2]. simpl in *.
  split_and!; [done| |].
  - rewrite list_fmap_insert, Hn3. rewrite list_insert_id; [done|].
    by rewrite list_lookup_fmap, Hi.
  - apply Forall_insert; [done|]. split; [congruence|done].
Qed.

Lemma create_module_tree_in_finished dir :
  dir_names_ok dir = true ->
  forall module up this,
    finished this = true ->
    yields (same_node this) (create_module_tree_in h sys dir module up this).
Proof.
  induction dir as [|entries IH] using DIR_nested_ind; intros Hok module up this Hfin;
    cbn [create_module_tree_in]; do 2 apply yields_seq.
  { by apply yields_ret. }
  apply dir_names_ok_entries in Hok. simpl in Hok.
  apply yields_fold_each; [|done].
  intros e this' He Hsame. rewrite Forall_forall in IH, Hok.
  destruct (Hok e He) as [Hname Hopen].
  apply create_module_tree_entry_finished; [done..|].
  intros up' node Hnode. by apply IH.
Qed.

Lemma load_modules_finished (Hsys : entry_names_ok sys) modules :
  forall sys_root has_modules,
    finished sys_root = true ->
    yields (fun r => same_node sys_root r.1)
      (load_modules h sys modules sys_root has_modules).
Proof.
  induction modules as [|m ms IH]; intros sys_root has_modules Hfin;
    cbn [load_modules].
  { by apply yields_ret. }
  do 3 apply yields_seq. destruct (negb _); [by apply IH|].
  apply yields_seq. destruct (negb _); [by apply IH|].
  do 2 apply yields_seq.
  eapply yields_bind; [by apply create_module_tree_in_finished|].
  intros root (Hfin' & Hn & Hp). intros g.
  destruct (IH root true Hfin' g) as (? & ? & ?).
  split_and!; [done|congruence..].
Qed.

Lemma extract_loop_finished (cs : list node_entry) (nm : string) :
  slash_free nm = true ->
  Forall (fun c => parent c = owner /\ finished c = true) cs ->
  name <$> (extract_loop cs nm).1 = name <$> cs
  /\ Forall (fun c => parent c = owner /\ finished c = true) (extract_loop cs nm).1
  /\ forall node, (extract_loop cs nm).2 = Some node ->
       finished node = true /\ name node = nm /\ parent node = nullptr.
Proof.
  intros Hnm Hcs. induction Hcs as [|c cs [Hp Hc] Hcs IH]; cbn [extract_loop].
  { split_and!; [done|constructor|done]. }
  case_bool_decide as Hname.
  - cbn [fst snd]. split_and!.
    + by rewrite !fmap_cons, Hname.
    + constructor; [|done]. split; [done|]. apply finished_unfold. simpl.
      split_and!; [done|constructor..].
    + intros node [= <-]. rewrite finished_set_parent. by destruct c.
  - destruct (extract_loop cs nm) as [rest r]. cbn [fst snd] in *.
    destruct IH as (IHn & Hrest & Hr).
    split_and!; [by rewrite !fmap_cons, IHn|by constructor|done].
Qed.

Lemma extract_finished (this : node_entry) (nm : string) :
  slash_free nm = true -> finished this = true ->
  same_node this (extract this nm).1
  /\ forall node, (extract this nm).2 = Some node ->
       finished node = true /\ name node = nm /\ parent node = nullptr.
Proof.
  intros Hnm (Hsf & Hnd & Hall)%finished_unfold. unfold extract.
  destruct (extract_loop_finished (children this) nm Hnm Hall) as (Hnames & Hall' & Hr).
  destruct (extract_loop _ _) as [cs r]. simpl in *.
  split; [|done]. split_and!; [|by destruct this..].
  apply finished_unfold. destruct this. simpl in *. by rewrite Hnames.
Qed.
End Finished.

Lemma root_paths_disjoint (a b t : string) :
  slash_free a = true -> slash_free b = true -> a ≠ b ->
  at_or_below ("/" +:+ a) t -> at_or_below ("/" +:+ b) t -> False.
Proof.
  intros Ha Hb Hab H1 H2. apply Hab.
  by apply (siblings_disjoint "" a b t).
Qed.

(** C5: the tree that post-fs-data composes from the modules is finished,
    and the mounts, bind and tmpfs, that [magic_mount] and
    [clone_skeleton] emit for a finished tree, and those emitted for the
    composed tree and the vendor tree pulled out of it, have pairwise
    different targets. *)
Theorem mount_targets_unique (h : magisk_h) (sys : platform)
    (modules : list string) (g g' : globals) :
  entry_names_ok sys ->
  (forall this up g0,
      finished this = true ->
      NoDup (mount_targets (trace (magic_mount h sys up this g0)))
      /\ NoDup (mount_targets (trace (clone_skeleton h sys up this g0))))
  /\ finished (composed h sys modules g) = true
  /\ NoDup (mount_targets (trace (mount_modules h sys (composed h sys modules g) g'))).
Proof.
  intros Hsys. split_and!.
  - intros this up g0 Hfin. split.
    + by apply magic_mount_unique.
    + by apply clone_skeleton_fuel_unique.
  - by apply (load_modules_finished h sys Hsys modules _ false).
  - unfold composed.
    destruct (load_modules_finished h sys Hsys modules (new_node "system" IS_INTER 0) false
                eq_refl g) as (Hfin & Hn & Hp).
    set (root := (result _).1) in *. unfold mount_modules.
    destruct (extract_finished root "vendor" eq_refl Hfin) as [(Hfin' & Hn' & Hp') Hven].
    destruct (extract root "vendor") as [sys_root ven_root]. cbn [fst snd] in *.
    rewrite trace_bind, mount_targets_app.
    destruct (magic_mount_unique h sys Hsys sys_root "" g' Hfin') as [Hbelow Hnd].
    apply NoDup_app. split_and!; [done| |].
    + intros t Ht. destruct ven_root as [ven_root|]; [|by intros ?%elem_of_nil].
      destruct (Hven ven_root eq_refl) as (Hfinv & Hnv & Hpv). intros Ht'.
      destruct (magic_mount_unique h sys Hsys ven_root ""
                  (final (magic_mount h sys "" sys_root g')) Hfinv) as [Hbelowv _].
      rewrite Forall_forall in Hbelow, Hbelowv.
      apply Hbelow in Ht. apply Hbelowv in Ht'. unfold get_path in Ht, Ht'.
      rewrite Hp', Hp, Hn', Hn in Ht. rewrite Hpv, Hnv in Ht'. simpl in Ht.
      by apply (root_paths_disjoint "system" "vendor" t).
    + destruct ven_root as [ven_root|]; [|constructor].
      destruct (Hven ven_root eq_refl) as (Hfinv & _). by apply magic_mount_unique.
Qed.

(** *** The vendor exception *)

Lemma for_each_trace_elem_keeps {A B} (fl : globals -> B) (f : A -> io unit)
    (l : list A) (x : A) (g : globals) :
  (forall y, keeps fl (f y)) -> x ∈ l ->
  exists before after g',
    trace (for_each f l g) = before ++ trace (f x g') ++ after /\ fl g' = fl g.
Proof.
  intros Hk Hx. revert g. induction Hx as [x l|x y l Hx IH]; intros g.
  - exists [], (trace (for_each f l (final (f x g)))), g.
    by rewrite for_each_cons, trace_bind.
  - destruct (IH (final (f y g))) as (before & after & g' & Heq & Hfl).
    exists (trace (f y g) ++ before), after, g'.
    rewrite for_each_cons, trace_bind, Heq, <- app_assoc. split; [done|].
    by rewrite Hfl, Hk.
Qed.

Lemma height_S (n : node_entry) : exists fuel, height n = S fuel.
Proof. destruct n. simpl. by eexists. Qed.

Section Vendor.
Context (h : magisk_h) (sys : platform).

Lemma clone_skeleton_fuel_trace fuel up this g entries :
  xopendir sys (MIRRDIR h +:+ get_path up this) = Stream entries ->
  exists before g',
    trace (clone_skeleton_fuel h sys (S fuel) up this g) =
    before ++ trace (for_each
                       (clone_skeleton_child h (clone_skeleton_fuel h sys fuel)
                          (insert_dummies entries this) (get_path up this))
                       (children (insert_dummies entries this)) g')
    /\ seperate_vendor g' = seperate_vendor g.
Proof.
  intros Hdir. cbn [clone_skeleton_fuel]. unfold clone_skeleton_body.
  rewrite !trace_bind, Hdir, !trace_bind.
  rewrite !app_assoc. eexists _, _. split; [done|].
  destruct g. by destruct (has IS_SKEL _).
Qed.

Lemma clone_skeleton_child_vendor descend this full_path child g :
  is_root this = true -> name child = "vendor" -> seperate_vendor g = true ->
  cp_afc (MIRRDIR h +:+ "/system/vendor") "/system/vendor"
    ∈ trace (clone_skeleton_child h descend this full_path child g).
Proof.
  intros Hroot Hname Hsep. unfold clone_skeleton_child.
  rewrite Hroot, Hname. simpl andb. cbv iota.
  rewrite !trace_bind, !elem_of_app. do 3 right.
  match goal with |- context [final (?m ?g0)] =>
    assert (seperate_vendor (final (m g0)) = true) as Hs end.
  { destruct g. by destruct (IS_DIR child), (IS_REG child). }
  revert Hs. generalize (final ((if IS_DIR child
                                 then emit (xmkdir (full_path +:+ "/" +:+ "vendor") mode_0755)
                                 else if IS_REG child
                                      then emit (creat (full_path +:+ "/" +:+ "vendor") mode_0644)
                                      else mret ())
                                (final (set_buf (full_path +:+ "/" +:+ "vendor") g)))).
  intros g1 Hs. io_simpl. rewrite Hs. left.
Qed.
End Vendor.

(** C6: skeleton synthesis of the system root, on a finished tree, mounts
    nothing, bind or tmpfs, at /system/vendor or below it, whether or not
    there is a separate vendor partition: the child named vendor is passed
    over.  When there is a separate vendor partition the mirror's vendor
    is copied to /system/vendor instead. *)
Theorem vendor_skipped_in_system_skeleton (h : magisk_h) (sys : platform)
    (this : node_entry) (up : string) (g : globals) :
  entry_names_ok sys ->
  finished this = true -> name this = "system" -> parent this = nullptr ->
  Forall (fun t => ~ at_or_below "/system/vendor" t)
    (mount_targets (trace (clone_skeleton h sys up this g)))
  /\ (seperate_vendor g = true ->
      forall entries,
        xopendir sys (MIRRDIR h +:+ "/system") = Stream entries ->
        (exists c, c ∈ children (insert_dummies entries this) /\ name c = "vendor") ->
        cp_afc (MIRRDIR h +:+ "/system/vendor") "/system/vendor"
          ∈ trace (clone_skeleton h sys up this g)).
Proof.
  intros Hsys Hfin Hname Hparent.
  assert (get_path up this = "/system") as Hpath.
  { unfold get_path. by rewrite Hparent, Hname. }
  unfold clone_skeleton. destruct (height_S this) as [fuel ->].
  assert (forall entries, is_root (insert_dummies entries this) = true) as Hroot.
  { intros entries. unfold is_root.
    destruct (insert_dummies_fields entries this) as (_ & -> & _). by rewrite Hparent. }
  split.
  - destruct (clone_skeleton_fuel_targets h sys fuel up this g) as [g' ->]. rewrite Hpath.
    pose proof (dir_names_ok_entries _ (Hsys (MIRRDIR h +:+ "/system"))) as Hent.
    destruct (xopendir sys _) as [|entries]; [constructor|]. simpl in Hent.
    assert (finished (insert_dummies entries this) = true) as Hfin'.
    { apply insert_dummies_finished; [|done].
      eapply Forall_impl; [exact Hent|]. by intros e [? _]. }
    destruct (finished_children _ Hfin') as (Hnd & Hsf & Hall).
    apply Forall_app. split.
    { destruct (has IS_SKEL _); [|constructor]. constructor; [|constructor].
      apply (child_not_at_or_below "/system" "vendor"). }
    eapply Forall_impl;
      [apply (for_each_targets _
                (fun c t => name c ≠ "vendor" /\ slash_free (name c) = true
                            /\ at_or_below ("/system" +:+ "/" +:+ name c) t))|].
    + intros c g0 Hc. rewrite Forall_forall in Hall, Hsf.
      destruct (Hall c Hc) as [Hp Hc']. specialize (Hsf c Hc).
      destruct (clone_skeleton_child_targets h (clone_skeleton_fuel h sys fuel)
                  (insert_dummies entries this) "/system" c g0) as [Hv Hcases].
      destruct (decide (name c = "vendor")) as [Hvendor|Hvendor].
      { rewrite Hv; [constructor|]. rewrite Hroot. by apply bool_decide_eq_true. }
      destruct Hcases as [->|[->|[g1 ->]]].
      * constructor.
      * constructor; [|constructor]. split_and!; [done..|]. apply at_or_below_refl.
      * replace ("/system" +:+ "/" +:+ name c) with (get_path "/system" c)
          by (unfold get_path; by rewrite Hp).
        eapply Forall_impl; [by apply clone_skeleton_fuel_unique|].
        intros t Ht. by split_and!.
    + intros t (c & _ & Hne & Hsfc & Hb) Hv. apply Hne.
      by apply (siblings_disjoint "/system" (name c) "vendor" t).
  - intros Hsep entries Hdir (c & Hc & Hvendor). rewrite <- Hpath in Hdir.
    destruct (clone_skeleton_fuel_trace h sys fuel up this g entries Hdir)
      as (before & g' & -> & Hg').
    destruct (for_each_trace_elem_keeps seperate_vendor
                (clone_skeleton_child h (clone_skeleton_fuel h sys fuel)
                   (insert_dummies entries this) (get_path up this))
                (children (insert_dummies entries this)) c g')
      as (before' & after & g'' & -> & Hg''); [|done|].
    { intros y. apply keeps_clone_skeleton_child; [done|].
      by apply keeps_clone_skeleton_fuel. }
    rewrite !elem_of_app. right. right. left.
    apply clone_skeleton_child_vendor; [done..|congruence].
Qed.

(** *** The recursion of [clone_skeleton] never runs out of fuel *)

Lemma bind_ext {A B} (m1 m2 : io A) (k1 k2 : A -> io B) (g : globals) :
  m1 g = m2 g -> (forall x g', k1 x g' = k2 x g') -> (m1 ≫= k1) g = (m2 ≫= k2) g.
Proof.
  intros Hm Hk. unfold mbind, io_bind. rewrite Hm.
  destruct (m2 g) as [[x g1] t1]. by rewrite Hk.
Qed.

Lemma for_each_ext {A} (f1 f2 : A -> io unit) (l : list A) :
  (forall x g, x ∈ l -> f1 x g = f2 x g) ->
  forall g, for_each f1 l g = for_each f2 l g.
Proof.
  induction l as [|x l IH]; intros Hf g; [done|].
  rewrite !for_each_cons. apply bind_ext; [apply Hf; left|].
  intros _ g'. apply IH. intros y g'' Hy. apply Hf. by right.
Qed.

Lemma insert_loop_elem (cs : list node_entry) (node c : node_entry) :
  c ∈ (insert_loop cs node).1 -> c ∈ cs \/ c = node.
Proof.
  induction cs as [|x cs IH]; simpl.
  - intros ->%list_elem_of_singleton. by right.
  - repeat case_bool_decide; simpl.
    + intros [->|?]%elem_of_cons; [by right|left; by right].
    + by left.
    + destruct (insert_loop cs node) as [rest i]. simpl in *.
      intros [->|Hc]%elem_of_cons; [left; left|].
      destruct (IH Hc); [left; by right|by right].
Qed.

Lemma insert_dummies_elem (entries : list dirent) (this c : node_entry) :
  c ∈ children (insert_dummies entries this) ->
  c ∈ children this \/ status c = IS_DUMMY.
Proof.
  revert this. unfold insert_dummies.
  induction entries as [|e es IH]; intros this; simpl; [by left|].
  intros Hc%IH. destruct Hc as [Hc|Hc]; [|by right].
  destruct (is_dot e); [by left|].
  unfold insert in Hc.
  pose proof (insert_loop_elem (children this)
                (set_parent owner (new_node (d_name e) IS_DUMMY (d_type e))) c) as H.
  destruct (insert_loop _ _) as [cs i]. simpl in *.
  destruct (H Hc) as [?| ->]; [by left|by right].
Qed.

Lemma height_child (this c : node_entry) :
  c ∈ children this -> (height c < height this)%nat.
Proof.
  intros Hc. destruct this as [m n t s p cs]. simpl in *.
  assert (height c ∈ height <$> cs) as Hin by (apply list_elem_of_fmap; eauto).
  apply max_list_elem_of_le in Hin. lia.
Qed.

Section Fuel.
Context (h : magisk_h) (sys : platform).

Lemma clone_skeleton_child_ext d1 d2 this full_path child :
  (has (Z.lor IS_SKEL IS_INTER) child = true ->
   forall g, d1 full_path child g = d2 full_path child g) ->
  forall g, clone_skeleton_child h d1 this full_path child g
            = clone_skeleton_child h d2 this full_path child g.
Proof.
  intros Hd g. unfold clone_skeleton_child.
  apply bind_ext; [done|]. intros _ g1. apply bind_ext; [done|]. intros _ g2.
  destruct (is_root this && _); [done|].
  apply bind_ext; [|done].
  destruct (has IS_MODULE child); [done|].
  destruct (has (Z.lor IS_SKEL IS_INTER) child); [|done].
  apply bind_ext; [by apply Hd|done].
Qed.

Lemma clone_skeleton_body_ext d1 d2 up this :
  (forall c g, c ∈ children this -> d1 (get_path up this) c g = d2 (get_path up this) c g) ->
  forall g, clone_skeleton_body h sys d1 up this g = clone_skeleton_body h sys d2 up this g.
Proof.
  intros Hd g. unfold clone_skeleton_body.
  apply bind_ext; [done|]. intros _ g1. apply bind_ext; [done|]. intros _ g2.
  destruct (xopendir sys _) as [|entries]; [done|].
  apply bind_ext; [done|]. intros _ g3. apply for_each_ext.
  intros c g4 Hc. apply clone_skeleton_child_ext. intros Hhas g5.
  apply insert_dummies_elem in Hc as [Hc|Hc]; [by apply Hd|].
  unfold has in Hhas. by rewrite Hc in Hhas.
Qed.

Lemma clone_skeleton_fuel_enough fuel1 :
  forall fuel2 up this g,
    (height this <= fuel1)%nat -> (height this <= fuel2)%nat ->
    clone_skeleton_fuel h sys fuel1 up this g = clone_skeleton_fuel h sys fuel2 up this g.
Proof.
  induction fuel1 as [|fuel1 IH]; intros fuel2 up this g H1 H2.
  { destruct (height_S this). lia. }
  destruct fuel2 as [|fuel2]; [destruct (height_S this); lia|].
  cbn [clone_skeleton_fuel]. apply clone_skeleton_body_ext.
  intros c g' Hc%height_child. apply IH; lia.
Qed.

(** [clone_skeleton] satisfies the recursive equation of the source. *)
Lemma clone_skeleton_unfold up this g :
  clone_skeleton h sys up this g
  = clone_skeleton_body h sys (clone_skeleton h sys) up this g.
Proof.
  unfold clone_skeleton at 1. destruct (height_S this) as [fuel Hfuel].
  rewrite Hfuel. cbn [clone_skeleton_fuel]. apply clone_skeleton_body_ext.
  intros c g' Hc%height_child. unfold clone_skeleton.
  apply clone_skeleton_fuel_enough; lia.
Qed.
End Fuel.

(** *** Two modules at one path *)

Lemma insert_loop_keeps (cs : list node_entry) (node c : node_entry) (i : nat) :
  cs !! i = Some c -> ~ status node > status c ->
  (insert_loop cs node).1 !! i = Some c.
Proof.
  revert i. induction cs as [|x cs IH]; intros i Hi Hle; [done|].
  cbn [insert_loop]. destruct (bool_decide (name x = name node)).
  - case_bool_decide as Hgt; [|done]. destruct i as [|i]; [|done].
    injection Hi as ->. done.
  - destruct (insert_loop cs node) as [rest j] eqn:E. cbn [fst].
    destruct i as [|i]; [done|]. simpl in *. by apply IH.
Qed.

Section FirstWins.
Context (h : magisk_h) (sys : platform).




Lemma magic_mount_module up this g :
  has IS_MODULE this = true ->
  trace (magic_mount h sys up this g) =
  [xmount (Some (MOUNTPOINT h +:+ "/" +:+ module this +:+ get_path up this))
     (get_path up this) None MS_BIND].
Proof.
  intros Hm. destruct this as [m n t s p cs]. cbn [magic_mount].
  rewrite Hm. by io_simpl.
Qed.
End FirstWins.



Section LoneFile.
Context (h : magisk_h) (sys : platform).

















End LoneFile.




(** The hypothesis of C5 holds of [phone], and there the targets are
    pairwise different. *)
Lemma mount_targets_unique_phone :
  entry_names_ok phone
  /\ finished (composed magisk phone ["new_tool"] boot_vendor) = true
  /\ NoDup (mount_targets
              (trace (mount_modules magisk phone
                        (composed magisk phone ["new_tool"] boot_vendor) boot_vendor))).
Proof.
  assert (entry_names_ok phone) as Hok.
  { intros path. unfold phone. cbn [xopendir]. repeat case_bool_decide; reflexivity. }
  split; [exact Hok|].
  apply (mount_targets_unique magisk phone ["new_tool"] boot_vendor boot_vendor Hok).
Defined.

(** The hypotheses of C6 hold of the tree composed on [phone], whose root is
    a skeleton; nothing is mounted at /system/vendor, and the mirror's
    vendor is copied there. *)
Lemma vendor_skipped_phone :
  entry_names_ok phone
  /\ finished (composed magisk phone ["new_tool"] boot_vendor) = true
  /\ name (composed magisk phone ["new_tool"] boot_vendor) = "system"
  /\ parent (composed magisk phone ["new_tool"] boot_vendor) = nullptr
  /\ Forall (fun t => ~ at_or_below "/system/vendor" t)
       (mount_targets
          (trace (clone_skeleton magisk phone ""
                    (composed magisk phone ["new_tool"] boot_vendor) boot_vendor)))
  /\ cp_afc "/sbin/.core/mirror/system/vendor" "/system/vendor"
       ∈ trace (clone_skeleton magisk phone ""
                  (composed magisk phone ["new_tool"] boot_vendor) boot_vendor).
Proof.
  assert (entry_names_ok phone) as Hok.
  { intros path. unfold phone. cbn [xopendir]. repeat case_bool_decide; reflexivity. }
  assert (finished (composed magisk phone ["new_tool"] boot_vendor) = true) as Hfin.
  { by vm_compute. }
  assert (name (composed magisk phone ["new_tool"] boot_vendor) = "system") as Hname.
  { by vm_compute. }
  assert (parent (composed magisk phone ["new_tool"] boot_vendor) = nullptr) as Hparent.
  { by vm_compute. }
  destruct (vendor_skipped_in_system_skeleton magisk phone
              (composed magisk phone ["new_tool"] boot_vendor) "" boot_vendor
              Hok Hfin Hname Hparent) as [Hnone Hcopy].
  split_and!; [done..|].
  apply (Hcopy eq_refl (entries_of mirror_system) eq_refl).
  exists (Node "" "vendor" DT_LNK IS_DUMMY owner []). split; [|reflexivity].
  apply list_elem_of_lookup. exists 3%nat. by vm_compute.
Defined.

(** *** Descent along streams and descent along paths *)

Section ByPath.
Context (h : magisk_h) (sys : platform) (Hsys : coherent sys).

(** The recursive call of [create_module_tree] on the node of an entry
    opens the directory of the entry. *)
Lemma create_module_tree_by_path modname full_path entries e node :
  xopendir sys (MOUNTPOINT h +:+ "/" +:+ modname +:+ full_path) = Stream entries ->
  e ∈ entries -> is_dot e = false ->
  parent node = owner -> name node = d_name e ->
  create_module_tree h sys modname full_path node
  = create_module_tree_in h sys (d_open e) modname full_path node.
Proof.
  intros Hdir He Hdot Hp Hn. unfold create_module_tree. f_equal.
  rewrite <- (Hsys _ _ _ Hdir He Hdot). unfold get_path. rewrite Hp, Hn.
  by rewrite !string_app_assoc.
Qed.

(** The recursive call of [simple_mount] opens the directory of the
    entry. *)
Lemma simple_mount_by_path path entries e :
  xopendir sys (SIMPLEMOUNT h +:+ path) = Stream entries ->
  e ∈ entries -> is_dot e = false ->
  simple_mount h sys (path +:+ "/" +:+ d_name e)
  = simple_mount_in h sys (d_open e) (path +:+ "/" +:+ d_name e).
Proof.
  intros Hdir He Hdot. unfold simple_mount. f_equal.
  rewrite <- (Hsys _ _ _ Hdir He Hdot). by rewrite !string_app_assoc.
Qed.
End ByPath.

Ltac coherent_by_cases :=
  intros path entries e Hopen He Hdot; cbn [xopendir phone rivals] in Hopen;
  repeat case_bool_decide; simpl in Hopen; try discriminate Hopen;
  injection Hopen as <-; subst path;
  repeat (apply elem_of_cons in He as [->|He]);
  try (by apply elem_of_nil in He); try discriminate Hdot; reflexivity.

Lemma phone_coherent : coherent phone.
Proof. coherent_by_cases. Qed.

Lemma rivals_coherent : coherent rivals.
Proof. coherent_by_cases. Qed.

(** ** Further properties of the code *)

(** *** Insertion and extraction *)

Lemma insert_loop_append (cs : list node_entry) (node : node_entry) :
  name node ∉ name <$> cs -> insert_loop cs node = (cs ++ [node], length cs).
Proof.
  induction cs as [|c cs IH]; intros Hn; [done|].
  cbn [insert_loop]. rewrite fmap_cons, not_elem_of_cons in Hn. destruct Hn as [Hc Hn].
  rewrite bool_decide_eq_false_2 by done. by rewrite IH.
Qed.

Lemma insert_loop_slot (cs : list node_entry) (node : node_entry) :
  exists c, (insert_loop cs node).1 !! (insert_loop cs node).2 = Some c
            /\ name c = name node.
Proof.
  induction cs as [|c cs IH]; cbn [insert_loop].
  - by exists node.
  - case_bool_decide as Hc.
    + case_bool_decide; [by exists node|by exists c].
    + destruct (insert_loop cs node) as [rest i]. exact IH.
Qed.

Lemma insert_loop_others (cs : list node_entry) (node c : node_entry) (i : nat) :
  cs !! i = Some c -> name c ≠ name node -> (insert_loop cs node).1 !! i = Some c.
Proof.
  revert i. induction cs as [|x cs IH]; intros i Hi Hne; [done|].
  cbn [insert_loop]. case_bool_decide as Hx.
  - destruct i as [|i]; [injection Hi as ->; done|].
    by case_bool_decide.
  - destruct (insert_loop cs node) as [rest j] eqn:E. cbn [fst].
    destruct i as [|i]; [done|]. simpl in *. by apply IH.
Qed.

Lemma insert_loop_length (cs : list node_entry) (node : node_entry) :
  length (insert_loop cs node).1 =
  if bool_decide (name node ∈ name <$> cs) then length cs else S (length cs).
Proof.
  pose proof (insert_loop_names cs node) as H.
  apply (f_equal length) in H. rewrite length_fmap in H. rewrite H.
  case_bool_decide; rewrite ?length_app, !length_fmap; simpl; lia.
Qed.

(** X1: [insert] hands back a slot that holds a node of the inserted name,
    whatever the array held.  A node whose name no child bears is appended
    at the end, with its parent link set; a child of another name keeps its
    slot; and the array grows by one entry exactly when the name is new. *)
Theorem insert_returns_named_slot (this node : node_entry) :
  (exists c, returned (insert this node) = Some c /\ name c = name node)
  /\ (name node ∉ name <$> children this ->
      insert this node =
        (set_children (children this ++ [set_parent owner node]) this,
         length (children this)))
  /\ (forall i c, children this !! i = Some c -> name c ≠ name node ->
                  children (insert this node).1 !! i = Some c)
  /\ length (children (insert this node).1) =
     if bool_decide (name node ∈ name <$> children this)
     then length (children this) else S (length (children this)).
Proof.
  assert (name (set_parent owner node) = name node) as Hname by by destruct node.
  unfold returned, insert. split_and!.
  - destruct (insert_loop_slot (children this) (set_parent owner node)) as (c & Hc & Hn).
    destruct (insert_loop _ _) as [cs i]. exists c. by rewrite <- Hname.
  - intros Hn. rewrite insert_loop_append; [done|by rewrite Hname].
  - intros i c Hi Hne.
    pose proof (insert_loop_others (children this) (set_parent owner node) c i Hi) as H.
    destruct (insert_loop _ _) as [cs j]. apply H. by rewrite Hname.
  - pose proof (insert_loop_length (children this) (set_parent owner node)) as H.
    destruct (insert_loop _ _) as [cs j]. by rewrite Hname in H.
Qed.

(** X2: putting the node that [extract] took out back with [insert]
    restores the tree, provided the node carries a status (the placeholder
    carries none, so the node wins its slot back) and the children pointed
    at their owner, as they do in every tree the source builds. *)
Theorem insert_undoes_extract (this this' node : node_entry) (nm : string) :
  extract this nm = (this', Some node) ->
  Forall (fun c => parent c = owner) (children this) ->
  0 < status node ->
  (insert this' node).1 = this
  /\ returned (insert this' node) = Some (set_parent owner node)
  /\ children this !! (insert this' node).2 = Some (set_parent owner node).
Proof.
  intros Hex Hp Hs. unfold extract in Hex.
  destruct (extract_loop (children this) nm) as [cs r] eqn:E.
  injection Hex as <- ->.
  apply extract_loop_some in E as (l1 & child & l2 & Hcs & Hl1 & Hn & -> & ->).
  assert (parent child = owner) as Hpc.
  { rewrite Hcs in Hp. apply Forall_app in Hp as [_ Hp]. by inversion Hp. }
  assert (set_parent owner (set_parent nullptr child) = child) as Hback.
  { destruct child. simpl in *. by subst. }
  assert (insert_loop (l1 ++ placeholder nm (parent child) :: l2)
            (set_parent owner (set_parent nullptr child))
          = (l1 ++ child :: l2, length l1)) as Hins.
  { rewrite insert_loop_collision.
    - rewrite Hback. rewrite bool_decide_eq_true_2; [done|].
      destruct child; simpl in *. lia.
    - rewrite Hback. by simpl.
    - by rewrite Hback, Hn. }
  unfold returned, insert. cbn [children set_children]. rewrite Hins, Hback.
  cbn [fst snd children set_children]. rewrite <- Hcs.
  split_and!; [by destruct this| |]; by rewrite Hcs, list_lookup_middle.
Qed.

Lemma insert_undoes_extract_vendor :
  extract vendor_tree "vendor"
  = ((extract vendor_tree "vendor").1, Some (set_parent nullptr vendor_node))
  /\ 0 < status (set_parent nullptr vendor_node)
  /\ (insert (extract vendor_tree "vendor").1 (set_parent nullptr vendor_node)).1
     = vendor_tree.
Proof.
  assert (extract vendor_tree "vendor"
          = ((extract vendor_tree "vendor").1, Some (set_parent nullptr vendor_node)))
    as Hex by by vm_compute.
  assert (0 < status (set_parent nullptr vendor_node)) as Hs by by vm_compute.
  split_and!; [done..|].
  apply (insert_undoes_extract vendor_tree _ _ "vendor" Hex); [|done].
  repeat constructor.
Defined.

(** *** The statuses composition hands out *)

Lemma well_marked_unfold (n : node_entry) :
  well_marked n = true <->
  (walked n || leaf n = true) /\ Forall (fun c => well_marked c = true) (children n).
Proof.
  destruct n as [m nm t s p cs]. cbn [well_marked children].
  rewrite andb_true_iff, forallb_forall, Forall_forall.
  split; intros [H1 H2]; (split; [done|]); intros c Hc; apply H2;
    by apply list_elem_of_In.
Qed.

Lemma well_marked_nodes (n : node_entry) :
  well_marked n = true -> Forall (fun c => walked c || leaf c = true) (nodes n).
Proof.
  induction n as [m nm t s p cs IH] using node_entry_nested_ind.
  intros [Hn Hcs]%well_marked_unfold. cbn [nodes children] in *.
  constructor; [done|]. clear Hn.
  induction cs as [|c cs IHcs]; [constructor|]. simpl.
  inversion IH; subst. inversion Hcs; subst.
  apply Forall_app. split; [auto|]. apply IHcs; auto.
Qed.

Section Marks.
Context (h : magisk_h) (sys : platform).

Lemma mark_entry_marks module target this e :
  walked this = true ->
  yields (fun r => walked r.1 = true /\ children r.1 = children this
                   /\ (walked r.2 || leaf r.2 = true) /\ children r.2 = [])
    (mark_entry h sys module target this (new_module_node module (d_name e) (d_type e))).
Proof.
  intros Hw.
  assert (walked (set_status (Z.lor (status this) IS_SKEL) this) = true) as Hw'.
  { unfold walked in *. destruct this as [m nm t s p cs]. simpl in *.
    apply orb_true_iff in Hw as [->%bool_decide_eq_true| ->%bool_decide_eq_true]; done. }
  unfold mark_entry. destruct (clone_condition _ _ _ _).
  { by apply yields_ret. }
  destruct (IS_DIR _).
  { apply yields_seq. destruct (access_F_OK _ _); by apply yields_ret. }
  destruct (IS_REG _); by apply yields_ret.
Qed.

Lemma create_module_tree_entry_marks descend module full_path e this :
  well_marked this = true -> walked this = true ->
  (forall up node, well_marked node = true -> walked node = true ->
      yields (fun r => well_marked r = true /\ walked r = true)
        (descend (d_open e) up node)) ->
  yields (fun r => well_marked r = true /\ walked r = true)
    (create_module_tree_entry h sys descend module full_path e this).
Proof.
  intros [_ Hcs]%well_marked_unfold Hw Hd. unfold create_module_tree_entry.
  destruct (is_dot e).
  { apply yields_ret. split; [|done]. apply well_marked_unfold. by rewrite Hw. }
  apply yields_seq. eapply yields_bind; [by apply mark_entry_marks|].
  intros [this1 node1] (Hw1 & Hcs1 & Hn1 & Hnc1). cbn [fst snd] in *.
  assert (walked (insert this1 node1).1 = true
          /\ Forall (fun c => well_marked c = true) (children (insert this1 node1).1))
    as [Hw2 Hcs2].
  { unfold insert.
    pose proof (insert_loop_Forall (fun c => well_marked c = true) (children this1)
                  (set_parent owner node1)) as H.
    destruct (insert_loop _ _) as [cs i]. cbn [fst children set_children].
    split; [by destruct this1|]. apply H; [by rewrite Hcs1|].
    apply well_marked_unfold. destruct node1. simpl in *. subst. split; [done|constructor]. }
  destruct (insert this1 node1) as [this2 i]. cbn [fst] in *.
  assert (well_marked this2 = true) as Hwm2.
  { apply well_marked_unfold. by rewrite Hw2. }
  destruct (children this2 !! i) as [node2|] eqn:Hi; [|by apply yields_ret].
  destruct (has _ node2) eqn:Hhas; [|by apply yields_ret].
  pose proof (Forall_lookup_1 _ _ _ _ Hcs2 Hi) as Hwm.
  assert (walked node2 = true) as Hwn.
  { apply well_marked_unfold in Hwm as [Hor _].
    apply orb_true_iff in Hor as [?|Hl]; [done|].
    unfold leaf in Hl. apply andb_true_iff in Hl as [Hs _]. unfold has in Hhas.
    apply orb_true_iff in Hs as [Hs%bool_decide_eq_true|Hs%bool_decide_eq_true];
      by rewrite Hs in Hhas. }
  eapply yields_bind; [by apply Hd|].
  intros node3 [Hwm3 Hw3]. apply yields_ret.
  split; [|by destruct this2].
  apply well_marked_unfold. split.
  - replace (walked (set_children _ this2)) with (walked this2) by by destruct this2.
    by rewrite Hw2.
  - destruct this2 as [m2 n2 t2 s2 p2 cs2]. cbn [children set_children] in *.
    by apply Forall_insert.
Qed.

Lemma create_module_tree_in_marks dir :
  forall module up this,
    well_marked this = true -> walked this = true ->
    yields (fun r => well_marked r = true /\ walked r = true)
      (create_module_tree_in h sys dir module up this).
Proof.
  induction dir as [|entries IH] using DIR_nested_ind; intros module up this Hwm Hw;
    cbn [create_module_tree_in]; do 2 apply yields_seq.
  { by apply yields_ret. }
  apply (yields_fold_each (fun r => well_marked r = true /\ walked r = true)); [|done].
  intros e this' He [Hwm' Hw']. rewrite Forall_forall in IH.
  apply create_module_tree_entry_marks; [done..|].
  intros up' node Hn Hwn. by apply IH.
Qed.

Lemma load_modules_marks modules :
  forall sys_root has_modules,
    well_marked sys_root = true -> walked sys_root = true ->
    yields (fun r => well_marked r.1 = true /\ walked r.1 = true)
      (load_modules h sys modules sys_root has_modules).
Proof.
  induction modules as [|m ms IH]; intros sys_root has_modules Hwm Hw;
    cbn [load_modules].
  { by apply yields_ret. }
  do 3 apply yields_seq. destruct (negb _); [by apply IH|].
  apply yields_seq. destruct (negb _); [by apply IH|].
  do 2 apply yields_seq.
  eapply yields_bind; [by apply create_module_tree_in_marks|].
  intros root [Hwm' Hw']. by apply IH.
Qed.
End Marks.

(** X3: in the tree that post-fs-data composes, whatever the modules hold,
    every node is INTER, INTER with SKEL, MODULE or unmarked; a node that is
    MODULE or unmarked has no children; and no node is a dummy: dummies come
    in only while a skeleton is cloned. *)
Theorem composed_statuses (h : magisk_h) (sys : platform) (modules : list string)
    (g : globals) :
  Forall (fun n =>
            status n ∈ [IS_INTER; Z.lor IS_INTER IS_SKEL; IS_MODULE; 0]
            /\ (has (Z.lor IS_SKEL IS_INTER) n = false -> children n = [])
            /\ (has IS_MODULE n = true -> children n = [])
            /\ has IS_DUMMY n = false)
    (nodes (composed h sys modules g)).
Proof.
  unfold composed.
  destruct (load_modules_marks h sys modules (new_node "system" IS_INTER 0) false
              eq_refl eq_refl g) as [Hwm _].
  eapply Forall_impl; [by apply well_marked_nodes|].
  intros n Hn. unfold walked, leaf, has in *.
  apply orb_true_iff in Hn as [Hn|Hn].
  - apply orb_true_iff in Hn as [->%bool_decide_eq_true| ->%bool_decide_eq_true];
      split_and!; try done; rewrite !elem_of_cons; auto 6.
  - apply andb_true_iff in Hn as [Hs Hc].
    assert (children n = []) as -> by by destruct (children n).
    apply orb_true_iff in Hs as [->%bool_decide_eq_true| ->%bool_decide_eq_true];
      split_and!; try done; rewrite !elem_of_cons; auto 6.
Qed.

(** *** The names a module walk adds *)

Section Names.
Context (h : magisk_h) (sys : platform).

Lemma mark_entry_names module target this node :
  yields (fun r => name r.1 = name this /\ children r.1 = children this
                   /\ name r.2 = name node)
    (mark_entry h sys module target this node).
Proof.
  unfold mark_entry. destruct (clone_condition _ _ _ _).
  { apply yields_ret. by destruct this, node. }
  destruct (IS_DIR _).
  { apply yields_seq. destruct (access_F_OK _ _); apply yields_ret; by destruct node. }
  destruct (IS_REG _); apply yields_ret; by destruct node.
Qed.

Lemma create_module_tree_entry_name descend module full_path e this :
  yields (fun r => name r = name this)
    (create_module_tree_entry h sys descend module full_path e this).
Proof.
  unfold create_module_tree_entry. destruct (is_dot e); [by apply yields_ret|].
  apply yields_seq. eapply yields_bind; [apply mark_entry_names|].
  intros [this1 node1] (Hn & _). cbn [fst snd] in *.
  pose proof (insert_fields this1 node1) as (_ & _ & Hn' & _).
  destruct (insert this1 node1) as [this2 i]. cbn [fst] in *.
  destruct (children this2 !! i) as [node2|]; [|apply yields_ret; congruence].
  destruct (has _ node2); [|apply yields_ret; congruence].
  eapply yields_bind; [apply yields_any|]. intros node3 _. apply yields_ret.
  destruct this2. simpl in *. congruence.
Qed.

Lemma create_module_tree_in_name dir module up this :
  yields (fun r => name r = name this) (create_module_tree_in h sys dir module up this).
Proof.
  destruct dir as [|entries]; cbn [create_module_tree_in]; do 2 apply yields_seq.
  { by apply yields_ret. }
  apply (yields_fold_each (fun r => name r = name this)); [|done].
  intros e this' _ Hn. intros g. rewrite <- Hn. apply create_module_tree_entry_name.
Qed.

Lemma create_module_tree_entry_names descend module full_path e this :
  (forall up node, yields (fun r => name r = name node) (descend (d_open e) up node)) ->
  yields (fun r => name <$> children r = add_name (name <$> children this) e)
    (create_module_tree_entry h sys descend module full_path e this).
Proof.
  intros Hd. unfold create_module_tree_entry, add_name.
  destruct (is_dot e); [by apply yields_ret|]. cbn [orb].
  apply yields_seq. eapply yields_bind; [apply mark_entry_names|].
  intros [this1 node1] (_ & Hcs & Hn). cbn [fst snd new_module_node name] in *.
  pose proof (insert_names this1 node1) as Hnames. rewrite Hcs, Hn in Hnames.
  destruct (insert this1 node1) as [this2 i]. cbn [fst] in *.
  destruct (children this2 !! i) as [node2|] eqn:Hi; [|by apply yields_ret].
  destruct (has _ node2); [|by apply yields_ret].
  eapply yields_bind; [apply Hd|]. intros node3 Hn3. apply yields_ret.
  rewrite <- Hnames. destruct this2 as [m2 n2 t2 s2 p2 cs2].
  cbn [children set_children] in *.
  rewrite list_fmap_insert, Hn3. apply list_insert_id.
  by rewrite list_lookup_fmap, Hi.
Qed.

Lemma create_module_tree_in_names dir module up this :
  yields (fun r => name <$> children r
                   = foldl add_name (name <$> children this) (entries_of dir))
    (create_module_tree_in h sys dir module up this).
Proof.
  destruct dir as [|entries]; cbn [create_module_tree_in entries_of];
    do 2 apply yields_seq.
  { by apply yields_ret. }
  generalize (get_path up this). intros full_path.
  revert this. induction entries as [|e es IH]; intros this.
  { by apply yields_ret. }
  rewrite fold_each_cons. eapply yields_bind.
  { apply create_module_tree_entry_names. intros up' node.
    apply create_module_tree_in_name. }
  intros this1 H1 g. cbn [foldl]. rewrite <- H1. apply IH.
Qed.
End Names.

Lemma add_name_prefix (names : list string) (entries : list dirent) :
  names `prefix_of` foldl add_name names entries.
Proof.
  revert names. induction entries as [|e es IH]; intros names; [done|].
  cbn [foldl]. etrans; [|apply IH]. unfold add_name.
  destruct (_ || _); [done|]. by apply prefix_app_r.
Qed.

Lemma add_name_elem (names : list string) (entries : list dirent) (e : dirent) :
  e ∈ entries -> is_dot e = false -> d_name e ∈ foldl add_name names entries.
Proof.
  intros He Hdot. revert names. induction He as [e es|e x es He IH]; intros names.
  - cbn [foldl].
    assert (d_name e ∈ add_name names e) as Hin.
    { unfold add_name. rewrite Hdot. cbn [orb]. case_bool_decide; [done|].
      apply elem_of_app. right. left. }
    destruct (add_name_prefix (add_name names e) es) as [k ->].
    apply elem_of_app. by left.
  - cbn [foldl]. by apply IH.
Qed.

Lemma add_name_new (names : list string) (entries : list dirent) (nm : string) :
  nm ∈ foldl add_name names entries ->
  nm ∈ names \/ exists e, e ∈ entries /\ is_dot e = false /\ d_name e = nm.
Proof.
  revert names. induction entries as [|e es IH]; intros names; [by left|].
  cbn [foldl]. intros [Hin|(e' & He' & Hdot & Hn)]%IH.
  - unfold add_name in Hin. destruct (is_dot e) eqn:Hdot; [by left|]. cbn [orb] in Hin.
    case_bool_decide; [by left|].
    apply elem_of_app in Hin as [?| ->%list_elem_of_singleton]; [by left|].
    right. exists e. split_and!; [left|done..].
  - right. exists e'. split_and!; [by right|done..].
Qed.

(** X4: walking a module directory leaves the names of the children it
    found in place and in order, and adds, at the end and in the order of
    the directory, the name of every entry other than "." and ".." that no
    child bore yet: every entry of the module has a node of its name, and
    no name comes from anywhere else.  A directory that cannot be opened
    adds nothing. *)
Theorem create_module_tree_names (h : magisk_h) (sys : platform)
    (dir : DIR) (modname up : string) (this : node_entry) (g : globals) :
  name <$> children (result (create_module_tree_in h sys dir modname up this g))
  = foldl add_name (name <$> children this) (entries_of dir)
  /\ (name <$> children this)
       `prefix_of`
       (name <$> children (result (create_module_tree_in h sys dir modname up this g)))
  /\ (forall nm,
        nm ∈ name <$> children (result (create_module_tree_in h sys dir modname up this g))
        <-> nm ∈ name <$> children this
            \/ exists e, e ∈ entries_of dir /\ is_dot e = false /\ d_name e = nm).
Proof.
  pose proof (create_module_tree_in_names h sys dir modname up this g) as H.
  cbv beta in H. rewrite H. split_and!; [done|apply add_name_prefix|].
  intros nm. split; [apply add_name_new|].
  intros [Hin|(e & He & Hdot & <-)].
  - destruct (add_name_prefix (name <$> children this) (entries_of dir)) as [k ->].
    apply elem_of_app. by left.
  - by apply add_name_elem.
Qed.

(** *** Loading the modules *)

Lemma emits_nothing {A} (m : io A) (g : globals) :
  emits (fun _ => False) m -> trace (m g) = [].
Proof.
  intros H. specialize (H g). destruct (trace (m g)); [done|]. by inversion H.
Qed.

Section Loading.
Context (h : magisk_h) (sys : platform).

Lemma emits_create_module_tree_in (P : syscall -> Prop) dir :
  forall module up this, emits P (create_module_tree_in h sys dir module up this).
Proof.
  induction dir as [|entries IH] using DIR_nested_ind; intros module up this;
    cbn [create_module_tree_in]; repeat emits_step.
  apply emits_fold_each. intros e this' He. rewrite Forall_forall in IH.
  unfold create_module_tree_entry, mark_entry. repeat emits_step. by apply IH.
Qed.

Lemma create_module_tree_silent module up this g :
  trace (create_module_tree h sys module up this g) = [].
Proof. apply emits_nothing, emits_create_module_tree_in. Qed.

Lemma load_modules_calls modules :
  forall sys_root has_modules g,
    trace (load_modules h sys modules sys_root has_modules g)
    = flat_map (module_setup h sys) modules
    /\ (result (load_modules h sys modules sys_root has_modules g)).2
       = has_modules || existsb (mountable h sys) modules
    /\ (existsb (mountable h sys) modules = false ->
        (result (load_modules h sys modules sys_root has_modules g)).1 = sys_root).
Proof.
  induction modules as [|m ms IH]; intros sys_root has_modules g.
  { cbn. by rewrite orb_false_r. }
  cbn [load_modules flat_map existsb]. unfold module_setup, mountable.
  rewrite !trace_bind, !result_bind.
  set (dir := MOUNTPOINT h +:+ "/" +:+ m).
  destruct (access_F_OK sys (dir +:+ "/system.prop")) eqn:A1;
    destruct (access_F_OK sys (dir +:+ "/auto_mount")) eqn:A2; cbn [negb andb orb];
    try (destruct (access_F_OK sys (dir +:+ "/system")) eqn:A3; cbn [negb andb orb]);
    try (destruct (access_F_OK sys (dir +:+ "/system/vendor")) eqn:A4);
    rewrite ?trace_bind, ?result_bind;
    try (match goal with |- context [load_modules h sys ms ?r ?b ?g0] =>
           destruct (IH r b g0) as (-> & -> & Hroot) end;
         rewrite ?orb_true_r; cbn [when emit set_buf set_buf2 modify trace final result
                                     app fst snd mret io_ret];
         try rewrite create_module_tree_silent; done).
Qed.
End Loading.

(** X5: while the modules are loaded nothing is mounted: building the
    tree of a module makes no call at all, and the calls of the loop are,
    module by module and in the order of the list, the loading of
    system.prop where there is one (with or without auto_mount) and the
    linking of system/vendor for a module that takes part.  The loop
    reports modules exactly when one of them has both the auto_mount marker
    and a system directory, and without such a module the tree is as it
    was. *)
Theorem loading_calls (h : magisk_h) (sys : platform) (modules : list string)
    (sys_root : node_entry) (has_modules : bool) (g : globals) :
  trace (load_modules h sys modules sys_root has_modules g)
  = flat_map (module_setup h sys) modules
  /\ (result (load_modules h sys modules sys_root has_modules g)).2
     = has_modules || existsb (mountable h sys) modules
  /\ (existsb (mountable h sys) modules = false ->
      (result (load_modules h sys modules sys_root has_modules g)).1 = sys_root)
  /\ (forall modname up this g',
        trace (create_module_tree h sys modname up this g') = []).
Proof.
  destruct (load_modules_calls h sys modules sys_root has_modules g) as (? & ? & ?).
  split_and!; [done..|]. intros. apply create_module_tree_silent.
Qed.

(** *** Dummies *)

Lemma insert_dummies_cons (e : dirent) (es : list dirent) (this : node_entry) :
  insert_dummies (e :: es) this
  = insert_dummies es
      (if is_dot e then this
       else (insert this (new_node (d_name e) IS_DUMMY (d_type e))).1).
Proof. done. Qed.

Lemma insert_dummy_names (e : dirent) (this : node_entry) :
  name <$> children (if is_dot e then this
                     else (insert this (new_node (d_name e) IS_DUMMY (d_type e))).1)
  = add_name (name <$> children this) e.
Proof.
  unfold add_name. destruct (is_dot e); [done|]. cbn [orb]. by rewrite insert_names.
Qed.

Lemma insert_dummies_names (entries : list dirent) (this : node_entry) :
  name <$> children (insert_dummies entries this)
  = foldl add_name (name <$> children this) entries.
Proof.
  revert this. induction entries as [|e es IH]; intros this; [done|].
  by rewrite insert_dummies_cons, IH, insert_dummy_names.
Qed.

Lemma insert_dummies_keeps (entries : list dirent) (this c : node_entry) (i : nat) :
  children this !! i = Some c -> 0 < status c ->
  children (insert_dummies entries this) !! i = Some c.
Proof.
  revert this. induction entries as [|e es IH]; intros this Hi Hs; [done|].
  rewrite insert_dummies_cons. apply IH; [|done].
  destruct (is_dot e); [done|]. unfold insert.
  pose proof (insert_loop_keeps (children this)
                (set_parent owner (new_node (d_name e) IS_DUMMY (d_type e))) c i Hi) as H.
  destruct (insert_loop _ _) as [cs j]. apply H. simpl. unfold IS_DUMMY. lia.
Qed.

Lemma insert_dummies_from (entries : list dirent) (this c : node_entry) :
  c ∈ children (insert_dummies entries this) ->
  c ∈ children this
  \/ exists e, e ∈ entries /\ is_dot e = false /\ c = dummy_of e.
Proof.
  revert this. induction entries as [|e es IH]; intros this; [by left|].
  rewrite insert_dummies_cons. intros [Hc|(e' & He' & Hdot & ->)]%IH.
  - destruct (is_dot e) eqn:Hdot; [by left|]. unfold insert in Hc.
    pose proof (insert_loop_elem (children this)
                  (set_parent owner (new_node (d_name e) IS_DUMMY (d_type e))) c) as H.
    destruct (insert_loop _ _) as [cs i]. simpl in *.
    destruct (H Hc) as [?| ->]; [by left|].
    right. exists e. split_and!; [left|done..].
  - right. exists e'. split_and!; [by right|done..].
Qed.

Lemma insert_dummies_adds (entries : list dirent) (this : node_entry) (e : dirent) :
  NoDup (d_name <$> entries) -> e ∈ entries -> is_dot e = false ->
  d_name e ∉ name <$> children this ->
  dummy_of e ∈ children (insert_dummies entries this).
Proof.
  intros Hnd He Hdot. revert this.
  induction He as [e es|e x es He IH]; intros this Hnew;
    rewrite insert_dummies_cons; rewrite fmap_cons in Hnd;
    apply NoDup_cons in Hnd as [Hx Hnd].
  - rewrite Hdot.
    assert (children (insert this (new_node (d_name e) IS_DUMMY (d_type e))).1
              !! length (children this) = Some (dummy_of e)) as Hi.
    { unfold insert. rewrite insert_loop_append by done. simpl.
      by rewrite list_lookup_middle. }
    eapply list_elem_of_lookup_2, insert_dummies_keeps; [exact Hi|done].
  - apply IH; [done..|]. rewrite insert_dummy_names. unfold add_name.
    destruct (_ || _); [done|]. rewrite not_elem_of_app. split; [done|].
    intros Heq%list_elem_of_singleton. apply Hx. rewrite <- Heq.
    apply list_elem_of_fmap. eauto.
Qed.

(** X6: the dummies of a skeleton fill in what the modules left out and
    displace nothing a module put there: a child with a status keeps its
    slot, the children that come in are dummies of entries of the mirror
    other than "." and "..", every such entry has a child of its name
    afterwards, and the names that are new go to the end in the order of
    the mirror. *)
Theorem dummies_fill_in (entries : list dirent) (this : node_entry) :
  (forall i c, children this !! i = Some c -> 0 < status c ->
               children (insert_dummies entries this) !! i = Some c)
  /\ (forall c, c ∈ children (insert_dummies entries this) ->
                c ∈ children this
                \/ exists e, e ∈ entries /\ is_dot e = false /\ c = dummy_of e)
  /\ (forall e, e ∈ entries -> is_dot e = false ->
                d_name e ∈ name <$> children (insert_dummies entries this))
  /\ name <$> children (insert_dummies entries this)
     = foldl add_name (name <$> children this) entries.
Proof.
  split_and!.
  - intros i c. apply insert_dummies_keeps.
  - intros c. apply insert_dummies_from.
  - intros e He Hdot. rewrite insert_dummies_names. by apply add_name_elem.
  - apply insert_dummies_names.
Qed.

(** *** What a skeleton exposes *)

Section Exposure.
Context (h : magisk_h) (sys : platform).

Lemma clone_skeleton_child_dummy descend this full_path e g :
  is_root this && bool_decide (d_name e = "vendor") = false ->
  trace (clone_skeleton_child h descend this full_path (dummy_of e) g)
  = expose (MIRRDIR h +:+ full_path +:+ "/" +:+ d_name e)
      (full_path +:+ "/" +:+ d_name e) (d_type e).
Proof.
  intros Hv. unfold clone_skeleton_child, expose, IS_DIR, IS_REG, IS_LNK.
  cbn [dummy_of name type]. rewrite Hv.
  replace (has IS_MODULE (dummy_of e)) with false by done.
  replace (has (Z.lor IS_SKEL IS_INTER) (dummy_of e)) with false by done.
  replace (has IS_DUMMY (dummy_of e)) with true by done.
  destruct g as [b b2 l d v].
  destruct (bool_decide (d_type e = DT_DIR)) eqn:Hdir;
    destruct (bool_decide (d_type e = DT_REG)) eqn:Hreg;
    destruct (bool_decide (d_type e = DT_LNK)) eqn:Hlnk; by io_simpl.
Qed.

Lemma clone_skeleton_child_module descend this full_path c g :
  is_root this && bool_decide (name c = "vendor") = false ->
  has IS_MODULE c = true ->
  trace (clone_skeleton_child h descend this full_path c g)
  = expose (MOUNTPOINT h +:+ "/" +:+ module c +:+ full_path +:+ "/" +:+ name c)
      (full_path +:+ "/" +:+ name c) (type c).
Proof.
  intros Hv Hm. unfold clone_skeleton_child, expose, IS_DIR, IS_REG, IS_LNK.
  rewrite Hv, Hm. destruct g as [b b2 l d v].
  destruct (bool_decide (type c = DT_DIR)) eqn:Hdir;
    destruct (bool_decide (type c = DT_REG)) eqn:Hreg;
    destruct (bool_decide (type c = DT_LNK)) eqn:Hlnk; by io_simpl.
Qed.

Lemma clone_skeleton_trace up this g entries :
  xopendir sys (MIRRDIR h +:+ get_path up this) = Stream entries ->
  exists g',
    trace (clone_skeleton h sys up this g)
    = (if has IS_SKEL this
       then [getattr (get_path up this);
             xmount (Some "tmpfs") (get_path up this) (Some "tmpfs") 0;
             setattr (get_path up this)]
       else [])
      ++ trace (for_each
                  (clone_skeleton_child h (clone_skeleton h sys)
                     (insert_dummies entries this) (get_path up this))
                  (children (insert_dummies entries this)) g').
Proof.
  intros Hdir. rewrite clone_skeleton_unfold. unfold clone_skeleton_body.
  rewrite !trace_bind, Hdir, !trace_bind. eexists. cbn [trace set_buf modify snd app].
  f_equal. unfold has. destruct (insert_dummies_fields entries this) as (-> & _).
  by destruct (negb _).
Qed.

Lemma clone_skeleton_exposes up this g entries c t :
  xopendir sys (MIRRDIR h +:+ get_path up this) = Stream entries ->
  c ∈ children (insert_dummies entries this) ->
  (forall g', trace (clone_skeleton_child h (clone_skeleton h sys)
                       (insert_dummies entries this) (get_path up this) c g') = t) ->
  exists before after, trace (clone_skeleton h sys up this g) = before ++ t ++ after.
Proof.
  intros Hdir Hc Ht. destruct (clone_skeleton_trace up this g entries Hdir) as [g' ->].
  destruct (for_each_trace_elem
              (clone_skeleton_child h (clone_skeleton h sys)
                 (insert_dummies entries this) (get_path up this))
              _ c g' Hc) as (before & after & g'' & ->).
  rewrite (Ht g''), app_assoc. by eexists _, _.
Qed.
End Exposure.

(** X7: a skeleton keeps what the directory had.  For every entry of the
    mirror directory, other than "." and "..", that no module provides (and
    that is not vendor at the root), cloning creates the empty file or
    directory and bind-mounts the mirror's file over it, or copies the
    mirror's symlink. *)
Theorem skeleton_keeps_originals (h : magisk_h) (sys : platform) (up : string)
    (this : node_entry) (g : globals) (entries : list dirent) (e : dirent) :
  xopendir sys (MIRRDIR h +:+ get_path up this) = Stream entries ->
  NoDup (d_name <$> entries) ->
  e ∈ entries -> is_dot e = false ->
  d_name e ∉ name <$> children this ->
  is_root this && bool_decide (d_name e = "vendor") = false ->
  exists before after,
    trace (clone_skeleton h sys up this g)
    = before
      ++ expose (MIRRDIR h +:+ get_path up this +:+ "/" +:+ d_name e)
           (get_path up this +:+ "/" +:+ d_name e) (d_type e)
      ++ after.
Proof.
  intros Hdir Hnd He Hdot Hnew Hv.
  apply (clone_skeleton_exposes h sys up this g entries (dummy_of e)); [done| |].
  - by apply insert_dummies_adds.
  - intros g'. apply clone_skeleton_child_dummy.
    unfold is_root in *. by destruct (insert_dummies_fields entries this) as (_ & -> & _).
Qed.

(** X8: a skeleton shows what the modules provide.  When the mirror
    directory opens, cloning a node marked SKEL first saves the attributes
    of the directory, mounts a tmpfs on it and restores the attributes; and
    for every child that a module marked MODULE (vendor at the root
    excepted) it creates the empty file or directory and bind-mounts the
    module's file over it, or copies the module's symlink.  When the mirror
    directory does not open, nothing is done at all. *)
Theorem skeleton_shows_modules (h : magisk_h) (sys : platform) (up : string)
    (this : node_entry) (g : globals) :
  (xopendir sys (MIRRDIR h +:+ get_path up this) = NULL ->
   trace (clone_skeleton h sys up this g) = [])
  /\ (forall entries,
        xopendir sys (MIRRDIR h +:+ get_path up this) = Stream entries ->
        (has IS_SKEL this = true ->
         exists rest,
           trace (clone_skeleton h sys up this g)
           = [getattr (get_path up this);
              xmount (Some "tmpfs") (get_path up this) (Some "tmpfs") 0;
              setattr (get_path up this)] ++ rest)
        /\ (forall c,
              c ∈ children this -> status c = IS_MODULE ->
              is_root this && bool_decide (name c = "vendor") = false ->
              exists before after,
                trace (clone_skeleton h sys up this g)
                = before
                  ++ expose (MOUNTPOINT h +:+ "/" +:+ module c +:+ get_path up this
                               +:+ "/" +:+ name c)
                       (get_path up this +:+ "/" +:+ name c) (type c)
                  ++ after)).
Proof.
  split.
  - intros Hdir. rewrite clone_skeleton_unfold. unfold clone_skeleton_body.
    by rewrite !trace_bind, Hdir.
  - intros entries Hdir. split.
    + intros Hskel. destruct (clone_skeleton_trace h sys up this g entries Hdir) as [g' ->].
      rewrite Hskel. by eexists.
    + intros c Hc Hs Hv.
      apply (clone_skeleton_exposes h sys up this g entries c); [done| |].
      * apply list_elem_of_lookup in Hc as [i Hi].
        eapply list_elem_of_lookup_2, insert_dummies_keeps; [exact Hi|by rewrite Hs].
      * intros g'. apply clone_skeleton_child_module; [|unfold has; by rewrite Hs].
        unfold is_root in *.
        by destruct (insert_dummies_fields entries this) as (_ & -> & _).
Qed.

Lemma skeleton_keeps_originals_phone :
  xopendir phone (MIRRDIR magisk +:+ get_path "" (composed magisk phone ["new_tool"] boot))
  = mirror_system
  /\ is_dot (Dirent "build.prop" DT_REG NULL) = false
  /\ exists before after,
      trace (clone_skeleton magisk phone "" (composed magisk phone ["new_tool"] boot) boot)
      = before
        ++ [creat "/system/build.prop" mode_0644;
            xmount (Some "/sbin/.core/mirror/system/build.prop") "/system/build.prop"
              None MS_BIND]
        ++ after.
Proof.
  split_and!; [by vm_compute..|].
  apply (skeleton_keeps_originals magisk phone "" (composed magisk phone ["new_tool"] boot)
           boot (dots ++ [Dirent "bin" DT_DIR mirror_bin; Dirent "build.prop" DT_REG NULL;
                          Dirent "vendor" DT_LNK NULL])
           (Dirent "build.prop" DT_REG NULL)).
  - by vm_compute.
  - apply (bool_decide_unpack _). by vm_compute.
  - apply list_elem_of_lookup. exists 3%nat. by vm_compute.
  - by vm_compute.
  - apply (bool_decide_unpack _). by vm_compute.
  - by vm_compute.
Defined.

(** *** Scripts *)

Lemma string_app_inv_tail (a b t : string) : a +:+ t = b +:+ t -> a = b.
Proof.
  revert b. induction a as [|x a IH]; intros [|y b] Heq; [done| | |].
  - apply (f_equal String.length) in Heq. rewrite app_cons in Heq. simpl in Heq.
    rewrite !string_app_length in Heq. simpl in Heq. lia.
  - apply (f_equal String.length) in Heq. rewrite app_cons in Heq. simpl in Heq.
    rewrite !string_app_length in Heq. simpl in Heq. lia.
  - rewrite !app_cons in Heq. injection Heq as -> Heq. f_equal. by apply IH.
Qed.

Lemma for_each_trace_flat_map {A} (f : A -> io unit) (c : A -> list syscall) (l : list A) :
  (forall x g, x ∈ l -> trace (f x g) = c x) ->
  forall g, trace (for_each f l g) = flat_map c l.
Proof.
  induction l as [|x l IH]; intros Hf g; [done|].
  rewrite for_each_cons, trace_bind. cbn [flat_map]. rewrite Hf by left.
  f_equal. apply IH. intros y g' Hy. apply Hf. by right.
Qed.

Lemma flat_map_filter_fmap {A B} (P : A -> Prop) `{!forall x, Decision (P x)}
    (f : A -> B) (l : list A) :
  flat_map (fun x => if decide (P x) then [f x] else []) l = f <$> filter P l.
Proof.
  induction l as [|x l IH]; [done|]. cbn [flat_map]. rewrite IH.
  destruct (decide (P x)).
  - by rewrite filter_cons_True.
  - by rewrite filter_cons_False.
Qed.

Section Scripts.
Context (h : magisk_h) (sys : platform).

Lemma exec_common_script_trace stage g :
  trace (exec_common_script h sys stage g)
  = exec_sh (stage_env stage) <$> common_scripts h sys stage.
Proof.
  unfold exec_common_script, common_scripts, stage_dir. rewrite trace_bind.
  cbn [trace set_buf2 modify snd app].
  destruct (xopendir sys _) as [|entries]; [done|]. cbn [entries_of].
  rewrite <- list_fmap_compose, <- flat_map_filter_fmap.
  apply for_each_trace_flat_map. intros e g' _. unfold compose, common_script.
  destruct g' as [b b2 l d v].
  destruct (decide _) as [[Ht Hx]|Hn].
  - rewrite Hx, bool_decide_eq_true_2 by done. by io_simpl.
  - case_bool_decide as Ht; [|done].
    destruct (access_X_OK sys _) eqn:Hx; [|by io_simpl]. by destruct Hn.
Qed.

Lemma exec_module_script_trace stage g :
  trace (exec_module_script h sys stage g)
  = exec_sh (stage_env stage) <$> module_scripts h sys stage (module_list g).
Proof.
  unfold exec_module_script, module_scripts. rewrite trace_bind.
  cbn [trace gets snd app result final fst].
  rewrite <- list_fmap_compose, <- flat_map_filter_fmap.
  apply for_each_trace_flat_map. intros m g' _. unfold compose.
  destruct g' as [b b2 l d v].
  destruct (decide _) as [[Hs Hd]|Hn].
  - rewrite Hs, Hd. by io_simpl.
  - destruct (access_F_OK sys (MOUNTPOINT h +:+ "/" +:+ m +:+ "/" +:+ stage +:+ ".sh"))
      eqn:Hs; [|by io_simpl].
    destruct (access_F_OK sys (MOUNTPOINT h +:+ "/" +:+ m +:+ "/disable")) eqn:Hd;
      [by io_simpl|].
    by destruct Hn.
Qed.

Lemma keeps_module_list_exec_common_script stage :
  keeps module_list (exec_common_script h sys stage).
Proof. unfold exec_common_script. repeat keeps_step; done. Qed.

Lemma keeps_module_list_exec_module_script stage :
  keeps module_list (exec_module_script h sys stage).
Proof. unfold exec_module_script. repeat keeps_step; done. Qed.
End Scripts.

(** X9: the calls of [exec_common_script] are the runs of the regular
    files of COREDIR/<stage>.d that may be executed, one run for each, in
    the order of the directory, with the mirror's PATH in post-fs-data and
    the busybox PATH in any other stage; a directory that does not open
    runs nothing, and the module list is left as it was. *)
Theorem common_scripts_run (h : magisk_h) (sys : platform) (stage : string)
    (g : globals) :
  trace (exec_common_script h sys stage g)
  = exec_sh (if bool_decide (stage = "post-fs-data") then set_mirror_path else set_path)
      <$> common_scripts h sys stage
  /\ (xopendir sys (stage_dir h stage) = NULL ->
      trace (exec_common_script h sys stage g) = [])
  /\ module_list (final (exec_common_script h sys stage g)) = module_list g.
Proof.
  split_and!.
  - apply exec_common_script_trace.
  - intros Hdir. rewrite exec_common_script_trace. unfold common_scripts. by rewrite Hdir.
  - apply keeps_module_list_exec_common_script.
Qed.

(** X10: the calls of [exec_module_script] are the runs of the scripts
    <stage>.sh of the modules of the module list, in its order, for the
    modules that have the script and no disable marker; no script of a
    module with the disable marker is run, and the module list is left as
    it was. *)
Theorem module_scripts_run (h : magisk_h) (sys : platform) (stage : string)
    (g : globals) :
  trace (exec_module_script h sys stage g)
  = exec_sh (if bool_decide (stage = "post-fs-data") then set_mirror_path else set_path)
      <$> module_scripts h sys stage (module_list g)
  /\ (forall m,
        access_F_OK sys (MOUNTPOINT h +:+ "/" +:+ m +:+ "/disable") = true ->
        forall env,
          exec_sh env (MOUNTPOINT h +:+ "/" +:+ m +:+ "/" +:+ stage +:+ ".sh")
            ∉ trace (exec_module_script h sys stage g))
  /\ module_list (final (exec_module_script h sys stage g)) = module_list g.
Proof.
  split_and!.
  - apply exec_module_script_trace.
  - intros m Hd env. rewrite exec_module_script_trace. unfold module_scripts.
    rewrite <- list_fmap_compose.
    intros (m' & Heq & Hin)%list_elem_of_fmap.
    apply list_elem_of_filter in Hin as [[_ Hd'] _].
    cbn in Heq. injection Heq as _ Heq.
    apply (inj (String.app _)), (inj (String.app _)), string_app_inv_tail in Heq.
    congruence.
  - apply keeps_module_list_exec_module_script.
Qed.

(** *** Image preparation *)

Section Image.
Context (h : magisk_h) (sys : platform).

Lemma merge_images_all imgs g :
  forallb (merges h sys) imgs = true ->
  merge_images h sys imgs g
  = (false, g, (fun img => merge_img_call img (MAINIMG h)) <$> imgs).
Proof.
  induction imgs as [|img imgs IH]; [done|]. cbn [forallb merge_images].
  intros [Hm Hall]%andb_true_iff. unfold merges in Hm. rewrite Hm.
  unfold mbind, io_bind, emit. by rewrite IH.
Qed.

Lemma merge_images_first l1 img l2 g :
  forallb (merges h sys) l1 = true -> merges h sys img = false ->
  merge_images h sys (l1 ++ img :: l2) g
  = (true, g, (fun img => merge_img_call img (MAINIMG h)) <$> (l1 ++ [img])).
Proof.
  intros Hall Hm. induction l1 as [|x l1 IH]; cbn [forallb merge_images app] in *.
  - unfold merges in Hm. by rewrite Hm.
  - apply andb_true_iff in Hall as [Hx Hall]. unfold merges in Hx. rewrite Hx.
    unfold mbind, io_bind, emit. by rewrite IH.
Qed.

Lemma forallb_first {A} (p : A -> bool) (l : list A) :
  forallb p l = false ->
  exists l1 x l2, l = l1 ++ x :: l2 /\ forallb p l1 = true /\ p x = false.
Proof.
  induction l as [|x l IH]; [done|]. cbn [forallb].
  destruct (p x) eqn:Hx; cbn [andb].
  - intros (l1 & y & l2 & -> & Hl1 & Hy)%IH. exists (x :: l1), y, l2.
    split_and!; [done| |done]. cbn [forallb]. by rewrite Hx.
  - intros _. by exists [], x, l.
Qed.

Lemma merge_images_spec imgs g :
  result (merge_images h sys imgs g) = negb (forallb (merges h sys) imgs)
  /\ final (merge_images h sys imgs g) = g
  /\ Forall (fun c => image_call c = true) (trace (merge_images h sys imgs g)).
Proof.
  destruct (forallb (merges h sys) imgs) eqn:Hall.
  - rewrite merge_images_all by done. split_and!; [done..|].
    apply Forall_fmap, Forall_true. done.
  - apply forallb_first in Hall as (l1 & x & l2 & -> & Hl1 & Hx).
    rewrite merge_images_first by done. split_and!; [done..|].
    apply Forall_fmap, Forall_true. done.
Qed.

Lemma prepare_img_spec g :
  (image_mounted h sys = false ->
   result (prepare_img h sys g) = 1
   /\ final (prepare_img h sys g) = g
   /\ Forall (fun c => image_call c = true) (trace (prepare_img h sys g)))
  /\ (image_mounted h sys = true ->
      module_list (final (prepare_img h sys g)) = module_list g ++ enumerated h sys
      /\ setup_done (final (prepare_img h sys g)) = setup_done g
      /\ seperate_vendor (final (prepare_img h sys g)) = seperate_vendor g
      /\ exists loop,
          mount_image sys (MAINIMG h) (MOUNTPOINT h) = Some loop
          /\ result (prepare_img h sys g)
             = (if bool_decide (trim_img sys (MAINIMG h) (MOUNTPOINT h) loop = 0)
                then 0 else 1)).
Proof.
  destruct (merge_images_spec alt_img g) as (Hr & Hf & Ht).
  pose proof (enumeration_spec h sys (entries_of (xopendir sys (MOUNTPOINT h))) g)
    as [_ Hl].
  pose proof (keeps_for_each setup_done (prepare_img_entry h sys)
                (entries_of (xopendir sys (MOUNTPOINT h)))) as Hsd.
  pose proof (keeps_for_each seperate_vendor (prepare_img_entry h sys)
                (entries_of (xopendir sys (MOUNTPOINT h)))) as Hsv.
  unfold image_mounted, enumerated, prepare_img.
  remember (forallb (merges h sys) alt_img) as ok eqn:Hok. clear Hok.
  unfold mbind, io_bind, result, final, trace in *.
  destruct (merge_images h sys alt_img g) as [[failed g1] t1].
  cbn [fst snd] in Hr, Hf, Ht. subst g1 failed.
  destruct ok; cbn [negb andb].
  2: { split; [intros _|done]. simpl. rewrite app_nil_r. by split_and!. }
  assert (forall t, Forall (fun c => image_call c = true) t ->
            Forall (fun c => image_call c = true) (t1 ++ t)) as Happ.
  { intros t Ht'. by apply Forall_app. }
  destruct (access_F_OK sys (MAINIMG h));
    [|destruct (bool_decide (create_img sys (MAINIMG h) 64 = 0))];
    (destruct (mount_image sys (MAINIMG h) (MOUNTPOINT h)) as [loop|] eqn:Hm;
     [rewrite (bool_decide_eq_true_2 (is_Some (Some loop))) by by eexists
     |rewrite (bool_decide_eq_false_2 (is_Some None)) by by intros [? ?]]);
    cbv [mret io_ret emit negb orb andb]; cbn [fst snd].
  all: try (split; [intros _|done]; split_and!; [done..|]; apply Happ;
            by repeat constructor).
  all: split; [done|intros _].
  all: specialize (Hsd ltac:(intros; unfold prepare_img_entry; repeat keeps_step; done) g).
  all: specialize (Hsv ltac:(intros; unfold prepare_img_entry; repeat keeps_step; done) g).
  all: unfold final in *.
  all: destruct (for_each _ _ g) as [[[] g2] t2]; cbn [fst snd] in *.
  all: destruct (bool_decide (trim_img _ _ _ _ = 0)) eqn:Htrim; cbn [fst snd];
    split_and!; try done; exists loop; by rewrite Htrim.
Qed.
End Image.

(** X11: image preparation returns 0 or 1.  When a merge fails, or the
    main image neither exists nor can be created, or it does not mount,
    the result is 1, the globals are untouched and nothing was done beyond
    the calls on the image.  Once the image is mounted the module list is
    extended by the modules enumerated, and the result is that of the
    trim: a failed trim reports 1 with the list already extended. *)
Theorem image_preparation_outcome (h : magisk_h) (sys : platform) (g : globals) :
  (image_mounted h sys = false ->
   result (prepare_img h sys g) = 1
   /\ final (prepare_img h sys g) = g
   /\ Forall (fun c => image_call c = true) (trace (prepare_img h sys g)))
  /\ (image_mounted h sys = true ->
      module_list (final (prepare_img h sys g)) = module_list g ++ enumerated h sys
      /\ exists loop,
          mount_image sys (MAINIMG h) (MOUNTPOINT h) = Some loop
          /\ result (prepare_img h sys g)
             = (if bool_decide (trim_img sys (MAINIMG h) (MOUNTPOINT h) loop = 0)
                then 0 else 1))
  /\ (result (prepare_img h sys g) = 0 \/ result (prepare_img h sys g) = 1).
Proof.
  destruct (prepare_img_spec h sys g) as [Hno Hyes]. split_and!.
  - exact Hno.
  - intros Hm. destruct (Hyes Hm) as (Hl & _ & _ & Hloop). by split.
  - destruct (image_mounted h sys).
    + destruct (Hyes eq_refl) as (_ & _ & _ & loop & _ & ->). case_bool_decide; auto.
    + destruct (Hno eq_refl) as (-> & _). auto.
Qed.

(** X12: the alternative images are merged into the main image in the
    order of the table, and the first merge that fails ends image
    preparation: the images after it are not merged, nothing else is done,
    and the result is 1. *)
Theorem merges_stop_at_first_failure (h : magisk_h) (sys : platform) (g : globals) :
  (forall imgs,
      forallb (merges h sys) imgs = true ->
      merge_images h sys imgs g
      = (false, g, (fun img => merge_img_call img (MAINIMG h)) <$> imgs))
  /\ (forall l1 img l2,
        forallb (merges h sys) l1 = true -> merges h sys img = false ->
        merge_images h sys (l1 ++ img :: l2) g
        = (true, g, (fun img => merge_img_call img (MAINIMG h)) <$> (l1 ++ [img])))
  /\ (forall l1 img l2,
        alt_img = l1 ++ img :: l2 ->
        forallb (merges h sys) l1 = true -> merges h sys img = false ->
        prepare_img h sys g
        = (1, g, (fun img => merge_img_call img (MAINIMG h)) <$> (l1 ++ [img]))).
Proof.
  split_and!.
  - intros imgs. apply merge_images_all.
  - intros l1 img l2. apply merge_images_first.
  - intros l1 img l2 Halt Hl1 Himg. unfold prepare_img. rewrite Halt.
    unfold mbind, io_bind. rewrite merge_images_first by done.
    cbn. by rewrite app_nil_r.
Qed.

(** *** What the stages leave of the module list *)

Section Lists.
Context (h : magisk_h) (sys : platform).

Lemma keeps_list_create_module_tree_in dir :
  forall module up this, keeps module_list (create_module_tree_in h sys dir module up this).
Proof.
  induction dir as [|entries IH] using DIR_nested_ind; intros module up this;
    cbn [create_module_tree_in]; repeat keeps_step.
  apply keeps_fold_each. intros e n He.
  unfold create_module_tree_entry, mark_entry. repeat keeps_step.
  rewrite Forall_forall in IH. apply IH, He.
Qed.

Lemma keeps_list_clone_skeleton_fuel fuel :
  forall up this, keeps module_list (clone_skeleton_fuel h sys fuel up this).
Proof.
  induction fuel as [|fuel IH]; intros up this;
    cbn [clone_skeleton_fuel]; unfold clone_skeleton_body, clone_skeleton_child;
    repeat keeps_step.
  apply IH.
Qed.

Lemma keeps_list_magic_mount this :
  forall up, keeps module_list (magic_mount h sys up this).
Proof.
  induction this as [m n t s p cs IH] using node_entry_nested_ind; intros up.
  cbn [magic_mount]. repeat keeps_step; [apply keeps_list_clone_skeleton_fuel|].
  rewrite Forall_forall in IH. by apply IH.
Qed.

Lemma keeps_list_core_only : keeps module_list (core_only h sys).
Proof.
  unfold core_only, auto_start_magiskhide, unblock_boot_process.
  repeat keeps_step.
Qed.

Lemma keeps_list_load_modules modules :
  forall sys_root has_modules,
    keeps module_list (load_modules h sys modules sys_root has_modules).
Proof.
  induction modules as [|m ms IH]; intros sys_root has_modules;
    cbn [load_modules]; repeat keeps_step; try apply IH.
  apply keeps_list_create_module_tree_in.
Qed.

Lemma keeps_list_mount_modules sys_root : keeps module_list (mount_modules h sys sys_root).
Proof.
  unfold mount_modules. destruct (extract sys_root "vendor") as [root ven].
  repeat keeps_step; apply keeps_list_magic_mount.
Qed.
End Lists.

(** *** What the stages call *)

Section Calls.
Context (h : magisk_h) (sys : platform).

Lemma emits_clone_skeleton_fuel fuel :
  forall up this,
    emits (fun c => mount_call c = true) (clone_skeleton_fuel h sys fuel up this).
Proof.
  induction fuel as [|fuel IH]; intros up this;
    cbn [clone_skeleton_fuel]; unfold clone_skeleton_body, clone_skeleton_child;
    repeat emits_step; try done; apply IH.
Qed.

Lemma emits_magic_mount this :
  forall up, emits (fun c => mount_call c = true) (magic_mount h sys up this).
Proof.
  induction this as [m n t s p cs IH] using node_entry_nested_ind; intros up.
  cbn [magic_mount]. repeat emits_step; try done.
  - apply emits_clone_skeleton_fuel.
  - rewrite Forall_forall in IH. by apply IH.
Qed.

Lemma emits_mount_modules sys_root :
  emits (fun c => mount_call c = true) (mount_modules h sys sys_root).
Proof.
  unfold mount_modules. destruct (extract sys_root "vendor") as [root ven].
  repeat emits_step; apply emits_magic_mount.
Qed.

Lemma emits_load_modules (P : syscall -> Prop) modules :
  (forall f, P (load_prop_file f)) -> (forall f, P (unlink f)) ->
  (forall a b, P (xsymlink a b)) ->
  forall sys_root has_modules, emits P (load_modules h sys modules sys_root has_modules).
Proof.
  intros H1 H2 H3.
  induction modules as [|m ms IH]; intros sys_root has_modules;
    cbn [load_modules]; repeat emits_step; try done; try apply IH.
  apply emits_create_module_tree_in.
Qed.

Lemma emits_prepare_img :
  emits (fun c => c ≠ pthread_exit) (prepare_img h sys).
Proof.
  unfold prepare_img. repeat emits_step; try done.
  - induction alt_img as [|img imgs IH]; cbn [merge_images]; repeat emits_step; done.
  - unfold prepare_img_entry. repeat emits_step; done.
Qed.

Lemma emits_exec_common_script_any (P : syscall -> Prop) stage :
  (forall env s, P (exec_sh env s)) -> emits P (exec_common_script h sys stage).
Proof. intros HP. unfold exec_common_script. repeat emits_step; done. Qed.

Lemma emits_exec_module_script_any (P : syscall -> Prop) stage :
  (forall env s, P (exec_sh env s)) -> emits P (exec_module_script h sys stage).
Proof. intros HP. unfold exec_module_script. repeat emits_step; done. Qed.

Lemma core_only_trace g : trace (core_only h sys g) = core_only_calls h sys.
Proof.
  unfold core_only, core_only_calls, hide_calls, unblock_calls, auto_start_magiskhide,
    unblock_boot_process.
  destruct g as [b b2 l d v].
  destruct (access_F_OK sys (HOSTSFILE h)), (start_log_daemon sys),
    (bool_decide (getprop sys (MAGISKHIDE_PROP h) = "0")); by io_simpl.
Qed.

Lemma auto_start_magiskhide_trace g :
  trace (auto_start_magiskhide h sys g) = hide_calls h sys.
Proof.
  unfold hide_calls, auto_start_magiskhide. destruct g as [b b2 l d v].
  destruct (start_log_daemon sys),
    (bool_decide (getprop sys (MAGISKHIDE_PROP h) = "0")); by io_simpl.
Qed.
End Calls.

Lemma ends_in_bind {A C} (P : syscall -> Prop) (tail : list syscall)
    (m : io A) (k : A -> io C) :
  emits P m -> (forall x, ends_in P tail (k x)) -> ends_in P tail (m ≫= k).
Proof.
  intros Hm Hk g. rewrite trace_bind.
  destruct (Hk (result (m g)) (final (m g))) as (before & -> & Hb).
  exists (trace (m g) ++ before). rewrite <- app_assoc. split; [done|].
  apply Forall_app. split; [apply Hm|done].
Qed.

Ltac ends_step :=
  lazymatch goal with
  | |- ends_in _ _ (_ ≫= _) => apply ends_in_bind; [|intros ?]
  | |- ends_in _ _ (if ?b then _ else _) => destruct b eqn:?
  | |- ends_in _ _ (match ?x with _ => _ end) => destruct x eqn:?
  | |- ends_in _ _ (let _ := _ in _) => cbv zeta
  end.

Section Unblock.
Context (h : magisk_h) (sys : platform).

Lemma ends_in_core_only :
  ends_in (fun c => c ≠ pthread_exit) (unblock_calls h) (core_only h sys).
Proof.
  intros g. rewrite core_only_trace. unfold core_only_calls. eexists.
  rewrite app_assoc. split; [done|]. unfold hide_calls.
  destruct (access_F_OK sys (HOSTSFILE h)), (_ && _); by repeat constructor.
Qed.

Lemma ends_in_post_fs_data :
  ends_in (fun c => c ≠ pthread_exit) (unblock_calls h) (post_fs_data h sys).
Proof.
  unfold post_fs_data.
  repeat first
    [ apply ends_in_core_only
    | ends_step
    | apply emits_prepare_img
    | apply emits_exec_common_script_any; done
    | apply emits_exec_module_script_any; done
    | apply emits_load_modules; done
    | apply (emits_impl (fun c => mount_call c = true)); [by intros []|];
      apply emits_mount_modules
    | emits_step ]; try done.
Qed.
End Unblock.

(** X13: post-fs-data always unblocks the boot process, and does so last:
    whatever the image, the modules and the markers are, its calls end with
    the creation of the unblock file and the exit of the thread, and the
    thread is not ended anywhere before. *)
Theorem post_fs_data_unblocks_boot (h : magisk_h) (sys : platform) (g : globals) :
  exists before,
    trace (post_fs_data h sys g)
    = before ++ [xopen_close (UNBLOCKFILE h) (Z.lor O_RDONLY O_CREAT) 0; pthread_exit]
    /\ pthread_exit ∉ before.
Proof.
  destruct (ends_in_post_fs_data h sys g) as (before & Heq & Hb).
  exists before. split; [done|]. rewrite Forall_forall in Hb. intros Hin.
  by apply Hb in Hin.
Qed.

Section CoreOnly.
Context (h : magisk_h) (sys : platform).

Lemma post_fs_data_unfold g :
  trace (post_fs_data h sys g)
  = [write_int_close 0; xmount None "/" None (Z.lor MS_REMOUNT MS_RDONLY);
     start_log_daemon_call]
    ++ trace (prepare_img h sys (started g))
    ++ trace (after_image h sys (result (prepare_img h sys (started g)))
                (final (prepare_img h sys (started g))))
  /\ final (post_fs_data h sys g)
     = final (after_image h sys (result (prepare_img h sys (started g)))
                (final (prepare_img h sys (started g)))).
Proof.
  unfold post_fs_data, started, after_image, result, final, trace.
  destruct g as [b b2 l d v].
  cbv [mbind io_bind emit set_setup_done modify]. cbn [buf buf2 module_list seperate_vendor].
  destruct (prepare_img h sys _) as [[failed g1] t1]. cbn [fst snd].
  by destruct (_ g1) as [[x g2] t2].
Qed.

Lemma keeps_list_after_image failed : keeps module_list (after_image h sys failed).
Proof.
  unfold after_image.
  repeat first
    [ apply keeps_list_core_only
    | apply keeps_module_list_exec_common_script
    | apply keeps_module_list_exec_module_script
    | apply keeps_list_load_modules
    | apply keeps_list_mount_modules
    | keeps_step ].
Qed.

Lemma post_fs_data_module_list g :
  module_list (final (post_fs_data h sys g))
  = module_list (final (prepare_img h sys (started g))).
Proof.
  destruct (post_fs_data_unfold g) as [_ ->]. apply keeps_list_after_image.
Qed.

Lemma core_only_mode g :
  (result (prepare_img h sys (started g)) ≠ 0 ->
   trace (post_fs_data h sys g)
   = [write_int_close 0; xmount None "/" None (Z.lor MS_REMOUNT MS_RDONLY);
      start_log_daemon_call]
     ++ trace (prepare_img h sys (started g))
     ++ core_only_calls h sys)
  /\ (result (prepare_img h sys (started g)) = 0 ->
      access_F_OK sys (DISABLEFILE h) = true ->
      trace (post_fs_data h sys g)
      = [write_int_close 0; xmount None "/" None (Z.lor MS_REMOUNT MS_RDONLY);
         start_log_daemon_call]
        ++ trace (prepare_img h sys (started g))
        ++ [restorecon; chmod (SECURE_DIR h) mode_0700]
        ++ (exec_sh set_mirror_path <$> common_scripts h sys "post-fs-data")
        ++ core_only_calls h sys).
Proof.
  destruct (post_fs_data_unfold g) as [-> _]. unfold after_image. split.
  - intros Hf. rewrite bool_decide_eq_false_2 by done. cbn [negb].
    by rewrite core_only_trace.
  - intros -> Hd. rewrite bool_decide_eq_true_2 by done. cbn [negb]. rewrite Hd.
    by rewrite !trace_bind, core_only_trace, exec_common_script_trace.
Qed.
End CoreOnly.

(** X14: a boot that goes core-only.  When image preparation fails,
    post-fs-data does nothing after it but the calls of [core_only]; when
    it succeeds and the disable file exists, the contexts are restored, the
    secure directory is closed to others and the common post-fs-data
    scripts are run, and then come the calls of [core_only]: no module
    script is run and no module is loaded or mounted.  The only mount among
    the calls of [core_only] is that of the hosts file over
    /system/etc/hosts. *)
Theorem core_only_boot (h : magisk_h) (sys : platform) (g : globals) :
  (result (prepare_img h sys (started g)) ≠ 0 ->
   trace (post_fs_data h sys g)
   = [write_int_close 0; xmount None "/" None (Z.lor MS_REMOUNT MS_RDONLY);
      start_log_daemon_call]
     ++ trace (prepare_img h sys (started g))
     ++ core_only_calls h sys)
  /\ (result (prepare_img h sys (started g)) = 0 ->
      access_F_OK sys (DISABLEFILE h) = true ->
      trace (post_fs_data h sys g)
      = [write_int_close 0; xmount None "/" None (Z.lor MS_REMOUNT MS_RDONLY);
         start_log_daemon_call]
        ++ trace (prepare_img h sys (started g))
        ++ [restorecon; chmod (SECURE_DIR h) mode_0700]
        ++ (exec_sh set_mirror_path <$> common_scripts h sys "post-fs-data")
        ++ core_only_calls h sys)
  /\ Forall (fun c => forall source target fs flags,
                 c = xmount source target fs flags ->
                 source = Some (HOSTSFILE h) /\ target = "/system/etc/hosts")
       (core_only_calls h sys).
Proof.
  destruct (core_only_mode h sys g) as [H1 H2]. split_and!; [done..|].
  unfold core_only_calls, hide_calls, unblock_calls.
  destruct (access_F_OK sys (HOSTSFILE h)), (_ && _); cbn [app];
    repeat (apply Forall_cons_2; [intros ? ? ? ? [=]; by subst|]);
    apply Forall_nil_2.
Qed.

(** *** Where the stages mount *)

Lemma emits_bind_yields {A C} (P : syscall -> Prop) (Q : A -> Prop)
    (m : io A) (k : A -> io C) :
  emits P m -> yields Q m -> (forall x, Q x -> emits P (k x)) -> emits P (m ≫= k).
Proof.
  intros Hm HQ Hk g. rewrite trace_bind. apply Forall_app. split; [apply Hm|].
  apply Hk, HQ.
Qed.

Lemma mounts_on_targets (Q : string -> Prop) (t : list syscall) :
  Forall (mounts_on Q) t <-> Forall Q (mount_targets t).
Proof.
  induction t as [|c t IH]; [by split; constructor|].
  assert (mount_targets (c :: t)
          = match mount_target c with
            | Some x => x :: mount_targets t
            | None => mount_targets t
            end) as -> by done.
  rewrite Forall_cons, IH. unfold mounts_on.
  destruct (mount_target c); [by rewrite Forall_cons|]. tauto.
Qed.

Lemma emits_targets {A} (Q : string -> Prop) (m : io A) :
  emits (mounts_on Q) m <-> forall g, Forall Q (mount_targets (trace (m g))).
Proof. split; intros H g; by apply mounts_on_targets. Qed.

Lemma phone_names_ok : entry_names_ok phone.
Proof. intros path. unfold phone. cbn [xopendir]. repeat case_bool_decide; reflexivity. Qed.

Section Places.
Context (h : magisk_h) (sys : platform) (Hsys : entry_names_ok sys).

Lemma mount_modules_places sys_root :
  finished sys_root = true -> name sys_root = "system" -> parent sys_root = nullptr ->
  emits (mounts_on (fun t => at_or_below "/system" t \/ at_or_below "/vendor" t))
    (mount_modules h sys sys_root).
Proof.
  intros Hfin Hn Hp. apply emits_targets. intros g. unfold mount_modules.
  destruct (extract_finished sys_root "vendor" eq_refl Hfin) as [(Hfin' & Hn' & Hp') Hven].
  destruct (extract sys_root "vendor") as [root ven]. cbn [fst snd] in *.
  rewrite trace_bind, mount_targets_app. apply Forall_app. split.
  - destruct (magic_mount_unique h sys Hsys root "" g Hfin') as [Hb _].
    eapply Forall_impl; [exact Hb|]. intros t Ht. left.
    unfold get_path in Ht. by rewrite Hp', Hp, Hn', Hn in Ht.
  - destruct ven as [ven|]; [|constructor].
    destruct (Hven ven eq_refl) as (Hfinv & Hnv & Hpv).
    destruct (magic_mount_unique h sys Hsys ven "" (final (magic_mount h sys "" root g)) Hfinv)
      as [Hb _].
    eapply Forall_impl; [exact Hb|]. intros t Ht. right.
    unfold get_path in Ht. by rewrite Hpv, Hnv in Ht.
Qed.

Lemma core_only_places : emits (mounts_on system_place) (core_only h sys).
Proof.
  unfold core_only, auto_start_magiskhide, unblock_boot_process.
  repeat emits_step; try done.
  right; left. right. by exists "etc/hosts".
Qed.

Lemma after_image_places failed : emits (mounts_on system_place) (after_image h sys failed).
Proof.
  unfold after_image.
  repeat first
    [ apply core_only_places
    | apply emits_exec_common_script_any; done
    | apply emits_exec_module_script_any; done
    | eapply emits_bind_yields;
        [apply emits_load_modules; done
        |by apply (load_modules_finished h sys Hsys)
        |intros [root has_modules] (Hfin & Hn & Hp)]
    | eapply emits_impl; [|apply mount_modules_places; done];
      intros c Hc; unfold mounts_on in *; destruct (mount_target c); [by right|done]
    | emits_step ]; done.
Qed.

Lemma prepare_img_places : emits (mounts_on system_place) (prepare_img h sys).
Proof.
  unfold prepare_img. repeat emits_step; try done.
  - induction alt_img as [|img imgs IH]; cbn [merge_images]; repeat emits_step; done.
  - unfold prepare_img_entry. repeat emits_step; done.
Qed.
End Places.

(** X17: where the [xmount] calls of post-fs-data go (its own remount,
    the bind and tmpfs mounts of magic mount, the bind of the hosts file):
    on the root, which it remounts read-only, and otherwise only at or
    below /system and /vendor, whatever the modules hold; those of magic
    mount for the composed tree lie at or below /system, those for the
    vendor tree pulled out of it at or below /vendor.  The loop mount of
    the image on MOUNTPOINT is made by the helper [mount_image], outside
    these sources, and is not one of these calls. *)
Theorem mounts_stay_in_system (h : magisk_h) (sys : platform) (g : globals) :
  entry_names_ok sys ->
  Forall system_place (mount_targets (trace (post_fs_data h sys g)))
  /\ forall modules g1 g2,
       Forall (fun t => at_or_below "/system" t \/ at_or_below "/vendor" t)
         (mount_targets
            (trace (mount_modules h sys (composed h sys modules g1) g2))).
Proof.
  intros Hsys. split.
  - destruct (post_fs_data_unfold h sys g) as [-> _].
    rewrite !mount_targets_app. repeat (apply Forall_app; split).
    + repeat constructor.
    + by apply emits_targets, prepare_img_places.
    + by apply emits_targets, after_image_places.
  - intros modules g1 g2. unfold composed.
    destruct (load_modules_finished h sys Hsys modules (new_node "system" IS_INTER 0) false
                eq_refl g1) as (Hfin & Hn & Hp).
    by apply emits_targets, mount_modules_places.
Qed.

Lemma mounts_stay_in_system_phone :
  entry_names_ok phone
  /\ Forall system_place (mount_targets (trace (post_fs_data magisk phone boot))).
Proof.
  split; [apply phone_names_ok|].
  apply (mounts_stay_in_system magisk phone boot phone_names_ok).
Defined.

Lemma reaches_under (sys : platform) (dir : DIR) (path : string) (e : dirent)
    (target : string) :
  reaches sys dir path e target -> exists rest, target = path +:+ "/" +:+ rest.
Proof.
  induction 1 as [entries path e He Hdot|entries path d e target Hd Hdot Hdir Hacc _ IH].
  - by eexists.
  - destruct IH as [rest ->]. exists (d_name d +:+ "/" +:+ rest).
    by rewrite !string_app_assoc.
Qed.

Lemma mount_targets_mount_over (h : magisk_h) (targets : list string) :
  mount_targets (flat_map (mount_over h) targets) = targets.
Proof.
  induction targets as [|t ts IH]; [done|].
  cbn [flat_map]. rewrite mount_targets_app, IH. done.
Qed.

(** X18: the simple mounter for a path mounts strictly below that path
    and nowhere else; every mount it makes is a bind mount whose source is
    the file of the overlay directory for the target; and when the overlay
    directory for the path does not open, it does nothing. *)
Theorem simple_mount_stays_below (h : magisk_h) (sys : platform) (path : string)
    (g : globals) :
  Forall (fun t => exists rest, t = path +:+ "/" +:+ rest)
    (mount_targets (trace (simple_mount h sys path g)))
  /\ Forall (fun c => forall source target fs flags,
                 c = xmount source target fs flags ->
                 source = Some (SIMPLEMOUNT h +:+ target) /\ fs = None /\ flags = MS_BIND)
       (trace (simple_mount h sys path g))
  /\ (xopendir sys (SIMPLEMOUNT h +:+ path) = NULL ->
      trace (simple_mount h sys path g) = []).
Proof.
  unfold simple_mount. split_and!.
  - destruct (simple_mount_sound h sys (xopendir sys (SIMPLEMOUNT h +:+ path)) path g)
      as (targets & -> & Ht).
    rewrite mount_targets_mount_over. eapply Forall_impl; [exact Ht|].
    intros t (_ & e & Hr & _). by eapply reaches_under.
  - eapply Forall_impl;
      [eapply mounts_files_of_calls, simple_mount_sound|].
    intros c (target & _ & [->| ->]) source target' fs flags [=]; by subst.
  - intros ->. done.
Qed.

(** *** The replace marker *)

(** X19: a directory of a module that carries the .replace marker, over
    a target that exists and that [xstat] does not report as a symlink,
    becomes a MODULE leaf: the walk does not go below it, whatever the
    directory holds, and magic mount bind-mounts the directory of the module
    over the target as a whole. *)
Theorem replace_marker_makes_leaf (h : magisk_h) (sys : platform)
    (descend : DIR -> string -> node_entry -> io node_entry)
    (modname full_path : string) (e : dirent) (this : node_entry) (g : globals) :
  is_dot e = false -> d_type e = DT_DIR ->
  meets_clone_condition sys (is_root this) full_path e = false ->
  access_F_OK sys (MOUNTPOINT h +:+ "/" +:+ modname +:+ (full_path +:+ "/" +:+ d_name e)
                     +:+ "/.replace") = true ->
  d_name e ∉ name <$> children this ->
  result (create_module_tree_entry h sys descend modname full_path e this g)
  = set_children (children this ++ [Node modname (d_name e) DT_DIR IS_MODULE owner []]) this
  /\ trace (create_module_tree_entry h sys descend modname full_path e this g) = []
  /\ forall up g',
       trace (magic_mount h sys up (Node modname (d_name e) DT_DIR IS_MODULE owner []) g')
       = [xmount (Some (MOUNTPOINT h +:+ "/" +:+ modname +:+ up +:+ "/" +:+ d_name e))
            (up +:+ "/" +:+ d_name e) None MS_BIND].
Proof.
  intros Hdot Hdir Hclone Hmark Hnew.
  assert (create_module_tree_entry h sys descend modname full_path e this g
          = (set_children (children this ++ [Node modname (d_name e) DT_DIR IS_MODULE owner []])
               this,
             Globals (full_path +:+ "/" +:+ d_name e)
               (MOUNTPOINT h +:+ "/" +:+ modname +:+ (full_path +:+ "/" +:+ d_name e)
                  +:+ "/.replace")
               (module_list g) (setup_done g) (seperate_vendor g), [])) as Heq.
  { unfold create_module_tree_entry, mark_entry. rewrite Hdot, clone_condition_spec, Hclone.
    unfold IS_DIR. cbn [new_module_node type]. rewrite Hdir, Hmark.
    rewrite (bool_decide_eq_true_2 (DT_DIR = DT_DIR)) by done.
    destruct g as [b b2 l d v]. unfold mbind, io_bind, set_buf, set_buf2, modify, mret, io_ret.
    cbn [buf buf2 module_list setup_done seperate_vendor].
    unfold insert. cbn [children set_children set_status set_parent name status module type parent].
    rewrite insert_loop_append by done.
    cbn [children set_children]. rewrite list_lookup_middle by done.
    done. }
  rewrite Heq. split_and!; [done..|].
  intros up g'. by rewrite magic_mount_module.
Qed.

Lemma replace_marker_makes_leaf_app :
  is_dot app_entry = false /\ d_type app_entry = DT_DIR
  /\ result (create_module_tree_entry magisk replacing
               (fun dir up node =>
                  create_module_tree_in magisk replacing dir "debloat" up node)
               "debloat" "/system" app_entry (new_node "system" IS_INTER 0) boot)
     = Node "" "system" 0 IS_INTER nullptr [Node "debloat" "app" DT_DIR IS_MODULE owner []].
Proof.
  assert (is_dot app_entry = false) as Hdot by by vm_compute.
  assert (d_type app_entry = DT_DIR) as Hdir by by vm_compute.
  split_and!; [done..|].
  apply (replace_marker_makes_leaf magisk replacing _ "debloat" "/system" app_entry
           (new_node "system" IS_INTER 0) boot Hdot Hdir).
  - by vm_compute.
  - by vm_compute.
  - apply (bool_decide_unpack _). by vm_compute.
Defined.

(** *** What the mounts show *)

Lemma all_marked_unfold (n : node_entry) :
  all_marked n = true <->
  has_mark n = true /\ Forall (fun c => all_marked c = true) (children n).
Proof.
  destruct n as [m nm t s p cs]. cbn [all_marked children].
  rewrite andb_true_iff, forallb_forall, Forall_forall.
  split; intros [H1 H2]; (split; [done|]); intros c Hc; apply H2;
    by apply list_elem_of_In.
Qed.

Lemma no_stale_unfold (n : node_entry) :
  no_stale n = true <->
  Forall (fun c => (has_mark c || is_root n && bool_decide (name c = "vendor") = true)
                   /\ no_stale c = true) (children n).
Proof.
  destruct n as [m nm t s p cs]. cbn [no_stale children].
  rewrite forallb_forall, Forall_forall.
  split; intros H c Hc.
  - apply list_elem_of_In, H, andb_true_iff in Hc. done.
  - apply andb_true_iff. apply H. by apply list_elem_of_In.
Qed.

Lemma all_marked_no_stale (n : node_entry) : all_marked n = true -> no_stale n = true.
Proof.
  induction n as [m nm t s p cs IH] using node_entry_nested_ind.
  intros [_ Hcs]%all_marked_unfold. apply no_stale_unfold. cbn [children] in *.
  rewrite Forall_forall in *. intros c Hc. specialize (Hcs c Hc).
  split; [|by apply IH].
  apply all_marked_unfold in Hcs as [-> _]. done.
Qed.

Lemma plain_dir_entries (dir : DIR) :
  plain_dir dir = true ->
  Forall (fun e => (is_dot e || plain_type (d_type e) = true) /\ plain_dir (d_open e) = true)
    (entries_of dir).
Proof.
  destruct dir as [|entries]; simpl; [constructor|].
  rewrite forallb_forall, Forall_forall. intros H e He%list_elem_of_In.
  by apply H, andb_true_iff in He.
Qed.

Section Marked.
Context (h : magisk_h) (sys : platform).

Lemma mark_entry_marked module target this e :
  has_mark this = true -> plain_type (d_type e) = true ->
  yields (fun r => has_mark r.1 = true /\ children r.1 = children this
                   /\ parent r.1 = parent this
                   /\ has_mark r.2 = true /\ children r.2 = [])
    (mark_entry h sys module target this (new_module_node module (d_name e) (d_type e))).
Proof.
  intros Hm Hplain.
  assert (has_mark (set_status (Z.lor (status this) IS_SKEL) this) = true) as Hm'.
  { unfold has_mark, has. destruct this as [m nm t s p cs]. cbn [set_status status].
    assert (negb (Z.land (Z.lor s IS_SKEL) (Z.lor IS_SKEL IS_INTER) =? 0) = true) as ->;
      [|by rewrite orb_true_r].
    apply negb_true_iff, Z.eqb_neq. intros H0.
    apply (f_equal (fun z => Z.testbit z 2)) in H0.
    rewrite Z.land_spec, !Z.lor_spec in H0. cbn in H0. by rewrite orb_true_r in H0. }
  unfold mark_entry, clone_condition, IS_LNK, IS_DIR, IS_REG, plain_type in *.
  cbn [new_module_node type name] in *.
  destruct (bool_decide (d_type e = DT_LNK)) eqn:Hl; cbn [orb].
  { by apply yields_ret. }
  destruct (negb (access_F_OK sys target)); cbn [orb].
  { by apply yields_ret. }
  match goal with |- context [if ?b then xstat_S_ISLNK sys target else false] =>
    destruct (if b then xstat_S_ISLNK sys target else false) end.
  { by apply yields_ret. }
  destruct (bool_decide (d_type e = DT_DIR)) eqn:Hd.
  { apply yields_seq. destruct (access_F_OK _ _); by apply yields_ret. }
  destruct (bool_decide (d_type e = DT_REG)) eqn:Hr; [by apply yields_ret|].
  done.
Qed.

Lemma create_module_tree_entry_marked descend module full_path e this :
  all_marked this = true ->
  is_dot e || plain_type (d_type e) = true ->
  (forall up node, all_marked node = true ->
      yields (fun r => all_marked r = true /\ parent r = parent node)
        (descend (d_open e) up node)) ->
  yields (fun r => all_marked r = true /\ parent r = parent this)
    (create_module_tree_entry h sys descend module full_path e this).
Proof.
  intros Hall Hplain Hd. unfold create_module_tree_entry.
  destruct (is_dot e) eqn:Hdot; [by apply yields_ret|].
  apply all_marked_unfold in Hall as [Hm Hcs].
  apply yields_seq. eapply yields_bind; [by apply mark_entry_marked|].
  intros [this1 node1] (Hm1 & Hcs1 & Hp1 & Hn1 & Hnc1). cbn [fst snd] in *.
  assert (has_mark (insert this1 node1).1 = true
          /\ parent (insert this1 node1).1 = parent this
          /\ Forall (fun c => all_marked c = true) (children (insert this1 node1).1))
    as (Hm2 & Hp2 & Hcs2).
  { unfold insert.
    pose proof (insert_loop_Forall (fun c => all_marked c = true) (children this1)
                  (set_parent owner node1)) as H.
    destruct (insert_loop _ _) as [cs i]. cbn [fst children set_children].
    split_and!; [by destruct this1|by destruct this1|]. apply H; [by rewrite Hcs1|].
    apply all_marked_unfold. destruct node1 as [m1 n1 t1 s1 p1 cs1].
    cbn [children set_parent] in *. subst. split; [done|constructor]. }
  destruct (insert this1 node1) as [this2 i]. cbn [fst] in *.
  assert (all_marked this2 = true) as Hall2 by by apply all_marked_unfold.
  destruct (children this2 !! i) as [node2|] eqn:Hi; [|by apply yields_ret].
  destruct (has _ node2) eqn:Hhas; [|by apply yields_ret].
  pose proof (Forall_lookup_1 _ _ _ _ Hcs2 Hi) as Hwm.
  eapply yields_bind; [by apply Hd|].
  intros node3 [Hall3 _]. apply yields_ret.
  split; [|by destruct this2].
  apply all_marked_unfold. split.
  - replace (has_mark (set_children _ this2)) with (has_mark this2) by by destruct this2.
    done.
  - destruct this2 as [m2 n2 t2 s2 p2 cs2]. cbn [children set_children] in *.
    by apply Forall_insert.
Qed.

Lemma create_module_tree_in_marked dir :
  plain_dir dir = true ->
  forall module up this,
    all_marked this = true ->
    yields (fun r => all_marked r = true /\ parent r = parent this)
      (create_module_tree_in h sys dir module up this).
Proof.
  induction dir as [|entries IH] using DIR_nested_ind; intros Hplain module up this Hall;
    cbn [create_module_tree_in]; do 2 apply yields_seq.
  { by apply yields_ret. }
  apply plain_dir_entries in Hplain. cbn [entries_of] in Hplain.
  apply (yields_fold_each (fun r => all_marked r = true /\ parent r = parent this)); [|done].
  intros e this' He [Hall' Hp']. rewrite Forall_forall in IH, Hplain.
  destruct (Hplain e He) as [Hpe Hpd]. rewrite <- Hp'.
  apply create_module_tree_entry_marked; [done..|].
  intros up' node Hn. by apply IH.
Qed.

Lemma load_modules_marked (Hsys : plain sys) modules :
  forall sys_root has_modules,
    all_marked sys_root = true ->
    yields (fun r => all_marked r.1 = true /\ parent r.1 = parent sys_root)
      (load_modules h sys modules sys_root has_modules).
Proof.
  induction modules as [|m ms IH]; intros sys_root has_modules Hall;
    cbn [load_modules].
  { by apply yields_ret. }
  do 3 apply yields_seq. destruct (negb _); [by apply IH|].
  apply yields_seq. destruct (negb _); [by apply IH|].
  do 2 apply yields_seq.
  eapply yields_bind; [by apply create_module_tree_in_marked|].
  intros root [Hall' Hp'] g. rewrite <- Hp'. by apply IH.
Qed.

Lemma expose_overlays from target t :
  same_path h from target -> Forall (overlays h) (expose from target t).
Proof.
  intros Hs. unfold expose. apply Forall_app. split.
  - repeat case_bool_decide; by repeat constructor.
  - constructor; [|constructor]. case_bool_decide; [done|]. right. eauto.
Qed.

Lemma clone_skeleton_child_mirror descend this full_path c g :
  is_root this && bool_decide (name c = "vendor") = false ->
  has IS_MODULE c = false -> has (Z.lor IS_SKEL IS_INTER) c = false ->
  has IS_DUMMY c = true ->
  trace (clone_skeleton_child h descend this full_path c g)
  = expose (MIRRDIR h +:+ full_path +:+ "/" +:+ name c)
      (full_path +:+ "/" +:+ name c) (type c).
Proof.
  intros Hv Hm Hs Hd. unfold clone_skeleton_child, expose, IS_DIR, IS_REG, IS_LNK.
  rewrite Hv, Hm, Hs, Hd. destruct g as [b b2 l d v].
  destruct (bool_decide (type c = DT_DIR)) eqn:Hdir;
    destruct (bool_decide (type c = DT_REG)) eqn:Hreg;
    destruct (bool_decide (type c = DT_LNK)) eqn:Hlnk; by io_simpl.
Qed.

Lemma clone_skeleton_child_stale descend this full_path c g :
  is_root this && bool_decide (name c = "vendor") = false ->
  has_mark c = false ->
  trace (clone_skeleton_child h descend this full_path c g)
  = expose (buf2 g) (full_path +:+ "/" +:+ name c) (type c).
Proof.
  intros Hv Hm. unfold has_mark in Hm.
  apply orb_false_iff in Hm as [[Hm Hs]%orb_false_iff Hd].
  unfold clone_skeleton_child, expose, IS_DIR, IS_REG, IS_LNK.
  rewrite Hv, Hm, Hs, Hd. destruct g as [b b2 l d v].
  destruct (bool_decide (type c = DT_DIR)) eqn:Hdir;
    destruct (bool_decide (type c = DT_REG)) eqn:Hreg;
    destruct (bool_decide (type c = DT_LNK)) eqn:Hlnk; by io_simpl.
Qed.

Lemma clone_skeleton_child_overlays descend this full_path c :
  has_mark c || is_root this && bool_decide (name c = "vendor") = true ->
  emits (overlays h) (descend full_path c) ->
  emits (overlays h) (clone_skeleton_child h descend this full_path c).
Proof.
  intros Hc Hd g.
  destruct (is_root this && bool_decide (name c = "vendor")) eqn:Hv.
  { unfold clone_skeleton_child. rewrite Hv. rewrite !trace_bind.
    repeat (apply Forall_app; split); try by constructor.
    - destruct (IS_DIR c), (IS_REG c); by repeat constructor.
    - match goal with |- context [when ?b] => destruct b end; [|constructor].
      constructor; [|constructor]. by left. }
  rewrite orb_false_r in Hc. unfold has_mark in Hc.
  destruct (has IS_MODULE c) eqn:Hm.
  { rewrite clone_skeleton_child_module by done. apply expose_overlays.
    right. by exists (module c). }
  destruct (has (Z.lor IS_SKEL IS_INTER) c) eqn:Hs.
  { unfold clone_skeleton_child. rewrite Hv, Hm, Hs. destruct g as [b b2 l d v].
    destruct (IS_DIR c), (IS_REG c); io_simpl;
      match goal with |- context [descend full_path c ?g0] =>
        pose proof (Hd g0) as Ht; unfold trace in Ht;
        destruct (descend full_path c g0) as [[[] g3] t3] end;
      cbn [fst snd] in *; rewrite ?app_nil_r; repeat constructor; done. }
  rewrite clone_skeleton_child_mirror by done. apply expose_overlays.
  by left.
Qed.

Lemma clone_skeleton_fuel_overlays fuel :
  forall up this,
    no_stale this = true ->
    emits (overlays h) (clone_skeleton_fuel h sys fuel up this).
Proof.
  induction fuel as [|fuel IH]; intros up this Hns; cbn [clone_skeleton_fuel].
  { apply emits_ret. }
  unfold clone_skeleton_body.
  apply emits_bind; [apply emits_modify|intros _].
  apply emits_bind; [apply emits_modify|intros _].
  destruct (xopendir sys _) as [|entries]; [apply emits_ret|]. cbv zeta.
  apply emits_bind; [|intros _].
  { apply emits_when. intros _. repeat emits_step; try done. by left. }
  apply emits_for_each. intros c Hc.
  destruct (insert_dummies_fields entries this) as (_ & Hp & _).
  apply no_stale_unfold in Hns. rewrite Forall_forall in Hns.
  apply insert_dummies_from in Hc as [Hc|(e & _ & _ & ->)].
  - destruct (Hns c Hc) as [Hmark Hcns].
    apply clone_skeleton_child_overlays; [|by apply IH].
    unfold is_root in *. by rewrite Hp.
  - apply clone_skeleton_child_overlays; [done|]. by apply IH.
Qed.

Lemma magic_mount_overlays this :
  forall up, no_stale this = true -> emits (overlays h) (magic_mount h sys up this).
Proof.
  induction this as [m n t s p cs IH] using node_entry_nested_ind; intros up Hns.
  destruct (has IS_MODULE (Node m n t s p cs)) eqn:Hm.
  { intros g. rewrite magic_mount_module by done. constructor; [|constructor].
    right. split_and!; [done..|]. eexists. split; [done|]. right. by exists m. }
  cbn [magic_mount]. rewrite Hm.
  destruct (has IS_SKEL _).
  { by apply clone_skeleton_fuel_overlays. }
  destruct (has IS_INTER _); [|apply emits_ret].
  apply emits_for_each. intros c Hc.
  apply no_stale_unfold in Hns. rewrite Forall_forall in Hns, IH.
  apply IH; [done|]. by apply Hns.
Qed.

Lemma extract_no_stale (this : node_entry) :
  parent this = nullptr -> all_marked this = true ->
  no_stale (extract this "vendor").1 = true
  /\ forall node, (extract this "vendor").2 = Some node -> no_stale node = true.
Proof.
  intros Hp [_ Hcs]%all_marked_unfold. unfold extract.
  destruct (extract_loop (children this) "vendor") as [cs r] eqn:E. cbn [fst snd].
  destruct r as [node|].
  - apply extract_loop_some in E as (l1 & child & l2 & Hcs' & Hl1 & Hn & -> & ->).
    rewrite Hcs' in Hcs. apply Forall_app in Hcs as [H1 H2].
    inversion H2 as [|? ? Hchild H3]; subst. split.
    + apply no_stale_unfold. cbn [children set_children].
      assert (forall cs', is_root (set_children cs' this) = true) as Hroot.
      { intros cs'. unfold is_root. destruct this. cbn in *. by subst. }
      rewrite Hroot.
      apply Forall_app. split; [|constructor].
      * eapply Forall_impl; [exact H1|]. intros c Hc. split; [|by apply all_marked_no_stale].
        by apply all_marked_unfold in Hc as [-> _].
      * split; [|done]. cbn [placeholder name]. by rewrite orb_true_r.
      * eapply Forall_impl; [exact H3|]. intros c Hc. split; [|by apply all_marked_no_stale].
        by apply all_marked_unfold in Hc as [-> _].
    + intros node [= <-]. apply all_marked_no_stale in Hchild.
      rewrite no_stale_unfold in *. destruct child as [m nm t s p cs]. cbn in *.
      eapply Forall_impl; [exact Hchild|]. intros c [Hc ?]. split; [|done].
      apply orb_true_iff in Hc as [->|Hc]; [done|].
      apply orb_true_iff. right. apply andb_true_iff in Hc as [_ ->]. done.
  - split; [|done].
    assert (cs = children this) as ->.
    { clear -E. revert cs E. induction (children this) as [|c l IH]; intros cs; cbn.
      - by intros [= <-].
      - case_bool_decide; [done|]. destruct (extract_loop l "vendor") as [rest r].
        intros [= <- ->]. by rewrite (IH rest). }
    rewrite set_children_id. apply no_stale_unfold.
    eapply Forall_impl; [exact Hcs|]. intros c Hc. split; [|by apply all_marked_no_stale].
    by apply all_marked_unfold in Hc as [-> _].
Qed.
End Marked.

(** X20: what magic mount shows.  Below a tree in which every child
    carries a mark (the placeholder for vendor at the root excepted), every
    mount is the tmpfs of a skeleton or a bind mount, and every bind mount
    and every copy puts at its target the file that a module, or the
    mirror, has for that same path.  The tree that post-fs-data composes is
    such a tree when the directories of the system hold nothing but
    directories, regular files and symlinks.  A child that carries no mark
    when the skeleton reaches it (an entry of another type over a target
    that exists is left so) is mounted or copied from whatever the source
    buffer held. *)
Theorem mounts_show_same_path (h : magisk_h) (sys : platform)
    (modules : list string) (g g' : globals) :
  plain sys ->
  Forall (overlays h) (trace (mount_modules h sys (composed h sys modules g) g'))
  /\ (forall this up g0,
        no_stale this = true ->
        Forall (overlays h) (trace (magic_mount h sys up this g0))
        /\ Forall (overlays h) (trace (clone_skeleton h sys up this g0)))
  /\ (forall descend this full_path c g0,
        is_root this && bool_decide (name c = "vendor") = false ->
        has_mark c = false ->
        trace (clone_skeleton_child h descend this full_path c g0)
        = expose (buf2 g0) (full_path +:+ "/" +:+ name c) (type c)).
Proof.
  intros Hsys. split_and!.
  - unfold composed.
    destruct (load_modules_marked h sys Hsys modules (new_node "system" IS_INTER 0) false
                eq_refl g) as [Hall Hp].
    set (root := (result _).1) in *. unfold mount_modules.
    destruct (extract_no_stale root Hp Hall) as [Hroot Hven].
    destruct (extract root "vendor") as [sys_root ven_root]. cbn [fst snd] in *.
    rewrite trace_bind. apply Forall_app. split.
    + by apply magic_mount_overlays.
    + destruct ven_root as [ven_root|]; [|constructor].
      apply magic_mount_overlays. by apply Hven.
  - intros this up g0 Hns. split.
    + by apply magic_mount_overlays.
    + by apply clone_skeleton_fuel_overlays.
  - intros. by apply clone_skeleton_child_stale.
Qed.

Lemma phone_plain : plain phone.
Proof. intros path. unfold phone. cbn [xopendir]. repeat case_bool_decide; reflexivity. Qed.

Lemma mounts_show_same_path_phone :
  plain phone
  /\ Forall (overlays magisk)
       (trace (mount_modules magisk phone (composed magisk phone ["new_tool"] boot) boot)).
Proof.
  split; [apply phone_plain|].
  apply (mounts_show_same_path magisk phone ["new_tool"] boot boot phone_plain).
Defined.

(** *** Startup *)

Section Blocks.
Context (ssys : startup_sys).

Lemma unlock_blocks_spec g :
  calls (unlock_blocks ssys g)
  = xopen "/dev/block" (Z.lor O_RDONLY O_CLOEXEC)
    :: (if dev_block_fd ssys <? 0 then []
        else xfdopendir (dev_block_fd ssys)
             :: flat_map (unlock_calls ssys) (entries_of (dev_block ssys))
             ++ [close (dev_block_fd ssys)])
  /\ state (unlock_blocks ssys g) = g.
Proof.
  unfold unlock_blocks. rewrite calls_bind, state_bind.
  change (state (call_ _ g)) with g. change (calls (call_ ?c g)) with [c].
  destruct (dev_block_fd ssys <? 0); [done|].
  rewrite !calls_bind, !state_bind.
  change (state (call_ _ g)) with g.
  match goal with |- context [sfor_each ?f ?l g] =>
    destruct (sfor_each_calls f (unlock_calls ssys) l) with (g := g) as [-> ->] end.
  { intros e g' _. unfold unlock_calls, swhen.
    case_bool_decide; [|done]. rewrite calls_bind, state_bind.
    change (state (call_ _ g')) with g'.
    by destruct (openat_block ssys (d_name e) <? 0). }
  done.
Qed.
End Blocks.

(** X21: [unlock_blocks] sets BLKROSET to 0 on every block device of
    /dev/block that opens, and on nothing else: for such an entry the
    device is opened, made writable and closed again, in that order; an
    entry that is not a block device is not opened; the directory
    descriptor is closed last; and when /dev/block does not open nothing
    else is done.  The globals are left alone. *)
Theorem unlock_blocks_unlocks (ssys : startup_sys) (g : globals) :
  (dev_block_fd ssys < 0 ->
   calls (unlock_blocks ssys g) = [xopen "/dev/block" (Z.lor O_RDONLY O_CLOEXEC)])
  /\ (0 <= dev_block_fd ssys ->
      calls (unlock_blocks ssys g)
      = [xopen "/dev/block" (Z.lor O_RDONLY O_CLOEXEC); xfdopendir (dev_block_fd ssys)]
        ++ flat_map (unlock_calls ssys) (entries_of (dev_block ssys))
        ++ [close (dev_block_fd ssys)])
  /\ (forall e,
        e ∈ entries_of (dev_block ssys) -> d_type e = DT_BLK ->
        0 <= dev_block_fd ssys -> 0 <= openat_block ssys (d_name e) ->
        exists before rest,
          calls (unlock_blocks ssys g)
          = before
            ++ [openat (dev_block_fd ssys) (d_name e) O_RDONLY;
                ioctl_BLKROSET (openat_block ssys (d_name e)) 0;
                close (openat_block ssys (d_name e))]
            ++ rest)
  /\ Forall (fun c => forall fd v,
                 c = ioctl_BLKROSET fd v ->
                 v = 0 /\ exists e, e ∈ entries_of (dev_block ssys)
                                    /\ d_type e = DT_BLK
                                    /\ fd = openat_block ssys (d_name e)
                                    /\ 0 <= fd)
       (calls (unlock_blocks ssys g))
  /\ state (unlock_blocks ssys g) = g.
Proof.
  destruct (unlock_blocks_spec ssys g) as [Hc Ha]. rewrite Hc. split_and!.
  - intros Hfd. by rewrite (proj2 (Z.ltb_lt _ _) Hfd).
  - intros Hfd. by rewrite (proj2 (Z.ltb_ge _ _) Hfd).
  - intros e He Hblk Hfd Hopen. rewrite (proj2 (Z.ltb_ge _ _) Hfd).
    apply list_elem_of_split in He as (l1 & l2 & ->).
    rewrite flat_map_app. cbn [flat_map]. unfold unlock_calls at 2.
    rewrite bool_decide_eq_true_2 by done. rewrite (proj2 (Z.ltb_ge _ _) Hopen).
    eexists (_ :: _ :: flat_map (unlock_calls ssys) l1), _.
    cbn [app]. do 2 f_equal. rewrite <- !app_assoc. cbn [app]. reflexivity.
  - constructor; [by intros ? ? [=]|].
    destruct (dev_block_fd ssys <? 0); [constructor|].
    constructor; [by intros ? ? [=]|]. apply Forall_app. split.
    + apply Forall_flat_map, Forall_forall. intros e He. unfold unlock_calls.
      case_bool_decide as Hblk; [|constructor].
      constructor; [by intros ? ? [=]|].
      destruct (openat_block ssys (d_name e) <? 0) eqn:Hopen; [constructor|].
      apply Z.ltb_ge in Hopen.
      constructor; [|constructor; [by intros ? ? [=]|constructor]].
      intros fd v [= <- <-]. split; [done|]. by exists e.
    + constructor; [by intros ? ? [=]|constructor].
  - done.
Qed.

(** *** Installing the manager *)

Lemma read_output_spec (lines : list string) (last : string) (g : globals) :
  result (read_output lines last g) = existsb (fun line => strstr line "Error:") lines
  /\ trace (read_output lines last g) = [].
Proof.
  unfold read_output. rewrite result_bind, trace_bind.
  assert (forall err g0,
             result (fold_each (fun line err => set_buf line;; mret (err || strstr line "Error:"))
                       lines err g0)
             = err || existsb (fun line => strstr line "Error:") lines
             /\ trace (fold_each (fun line err => set_buf line;; mret (err || strstr line "Error:"))
                         lines err g0) = []) as H.
  { induction lines as [|line lines IH]; intros err g0.
    - by rewrite orb_false_r.
    - rewrite fold_each_cons, result_bind, trace_bind.
      change (result ((set_buf line;; mret (err || strstr line "Error:")) g0))
        with (err || strstr line "Error:").
      change (trace ((set_buf line;; mret (err || strstr line "Error:")) g0))
        with (@nil syscall).
      destruct (IH (err || strstr line "Error:")
                  (final ((set_buf line;; mret (err || strstr line "Error:")) g0)))
        as [Hr Ht].
      cbn [existsb]. rewrite orb_assoc. split; [exact Hr|]. by rewrite Ht. }
  destruct (H false g) as [Hr Ht]. rewrite Ht. split; [|done].
  rewrite result_bind. exact Hr.
Qed.

Section Install.
Context (k : startup_h) (ssys : startup_sys).

Lemma install_apk_attempt fuel n apk g :
  exists g',
    value (install_apk_from ssys (S fuel) n apk g)
    = (if clean (pm_install ssys n) then true
       else value (install_apk_from ssys fuel (S n) apk g'))
    /\ calls (install_apk_from ssys (S fuel) n apk g)
       = attempt_calls apk (pm_install ssys n)
         ++ (if clean (pm_install ssys n) then [later (unlink apk)]
             else calls (install_apk_from ssys fuel (S n) apk g')).
Proof.
  cbn [install_apk_from]. unfold clean, attempt_calls.
  rewrite ?value_bind, ?calls_bind, ?state_bind.
  change (state (call_ (sleep 5) g)) with g.
  change (state (call_ (exec_command _ _) g)) with g.
  change (calls (call_ ?c g)) with [c]. cbv zeta.
  destruct (bool_decide (pm_pid (pm_install ssys n) = -1)) eqn:Hpid; cbn [negb andb].
  { by exists g. }
  rewrite ?value_bind, ?calls_bind, ?state_bind.
  rewrite value_run, state_run, calls_run.
  destruct (read_output_spec (pm_lines (pm_install ssys n)) (pm_last (pm_install ssys n)) g)
    as [-> ->].
  set (g1 := final (read_output _ _ g)).
  change (state (call_ (waitpid _) g1)) with g1.
  change (state (call_ (close _) g1)) with g1.
  change (calls (call_ ?c g1)) with [c].
  exists g1. by destruct (existsb _ _).
Qed.

Lemma install_apk_from_clean apk n :
  forall fuel start g,
    (forall i, (start <= i < start + n)%nat -> clean (pm_install ssys i) = false) ->
    clean (pm_install ssys (start + n)) = true ->
    (n < fuel)%nat ->
    value (install_apk_from ssys fuel start apk g) = true
    /\ calls (install_apk_from ssys fuel start apk g)
       = flat_map (attempt_calls apk) (pm_install ssys <$> seq start (S n))
         ++ [later (unlink apk)].
Proof.
  induction n as [|n IH]; intros [|fuel] start g Hbad Hgood Hfuel; try lia.
  - destruct (install_apk_attempt fuel start apk g) as (g' & -> & ->).
    rewrite Nat.add_0_r in Hgood. rewrite Hgood. cbn. by rewrite app_nil_r.
  - destruct (install_apk_attempt fuel start apk g) as (g' & -> & ->).
    rewrite Hbad by lia.
    destruct (IH fuel (S start) g') as [Hv Hc].
    + intros i Hi. apply Hbad. lia.
    + by replace (S start + n)%nat with (start + S n)%nat by lia.
    + lia.
    + split; [exact Hv|]. rewrite Hc.
      change (seq start (S (S n))) with (start :: seq (S start) (S n)).
      rewrite fmap_cons. cbn [flat_map]. by rewrite <- app_assoc.
Qed.

Lemma install_apk_from_never apk fuel :
  forall start g,
    (forall i, (start <= i < start + fuel)%nat -> clean (pm_install ssys i) = false) ->
    value (install_apk_from ssys fuel start apk g) = false
    /\ calls (install_apk_from ssys fuel start apk g)
       = flat_map (attempt_calls apk) (pm_install ssys <$> seq start fuel).
Proof.
  induction fuel as [|fuel IH]; intros start g Hbad; [done|].
  destruct (install_apk_attempt fuel start apk g) as (g' & -> & ->).
  rewrite Hbad by lia.
  destruct (IH (S start) g') as [Hv Hc]; [intros i Hi; apply Hbad; lia|].
  split; [exact Hv|]. rewrite Hc.
  change (seq start (S fuel)) with (start :: seq (S start) fuel).
  by rewrite fmap_cons.
Qed.
End Install.

(** X22: [install_apk] keeps trying until pm was started and printed no
    line that holds "Error:".  When the attempt number n (from 0) is the
    first such attempt, the call returns once n + 1 attempts are allowed;
    its calls are the labelling of the APK, then for each attempt a sleep
    of five seconds and the start of pm, with the wait and the close of the
    pipe when pm started, and last, once, the unlink of the APK.  With n
    attempts or fewer it has not returned, and has not unlinked the APK. *)
Theorem install_apk_retries (k : startup_h) (ssys : startup_sys) (apk : string)
    (g : globals) (n fuel : nat) :
  (forall i, (i < n)%nat -> clean (pm_install ssys i) = false) ->
  clean (pm_install ssys n) = true ->
  (n < fuel)%nat ->
  value (install_apk_fuel k ssys fuel apk g) = true
  /\ calls (install_apk_fuel k ssys fuel apk g)
     = setfilecon apk ("u:object_r:" +:+ SEPOL_FILE_DOMAIN k +:+ ":s0")
       :: flat_map (attempt_calls apk) (pm_install ssys <$> seq 0 (S n))
       ++ [later (unlink apk)]
  /\ forall fuel',
       (fuel' <= n)%nat ->
       value (install_apk_fuel k ssys fuel' apk g) = false
       /\ later (unlink apk) ∉ calls (install_apk_fuel k ssys fuel' apk g).
Proof.
  intros Hbad Hgood Hfuel. unfold install_apk_fuel.
  rewrite value_bind, calls_bind. change (state (call_ _ g)) with g.
  change (calls (call_ ?c g)) with [c].
  destruct (install_apk_from_clean ssys apk n fuel 0%nat g) as [Hv Hc];
    [intros i Hi; apply Hbad; lia|done..|].
  split_and!; [done|by rewrite Hc|].
  intros fuel' Hle. rewrite value_bind, calls_bind. change (state (call_ _ g)) with g.
  change (calls (call_ ?c g)) with [c].
  destruct (install_apk_from_never ssys apk fuel' 0%nat g) as [Hv' Hc'];
    [intros i Hi; apply Hbad; lia|].
  split; [done|]. rewrite Hc'. cbn [app].
  intros [[=]|Hin]%elem_of_cons.
  apply list_elem_of_In, in_flat_map in Hin as (a & _ & Hin).
  apply list_elem_of_In in Hin. unfold attempt_calls in Hin.
  destruct (bool_decide (pm_pid a = -1));
    repeat (apply elem_of_cons in Hin as [[=]|Hin]); by apply elem_of_nil in Hin.
Qed.

Lemma install_apk_retries_slow_pm :
  (forall i, (i < 2)%nat -> clean (pm_install early i) = false)
  /\ clean (pm_install early 2) = true
  /\ value (install_apk_fuel magisk_startup early 3 "/data/magisk.apk" boot) = true
  /\ calls (install_apk_fuel magisk_startup early 3 "/data/magisk.apk" boot)
     = [setfilecon "/data/magisk.apk" "u:object_r:magisk_file:s0";
        sleep 5; exec_command 1 ["/system/bin/pm"; "install"; "-r"; "/data/magisk.apk"];
        sleep 5; exec_command 1 ["/system/bin/pm"; "install"; "-r"; "/data/magisk.apk"];
        waitpid 312; close 7;
        sleep 5; exec_command 1 ["/system/bin/pm"; "install"; "-r"; "/data/magisk.apk"];
        waitpid 340; close 7;
        later (unlink "/data/magisk.apk")].
Proof.
  assert (forall i, (i < 2)%nat -> clean (pm_install early i) = false) as Hbad.
  { intros [|[|i]] Hi; [by vm_compute..|lia]. }
  assert (clean (pm_install early 2) = true) as Hgood by by vm_compute.
  destruct (install_apk_retries magisk_startup early "/data/magisk.apk" boot 2 3
              Hbad Hgood ltac:(lia)) as (Hv & Hc & _).
  split_and!; [done..|exact Hc].
Defined.

(** *** late_start *)

Section Service.
Context (h : magisk_h) (k : startup_h) (sys : platform) (ssys : startup_sys).

Lemma manager_calls_none (n : nat) :
  installs h sys = false -> manager_calls h k sys ssys n = [].
Proof.
  unfold installs, manager_calls. destruct (access_F_OK sys (MANAGERAPK h)); [done|].
  cbn [orb]. by intros ->.
Qed.

Lemma install_manager_none (fuel : nat) (g : globals) :
  installs h sys = false -> install_manager h k sys ssys fuel g = (true, g, []).
Proof.
  unfold installs, install_manager. destruct (access_F_OK sys (MANAGERAPK h)); [done|].
  cbn [orb]. by destruct (get_magiskdb sys), (bool_decide (validate_manager sys = 0)).
Qed.

Lemma leaves_install_manager (fuel : nat) :
  leaves module_list (install_manager h k sys ssys fuel).
Proof.
  unfold install_manager, install_apk_fuel.
  repeat first [ apply leaves_bind; [|intros ?] | apply leaves_call | apply leaves_ret
               | by apply leaves_install_apk_from
               | match goal with |- leaves _ (if ?b then _ else _) => destruct b end ].
Qed.

Lemma install_apk_fuel_clean (apk : string) (n fuel : nat) (g : globals) :
  first_clean ssys n -> (n < fuel)%nat ->
  value (install_apk_fuel k ssys fuel apk g) = true
  /\ calls (install_apk_fuel k ssys fuel apk g) = install_calls k ssys n apk.
Proof.
  intros [Hbad Hgood] Hfuel. unfold install_apk_fuel, install_calls.
  rewrite value_bind, calls_bind. change (state (call_ _ g)) with g.
  change (calls (call_ ?c g)) with [c].
  destruct (install_apk_from_clean ssys apk n fuel 0%nat g) as [Hv Hc];
    [intros i Hi; apply Hbad; lia|done..|].
  split; [done|]. by rewrite Hc.
Qed.

Lemma install_apk_fuel_short (apk : string) (n fuel : nat) (g : globals) :
  first_clean ssys n -> (fuel <= n)%nat ->
  value (install_apk_fuel k ssys fuel apk g) = false.
Proof.
  intros [Hbad Hgood] Hfuel. unfold install_apk_fuel.
  rewrite value_bind. change (state (call_ _ g)) with g.
  destruct (install_apk_from_never ssys apk fuel 0%nat g) as [Hv _]; [|done].
  intros i Hi. apply Hbad. lia.
Qed.

Lemma install_manager_clean (n fuel : nat) (g : globals) :
  first_clean ssys n -> (n < fuel)%nat ->
  value (install_manager h k sys ssys fuel g) = true
  /\ calls (install_manager h k sys ssys fuel g) = manager_calls h k sys ssys n.
Proof.
  intros Hn Hfuel. unfold install_manager, manager_calls.
  destruct (access_F_OK sys (MANAGERAPK h)).
  { rewrite value_bind, calls_bind. change (state (call_ _ g)) with g.
    change (calls (call_ ?c g)) with [c].
    by destruct (install_apk_fuel_clean "/data/magisk.apk" n fuel g Hn Hfuel) as [-> ->]. }
  destruct (get_magiskdb sys); [|done].
  destruct (bool_decide (validate_manager sys = 0)); [done|]. cbn [negb andb].
  rewrite value_bind, calls_bind. change (state (call_ _ g)) with g.
  change (calls (call_ ?c g)) with [c].
  by destruct (install_apk_fuel_clean "/data/magisk.apk" n fuel g Hn Hfuel) as [-> ->].
Qed.

Lemma install_manager_short (n fuel : nat) (g : globals) :
  installs h sys = true -> first_clean ssys n -> (fuel <= n)%nat ->
  value (install_manager h k sys ssys fuel g) = false.
Proof.
  intros Hi Hn Hfuel. unfold installs in Hi. unfold install_manager.
  destruct (access_F_OK sys (MANAGERAPK h)).
  { rewrite value_bind. change (state (call_ _ g)) with g.
    by apply (install_apk_fuel_short _ n). }
  cbn [orb] in Hi. apply andb_true_iff in Hi as [-> ->].
  rewrite value_bind. change (state (call_ _ g)) with g.
  by apply (install_apk_fuel_short _ n).
Qed.

Lemma late_start_spec (fuel : nat) (g : globals) :
  exists g2,
    module_list g2 = module_list g
    /\ value (late_start h k sys ssys fuel g)
       = (if setup_done g then value (install_manager h k sys ssys fuel g2) else true)
    /\ calls (late_start h k sys ssys fuel g)
       = later (write_int_close 0)
         :: (later <$> (if access_F_OK sys (SECURE_DIR h) then []
                        else [xmkdir (SECURE_DIR h) mode_0700]))
         ++ (if setup_done g then
               (later <$> (hide_calls h sys
                           ++ (exec_sh set_path <$> common_scripts h sys "service")
                           ++ (if access_F_OK sys (DISABLEFILE h) then []
                               else exec_sh set_path
                                      <$> module_scripts h sys "service" (module_list g))))
               ++ calls (install_manager h k sys ssys fuel g2)
             else [later reboot])
    /\ module_list (state (late_start h k sys ssys fuel g))
       = (if setup_done g && value (install_manager h k sys ssys fuel g2) then []
          else module_list g).
Proof.
  unfold late_start. rewrite late_start_head.
  change (value (?x, _, _)) with x. change (calls (_, _, ?t)) with t.
  change (state (_, ?s, _)) with s.
  destruct (setup_done g); cbn [negb andb]; [|by exists g].
  fold (install_manager h k sys ssys fuel).
  repeat (progress (rewrite ?value_bind, ?calls_bind, ?state_bind; cbv beta)).
  rewrite !state_run, !calls_run.
  set (g1 := final (exec_common_script h sys "service"
                      (final (auto_start_magiskhide h sys g)))).
  set (g2 := state (swhen (negb (access_F_OK sys (DISABLEFILE h)))
                      (run (exec_module_script h sys "service")) g1)).
  assert (module_list g1 = module_list g) as Hl1.
  { subst g1. rewrite keeps_module_list_exec_common_script.
    assert (keeps module_list (auto_start_magiskhide h sys)) as Hk
      by (unfold auto_start_magiskhide; repeat keeps_step).
    apply Hk. }
  assert (module_list g2 = module_list g) as Hl2.
  { subst g2. destruct (access_F_OK sys (DISABLEFILE h)); [done|]. cbn [negb swhen].
    by rewrite state_run, keeps_module_list_exec_module_script. }
  exists g2. split; [done|].
  assert (calls (swhen (negb (access_F_OK sys (DISABLEFILE h)))
                   (run (exec_module_script h sys "service")) g1)
          = later <$> (if access_F_OK sys (DISABLEFILE h) then []
                       else exec_sh set_path
                              <$> module_scripts h sys "service" (module_list g))) as ->.
  { destruct (access_F_OK sys (DISABLEFILE h)); [done|]. cbn [negb swhen].
    by rewrite calls_run, exec_module_script_trace, Hl1. }
  rewrite auto_start_magiskhide_trace, exec_common_script_trace.
  pose proof (leaves_install_manager fuel g2) as Hlm. rewrite Hl2 in Hlm.
  destruct (value (install_manager h k sys ssys fuel g2)).
  - split_and!; [done| |].
    + change (calls ((run (set_module_list []) ≫= _) _)) with (@nil call).
      by rewrite app_nil_r, !fmap_app, <- !app_assoc.
    + rewrite state_bind, state_run.
      by destruct (state (install_manager h k sys ssys fuel g2)).
  - split_and!; [done| |exact Hlm].
    change (calls (@mret sio _ bool false _)) with (@nil call).
    by rewrite app_nil_r, !fmap_app, <- !app_assoc.
Qed.
Lemma late_start_returns (g : globals) (n fuel : nat) :
  (setup_done g && installs h sys = true -> first_clean ssys n /\ (n < fuel)%nat) ->
  value (late_start h k sys ssys fuel g) = true
  /\ calls (late_start h k sys ssys fuel g)
     = later (write_int_close 0)
       :: (later <$> (if access_F_OK sys (SECURE_DIR h) then []
                      else [xmkdir (SECURE_DIR h) mode_0700]))
       ++ (if setup_done g then
             (later <$> (hide_calls h sys
                         ++ (exec_sh set_path <$> common_scripts h sys "service")
                         ++ (if access_F_OK sys (DISABLEFILE h) then []
                             else exec_sh set_path
                                    <$> module_scripts h sys "service" (module_list g))))
             ++ manager_calls h k sys ssys n
           else [later reboot])
  /\ module_list (state (late_start h k sys ssys fuel g))
     = (if setup_done g then [] else module_list g).
Proof.
  intros H. destruct (late_start_spec fuel g) as (g2 & Hl & Hv & Hc & Hm).
  destruct (setup_done g); [|done]. cbn [andb] in *.
  destruct (installs h sys) eqn:Hi.
  - destruct (H eq_refl) as [Hn Hfuel].
    destruct (install_manager_clean n fuel g2 Hn Hfuel) as [Hv' Hc'].
    rewrite Hv' in *. by rewrite Hc' in Hc.
  - rewrite (install_manager_none fuel g2 Hi) in Hv, Hc, Hm.
    by rewrite manager_calls_none.
Qed.

Lemma late_start_hangs (g : globals) (n fuel : nat) :
  setup_done g && installs h sys = true -> first_clean ssys n -> (fuel <= n)%nat ->
  value (late_start h k sys ssys fuel g) = false
  /\ module_list (state (late_start h k sys ssys fuel g)) = module_list g.
Proof.
  intros [Hs Hi]%andb_true_iff Hn Hfuel.
  destruct (late_start_spec fuel g) as (g2 & Hl & Hv & Hc & Hm).
  rewrite Hs in *. cbn [andb] in *.
  rewrite (install_manager_short n fuel g2 Hi Hn Hfuel) in Hv, Hm. done.
Qed.
End Service.

(** X15: late_start in full, as far as [install_apk] lets it go.  After the
    acknowledgement the secure directory is created when it is missing.
    Without [setup_done] the only other call is the reboot, late_start
    returns and the module list stays.  With it, MagiskHide is started, the
    common service scripts are run, then, unless the disable file exists,
    the service scripts of the modules of the list; the manager is installed
    at most once, from the shipped APK or else from the stub.  When the
    manager is installed and the attempt number n of pm is the first clean
    one, late_start returns, with the module list empty, once n + 1 attempts
    are allowed; with n attempts or fewer it has not returned and the
    module list has not been cleared. *)
Theorem late_start_calls (h : magisk_h) (k : startup_h) (sys : platform)
    (ssys : startup_sys) (g : globals) (n fuel : nat) :
  (setup_done g && installs h sys = true -> first_clean ssys n /\ (n < fuel)%nat) ->
  value (late_start h k sys ssys fuel g) = true
  /\ calls (late_start h k sys ssys fuel g)
     = later (write_int_close 0)
       :: (later <$> (if access_F_OK sys (SECURE_DIR h) then []
                      else [xmkdir (SECURE_DIR h) mode_0700]))
       ++ (if setup_done g then
             (later <$> (hide_calls h sys
                         ++ (exec_sh set_path <$> common_scripts h sys "service")
                         ++ (if access_F_OK sys (DISABLEFILE h) then []
                             else exec_sh set_path
                                    <$> module_scripts h sys "service" (module_list g))))
             ++ manager_calls h k sys ssys n
           else [later reboot])
  /\ module_list (state (late_start h k sys ssys fuel g))
     = (if setup_done g then [] else module_list g)
  /\ (setup_done g && installs h sys = true ->
      forall fuel',
        (fuel' <= n)%nat ->
        value (late_start h k sys ssys fuel' g) = false
        /\ module_list (state (late_start h k sys ssys fuel' g)) = module_list g).
Proof.
  intros H. destruct (late_start_returns h k sys ssys g n fuel H) as (Hv & Hc & Hm).
  split_and!; [done..|].
  intros Hi fuel' Hle. apply (late_start_hangs h k sys ssys g n); [done| |done].
  by destruct (H Hi).
Qed.

Lemma early_first_clean : first_clean early 2.
Proof. split; [|by vm_compute]. intros [|[|i]] Hi; [by vm_compute..|lia]. Qed.

Lemma late_start_calls_shipped :
  first_clean early 2
  /\ value (late_start magisk magisk_startup shipped early 3 (started boot)) = true
  /\ module_list (state (late_start magisk magisk_startup shipped early 3 (started boot)))
     = []
  /\ value (late_start magisk magisk_startup shipped early 2 (started boot)) = false.
Proof.
  destruct (late_start_calls magisk magisk_startup shipped early (started boot) 2 3)
    as (Hv & _ & Hm & Hh).
  { intros _. split; [apply early_first_clean|lia]. }
  split_and!; [apply early_first_clean|exact Hv|exact Hm|].
  by destruct (Hh eq_refl 2%nat ltac:(lia)).
Defined.

(** X16: post-fs-data followed by late_start.  Post-fs-data leaves the
    module list extended by the modules enumerated whenever the image got
    mounted, also when the trim failed afterwards and the boot went
    core-only, and leaves it as it was otherwise.  The late_start that
    follows never reboots; unless the disable file exists it runs the
    service scripts of exactly that list; and when no manager is to be
    installed, or the attempt number n of pm is the first clean one and
    n + 1 attempts are allowed, it returns with the list empty.  With a
    manager to install and n attempts or fewer it has not returned, and the
    list is still the one post-fs-data left. *)
Theorem service_after_post_fs_data (h : magisk_h) (k : startup_h) (sys : platform)
    (ssys : startup_sys) (g : globals) (n fuel : nat) :
  module_list (final (post_fs_data h sys g))
  = module_list g ++ (if image_mounted h sys then enumerated h sys else [])
  /\ ((installs h sys = true -> first_clean ssys n /\ (n < fuel)%nat) ->
      value (late_start h k sys ssys fuel (final (post_fs_data h sys g))) = true
      /\ calls (late_start h k sys ssys fuel (final (post_fs_data h sys g)))
         = later (write_int_close 0)
           :: (later <$> (if access_F_OK sys (SECURE_DIR h) then []
                          else [xmkdir (SECURE_DIR h) mode_0700]))
           ++ (later <$> (hide_calls h sys
                          ++ (exec_sh set_path <$> common_scripts h sys "service")
                          ++ (if access_F_OK sys (DISABLEFILE h) then []
                              else exec_sh set_path
                                     <$> module_scripts h sys "service"
                                           (module_list g
                                            ++ (if image_mounted h sys
                                                then enumerated h sys else [])))))
           ++ manager_calls h k sys ssys n
      /\ module_list (state (late_start h k sys ssys fuel (final (post_fs_data h sys g))))
         = [])
  /\ (installs h sys = true -> first_clean ssys n ->
      forall fuel',
        (fuel' <= n)%nat ->
        value (late_start h k sys ssys fuel' (final (post_fs_data h sys g))) = false
        /\ module_list (state (late_start h k sys ssys fuel'
                                 (final (post_fs_data h sys g))))
           = module_list g ++ (if image_mounted h sys then enumerated h sys else [])).
Proof.
  assert (module_list (final (post_fs_data h sys g))
          = module_list g ++ (if image_mounted h sys then enumerated h sys else []))
    as Hl.
  { rewrite post_fs_data_module_list.
    destruct (prepare_img_spec h sys (started g)) as [Hno Hyes].
    destruct (image_mounted h sys).
    - by destruct (Hyes eq_refl) as (-> & _).
    - destruct (Hno eq_refl) as (_ & -> & _). by rewrite app_nil_r. }
  split_and!; [done| |].
  - intros H.
    destruct (late_start_returns h k sys ssys (final (post_fs_data h sys g)) n fuel)
      as (Hv & Hc & Hm).
    { rewrite post_fs_data_sets_setup_done. exact H. }
    rewrite post_fs_data_sets_setup_done in Hc, Hm. by rewrite Hl in Hc.
  - intros Hi Hn fuel' Hle. rewrite <- Hl.
    apply (late_start_hangs h k sys ssys _ n); [|done..].
    by rewrite post_fs_data_sets_setup_done.
Qed.

Lemma service_after_post_fs_data_shipped :
  first_clean early 2
  /\ value (late_start magisk magisk_startup shipped early 3
              (final (post_fs_data magisk shipped boot))) = true
  /\ module_list (state (late_start magisk magisk_startup shipped early 3
                            (final (post_fs_data magisk shipped boot)))) = []
  /\ value (late_start magisk magisk_startup shipped early 2
              (final (post_fs_data magisk shipped boot))) = false.
Proof.
  destruct (service_after_post_fs_data magisk magisk_startup shipped early boot 2 3)
    as (_ & Hr & Hh).
  destruct Hr as (Hv & _ & Hm); [intros _; split; [apply early_first_clean|lia]|].
  split_and!; [apply early_first_clean|exact Hv|exact Hm|].
  by destruct (Hh eq_refl early_first_clean 2%nat ltac:(lia)).
Defined.

(** *** How startup ends *)

Section Ends.
Context (h : magisk_h) (k : startup_h) (sys : platform) (ssys : startup_sys).

Lemma emits_simple_mount_in (P : syscall -> Prop) dir :
  (forall a b, P (clone_attr a b)) -> (forall a b c d, P (xmount a b c d)) ->
  forall path, emits P (simple_mount_in h sys dir path).
Proof.
  intros H1 H2. induction dir as [|entries IH] using DIR_nested_ind; intros path;
    cbn [simple_mount_in]; repeat emits_step.
  unfold simple_mount_entry. repeat emits_step; try done.
  rewrite Forall_forall in IH. by apply IH.
Qed.

Lemma emits_sscanf_mount (P : syscall -> Prop) line : emits P (sscanf_mount line).
Proof. unfold sscanf_mount. repeat emits_step. Qed.

Lemma emits_mount_mirrors (P : syscall -> Prop) :
  (forall a b c d, P (xmount a b c d)) -> (forall a b, P (xmkdir a b)) ->
  (forall a b, P (xsymlink a b)) ->
  emits P (mount_mirrors h sys).
Proof.
  intros H1 H2 H3. unfold mount_mirrors. repeat emits_step; try done.
  apply emits_fold_each. intros line s _. unfold mount_mirror, set_seperate_vendor.
  repeat emits_step; try done; apply emits_sscanf_mount.
Qed.

Lemma makes_find_bin (P : call -> Prop) paths :
  (forall p, P (later (rm_rf p))) -> (forall a b, P (cp_afc_from a b)) ->
  forall bin_path, makes P (find_bin k ssys paths bin_path).
Proof.
  intros H1 H2. induction paths as [|p paths IH]; intros bin_path;
    cbn [find_bin]; repeat makes_step; try done; apply IH.
Qed.

Lemma makes_unlock_blocks (P : call -> Prop) :
  (forall c, final_call c = false -> P c) -> makes P (unlock_blocks ssys).
Proof. intros HP. unfold unlock_blocks. repeat makes_step; by apply HP. Qed.

Lemma startup_stops :
  check_data sys = true -> access_F_OK sys (SECURE_DIR h) = true ->
  stops_with (fun c => final_call c = false)
    [execl "/sbin/magisk.bin" ["magisk"; "--post-fs-data"]]
    (startup h k sys ssys).
Proof.
  intros Hd Hs. unfold startup. rewrite Hd, Hs. cbn [negb].
  apply stops_with_bind; [by apply makes_call|]. intros _.
  repeat (apply stops_with_bind; [|intros ?]); [..|apply stops_with_call].
  all: unfold move_binaries, write_file.
  all: repeat first
         [ apply makes_unlock_blocks; done
         | apply makes_find_bin; done
         | apply makes_run, emits_mount_mirrors; done
         | apply makes_run, emits_simple_mount_in; done
         | makes_step
         | emits_step ]; done.
Qed.
End Ends.

(** X23: [startup] ends in one of two ways.  When data is not ready, or
    the secure directory does not exist, it sets up logging, unblocks the
    boot process and ends the thread: nothing is mounted, linked or written,
    and the globals are as they were.  Otherwise it never ends the thread:
    its last call is the exec of /sbin/magisk.bin in post-fs-data mode, and
    no call before it ends the thread or execs. *)
Theorem startup_hands_over (h : magisk_h) (k : startup_h) (sys : platform)
    (ssys : startup_sys) (g : globals) :
  (check_data sys = false \/ access_F_OK sys (SECURE_DIR h) = false ->
   calls (startup h k sys ssys g)
   = [android_logging;
      later (xopen_close (UNBLOCKFILE h) (Z.lor O_RDONLY O_CREAT) 0);
      later pthread_exit]
   /\ state (startup h k sys ssys g) = g)
  /\ (check_data sys = true -> access_F_OK sys (SECURE_DIR h) = true ->
      exists before,
        calls (startup h k sys ssys g)
        = before ++ [execl "/sbin/magisk.bin" ["magisk"; "--post-fs-data"]]
        /\ Forall (fun c => c ≠ later pthread_exit /\ forall p a, c ≠ execl p a) before).
Proof.
  split.
  - intros Hexit. unfold startup. rewrite calls_bind, state_bind.
    change (state (call_ _ g)) with g. change (calls (call_ ?c g)) with [c].
    assert ((if negb (check_data sys) then run (unblock_boot_process h)
             else if negb (access_F_OK sys (SECURE_DIR h))
                  then run (unblock_boot_process h)
                  else _) = run (unblock_boot_process h)) as ->; [|by destruct g].
    destruct Hexit as [-> | ->]; [done|]. by destruct (check_data sys).
  - intros Hd Hs. destruct (startup_stops h k sys ssys Hd Hs g) as (before & -> & Hb).
    exists before. split; [done|]. eapply Forall_impl; [exact Hb|].
    intros c Hc. split; [by intros ->|by intros p a ->].
Qed.

(** *** The mirrors *)

Section Mirrors.
Context (h : magisk_h) (sys : platform).

Lemma keeps_sscanf_mount {B} (f : globals -> B) line :
  (forall b b2 l d v b' b2', f (Globals b b2 l d v) = f (Globals b' b2' l d v)) ->
  keeps f (sscanf_mount line).
Proof. intros Hf. unfold sscanf_mount. repeat keeps_step; by intros. Qed.

Lemma final_after_sscanf {A} (flag : bool) line (m : io A) g :
  seperate_vendor g = flag ->
  (forall g', seperate_vendor g' = flag -> seperate_vendor (final (m g')) = flag) ->
  seperate_vendor (final ((sscanf_mount line;; m) g)) = flag.
Proof.
  intros Hg Hm. rewrite final_bind. apply Hm.
  by rewrite (keeps_sscanf_mount seperate_vendor line ltac:(done) g).
Qed.

Lemma mount_mirror_flag line sar g :
  one_mount_point sys line = true ->
  seperate_vendor (final (mount_mirror h sys line sar g))
  = seperate_vendor g || contains sys line " /vendor ".
Proof.
  intros Hone. unfold one_mount_point in Hone. unfold mount_mirror.
  destruct (contains sys line " /system_root ") eqn:H1,
    (contains sys line " /system ") eqn:H2,
    (contains sys line " /vendor ") eqn:H3; cbn in Hone; try done;
    rewrite ?orb_false_r, ?orb_true_r, ?andb_false_r, ?andb_true_r.
  - by destruct g.
  - destruct sar; cbn [negb]; [done|].
    apply final_after_sscanf; [done|]. by intros [].
  - rewrite final_bind. apply final_after_sscanf; [by destruct g|]. by intros [].
  - done.
Qed.

Lemma mount_mirror_root line sar g :
  result (mount_mirror h sys line sar g) = sar || contains sys line " /system_root ".
Proof.
  unfold mount_mirror. destruct (contains sys line " /system_root ").
  { by rewrite orb_true_r. }
  rewrite orb_false_r.
  destruct (negb sar && contains sys line " /system ");
    [|destruct (contains sys line " /vendor ")]; by rewrite ?result_bind.
Qed.

Lemma mount_mirrors_loop lines :
  forall sar g,
    forallb (one_mount_point sys) lines = true ->
    seperate_vendor (final (fold_each (mount_mirror h sys) lines sar g))
    = seperate_vendor g || existsb (fun line => contains sys line " /vendor ") lines.
Proof.
  induction lines as [|line lines IH]; intros sar g Hone.
  { by rewrite orb_false_r. }
  cbn [forallb existsb] in *. apply andb_true_iff in Hone as [H1 Hone].
  rewrite fold_each_cons, final_bind, IH by done.
  by rewrite mount_mirror_flag, orb_assoc.
Qed.

Lemma mount_mirrors_root lines :
  forall sar g,
    existsb (fun line => contains sys line " /system_root ") lines = true ->
    xmount (Some "/system_root/system") (MIRRDIR h +:+ "/system") None MS_BIND
      ∈ trace (fold_each (mount_mirror h sys) lines sar g).
Proof.
  induction lines as [|line lines IH]; intros sar g; [done|].
  cbn [existsb]. rewrite fold_each_cons, trace_bind, elem_of_app.
  destruct (contains sys line " /system_root ") eqn:H1.
  - intros _. left. unfold mount_mirror. rewrite H1. left.
  - intros Hex. right. by apply IH.
Qed.
End Mirrors.

(** X24: how [startup] finds out about a separate vendor partition.  On
    a /proc/mounts whose lines each name at most one of /system_root,
    /system and /vendor, the flag [seperate_vendor] is set, and never
    cleared, exactly when a line names /vendor; the link from the mirror's
    vendor to the vendor directory inside the system mirror is made exactly
    when the flag is unset after the lines were read; and when a line names
    /system_root the system mirror is bind-mounted from /system_root/system. *)
Theorem vendor_partition_detected (h : magisk_h) (sys : platform) (g : globals) :
  forallb (one_mount_point sys) (file_to_array sys "/proc/mounts") = true ->
  seperate_vendor (final (mount_mirrors h sys g))
  = seperate_vendor g
    || existsb (fun line => contains sys line " /vendor ") (file_to_array sys "/proc/mounts")
  /\ (xsymlink (MIRRDIR h +:+ "/system/vendor") (MIRRDIR h +:+ "/vendor")
        ∈ trace (mount_mirrors h sys g)
      <-> seperate_vendor (final (mount_mirrors h sys g)) = false)
  /\ (existsb (fun line => contains sys line " /system_root ")
        (file_to_array sys "/proc/mounts") = true ->
      xmount (Some "/system_root/system") (MIRRDIR h +:+ "/system") None MS_BIND
        ∈ trace (mount_mirrors h sys g)).
Proof.
  intros Hone. unfold mount_mirrors. rewrite !final_bind, !trace_bind.
  set (loop := fold_each (mount_mirror h sys) (file_to_array sys "/proc/mounts") false g).
  change (result (gets seperate_vendor (final loop))) with (seperate_vendor (final loop)).
  change (final (gets seperate_vendor (final loop))) with (final loop).
  change (trace (gets seperate_vendor (final loop))) with (@nil syscall).
  pose proof (mount_mirrors_loop h sys _ false g Hone) as Hflag. fold loop in Hflag.
  assert (final (when (negb (seperate_vendor (final loop)))
                   (emit (xsymlink (MIRRDIR h +:+ "/system/vendor") (MIRRDIR h +:+ "/vendor")))
                   (final loop)) = final loop) as Hsame.
  { by destruct (seperate_vendor (final loop)). }
  rewrite Hsame. split_and!; [exact Hflag| |].
  - rewrite !elem_of_app.
    assert (xsymlink (MIRRDIR h +:+ "/system/vendor") (MIRRDIR h +:+ "/vendor")
              ∉ trace loop) as Hnot.
    { pose proof (emits_fold_each (fun c => forall a b, c ≠ xsymlink a b)
                    (mount_mirror h sys) (file_to_array sys "/proc/mounts") false) as He.
      intros Hin. specialize (He ltac:(intros; unfold mount_mirror, set_seperate_vendor;
                                       repeat emits_step; try done;
                                       apply emits_sscanf_mount) g).
      rewrite Forall_forall in He. exact (He _ Hin _ _ eq_refl). }
    destruct (seperate_vendor (final loop)); cbn [negb when].
    + split; [|done]. intros [?|[[]%elem_of_nil|[]%elem_of_nil]]. done.
    + split; [done|]. intros _. right. right. left.
  - intros Hroot. rewrite elem_of_app. left. by apply mount_mirrors_root.
Qed.

Lemma vendor_partition_detected_partitioned :
  forallb (one_mount_point partitioned) (file_to_array partitioned "/proc/mounts") = true
  /\ seperate_vendor (final (mount_mirrors magisk partitioned boot)) = true
  /\ trace (mount_mirrors magisk partitioned boot)
     = [xmount (Some "/dev/block/sda1") "/sbin/.core/mirror/system" (Some "ext4") MS_RDONLY;
        xmkdir "/sbin/.core/mirror/vendor" mode_0755;
        xmount (Some "/dev/block/sda2") "/sbin/.core/mirror/vendor" (Some "ext4") MS_RDONLY].
Proof.
  assert (forallb (one_mount_point partitioned) (file_to_array partitioned "/proc/mounts")
          = true) as Hone by by vm_compute.
  destruct (vendor_partition_detected magisk partitioned boot Hone) as (Hflag & _).
  split_and!; [done|by rewrite Hflag|by vm_compute].
Defined.

(** *** Reading a line of /proc/mounts *)

Lemma skip_space_word (w rest : string) :
  word w = true -> skip_space (w +:+ rest) = w +:+ rest.
Proof.
  unfold word. destruct w as [|a w]; [done|]. cbn [negb spaceless]. rewrite app_cons.
  intros [_ [Ha _]%andb_true_iff]%andb_true_iff. cbn [skip_space].
  by destruct (isspace a).
Qed.

Lemma scan_word_app (w rest : string) :
  spaceless w = true -> scan_word (w +:+ " " +:+ rest) = (w, " " +:+ rest).
Proof.
  induction w as [|a w IH]; [done|]. cbn [spaceless]. rewrite app_cons.
  intros [Ha Hw]%andb_true_iff. cbn [scan_word].
  destruct (isspace a); [done|]. by rewrite IH.
Qed.

Lemma scan_word_all (w : string) : spaceless w = true -> scan_word w = (w, "").
Proof.
  induction w as [|a w IH]; [done|]. cbn [spaceless scan_word].
  intros [Ha Hw]%andb_true_iff. destruct (isspace a); [done|]. by rewrite IH.
Qed.

Lemma scan_s_word (w rest : string) :
  word w = true -> scan_s (w +:+ " " +:+ rest) = Some (w, " " +:+ rest).
Proof.
  intros Hw. unfold scan_s. rewrite skip_space_word by done.
  unfold word in Hw. apply andb_true_iff in Hw as [Hne Hw].
  rewrite scan_word_app by done. by destruct (bool_decide (w = "")).
Qed.

Lemma scan_s_next (w rest : string) :
  word w = true -> scan_s (" " +:+ w +:+ " " +:+ rest) = Some (w, " " +:+ rest).
Proof.
  intros Hw. unfold scan_s. rewrite app_cons, app_empty_l.
  replace (skip_space (String " " (w +:+ " " +:+ rest)))
    with (skip_space (w +:+ " " +:+ rest)) by done.
  rewrite skip_space_word by done.
  unfold word in Hw. apply andb_true_iff in Hw as [Hne Hw].
  rewrite scan_word_app by done. by destruct (bool_decide (w = "")).
Qed.

Lemma scan_s_only (w : string) : word w = true -> scan_s w = Some (w, "").
Proof.
  intros Hw. unfold scan_s.
  pose proof (skip_space_word w "" Hw) as Hs. rewrite app_empty_r in Hs. rewrite Hs.
  unfold word in Hw. apply andb_true_iff in Hw as [Hne Hw].
  rewrite scan_word_all by done. by destruct (bool_decide (w = "")).
Qed.

Lemma sscanf_mount_line (dev mnt fs rest : string) (g : globals) :
  word dev = true -> word mnt = true -> word fs = true ->
  sscanf_mount (dev +:+ " " +:+ mnt +:+ " " +:+ fs +:+ " " +:+ rest) g
  = (tt, Globals dev fs (module_list g) (setup_done g) (seperate_vendor g), []).
Proof.
  intros Hd Hm Hf. unfold sscanf_mount.
  rewrite scan_s_word, scan_s_next, scan_s_next by done. by destruct g.
Qed.

(** X25: reading a line of /proc/mounts.  From a line that begins with
    three words, device, mount point and file system type, [sscanf] leaves
    the device in [buf] and the type in [buf2]; so the system mirror and the
    vendor mirror are mounted read-only from the device of their line with
    its file system type, the vendor mirror after its directory was made.
    From a line that is a single word only [buf] is written, and from an
    empty line nothing is: the mount that follows then uses what the
    buffers held. *)
Theorem mirror_mount_of_line (h : magisk_h) (sys : platform)
    (dev mnt fs rest : string) (g : globals) :
  word dev = true -> word mnt = true -> word fs = true ->
  sscanf_mount (dev +:+ " " +:+ mnt +:+ " " +:+ fs +:+ " " +:+ rest) g
  = (tt, Globals dev fs (module_list g) (setup_done g) (seperate_vendor g), [])
  /\ (contains sys (dev +:+ " " +:+ mnt +:+ " " +:+ fs +:+ " " +:+ rest) " /system_root "
      = false ->
      contains sys (dev +:+ " " +:+ mnt +:+ " " +:+ fs +:+ " " +:+ rest) " /system " = true ->
      trace (mount_mirror h sys (dev +:+ " " +:+ mnt +:+ " " +:+ fs +:+ " " +:+ rest) false g)
      = [xmount (Some dev) (MIRRDIR h +:+ "/system") (Some fs) MS_RDONLY])
  /\ (contains sys (dev +:+ " " +:+ mnt +:+ " " +:+ fs +:+ " " +:+ rest) " /system_root "
      = false ->
      contains sys (dev +:+ " " +:+ mnt +:+ " " +:+ fs +:+ " " +:+ rest) " /system " = false ->
      contains sys (dev +:+ " " +:+ mnt +:+ " " +:+ fs +:+ " " +:+ rest) " /vendor " = true ->
      forall system_as_root,
        trace (mount_mirror h sys (dev +:+ " " +:+ mnt +:+ " " +:+ fs +:+ " " +:+ rest)
                 system_as_root g)
        = [xmkdir (MIRRDIR h +:+ "/vendor") mode_0755;
           xmount (Some dev) (MIRRDIR h +:+ "/vendor") (Some fs) MS_RDONLY])
  /\ sscanf_mount dev g
     = (tt, Globals dev (buf2 g) (module_list g) (setup_done g) (seperate_vendor g), [])
  /\ sscanf_mount "" g = (tt, g, []).
Proof.
  intros Hd Hm Hf.
  pose proof (sscanf_mount_line dev mnt fs rest) as Hline.
  split_and!.
  - by apply Hline.
  - intros H1 H2. unfold mount_mirror. rewrite H1, H2. cbn [negb andb].
    rewrite ?trace_bind, ?final_bind, ?result_bind, Hline by done. by destruct g.
  - intros H1 H2 H3 sar. unfold mount_mirror. rewrite H1, H2, H3, andb_false_r.
    rewrite ?trace_bind, ?final_bind, ?result_bind, Hline by done. by destruct g.
  - unfold sscanf_mount. rewrite scan_s_only by done. by destruct g.
  - by destruct g.
Qed.

Lemma mirror_mount_of_line_system :
  word "/dev/block/sda1" = true /\ word "/system" = true /\ word "ext4" = true
  /\ trace (mount_mirror magisk partitioned "/dev/block/sda1 /system ext4 ro 0 0" false boot)
     = [xmount (Some "/dev/block/sda1") "/sbin/.core/mirror/system" (Some "ext4") MS_RDONLY].
Proof.
  assert (word "/dev/block/sda1" = true) as Hd by by vm_compute.
  assert (word "/system" = true) as Hm by by vm_compute.
  assert (word "ext4" = true) as Hf by by vm_compute.
  destruct (mirror_mount_of_line magisk partitioned "/dev/block/sda1" "/system" "ext4"
              "ro 0 0" boot Hd Hm Hf) as (_ & Hsys & _).
  split_and!; [done..|]. apply (Hsys eq_refl eq_refl).
Defined.

(** *** The alternative binaries *)

Section Binaries.
Context (k : startup_h) (ssys : startup_sys).

Lemma find_bin_none paths bin_path g :
  Forall (fun p => lstat ssys p ≠ Some false) paths ->
  find_bin k ssys paths bin_path g = (bin_path, g, []).
Proof.
  induction 1 as [|p paths Hp _ IH]; [done|]. cbn [find_bin].
  by destruct (lstat ssys p) as [[]|].
Qed.

Lemma find_bin_first l1 p l2 bin_path g :
  Forall (fun p => lstat ssys p ≠ Some false) l1 -> lstat ssys p = Some false ->
  find_bin k ssys (l1 ++ p :: l2) bin_path g
  = (Some p, g, [later (rm_rf (DATABIN k)); cp_afc_from bin_path (DATABIN k)]).
Proof.
  intros Hl1 Hp. induction Hl1 as [|q l1 Hq _ IH]; cbn [find_bin app].
  - by rewrite Hp.
  - by destruct (lstat ssys q) as [[]|].
Qed.

Lemma find_bin_state paths bin_path g : state (find_bin k ssys paths bin_path g) = g.
Proof.
  induction paths as [|p paths IH]; [done|]. cbn [find_bin].
  by destruct (lstat ssys p) as [[]|].
Qed.
End Binaries.

(** X26: the alternative binaries.  The first path of the table that
    exists and is not a symlink is the one taken.  The copy made inside the
    loop is made before the path is recorded, from a null source; the copy
    from the path follows after the loop, into a directory emptied again,
    and the path is then removed.  When no path of the table qualifies
    nothing is done.  The globals are left alone. *)
Theorem alternative_binaries_moved (k : startup_h) (ssys : startup_sys) (g : globals) :
  (forall l1 p l2,
      alt_bin = l1 ++ p :: l2 ->
      Forall (fun q => lstat ssys q ≠ Some false) l1 -> lstat ssys p = Some false ->
      calls (move_binaries k ssys g)
      = [later (rm_rf (DATABIN k)); cp_afc_from None (DATABIN k);
         later (rm_rf (DATABIN k)); cp_afc_from (Some p) (DATABIN k); later (rm_rf p)])
  /\ (Forall (fun q => lstat ssys q ≠ Some false) alt_bin ->
      calls (move_binaries k ssys g) = [])
  /\ state (move_binaries k ssys g) = g.
Proof.
  unfold move_binaries. split_and!.
  - intros l1 p l2 -> Hl1 Hp. unfold mbind, sio_bind.
    by rewrite find_bin_first.
  - intros Hnone. unfold mbind, sio_bind. by rewrite find_bin_none.
  - rewrite state_bind, find_bin_state.
    by destruct (value (find_bin k ssys alt_bin None g)).
Qed.
